(** * Scheduling and live-dispatch core of the signage server

    A shallow embedding of the schedule repository ([database.js]), the
    two conflict checks, the connection registry, the request handlers and
    the periodic sweep of the multi-tenant server, the daypart table
    ([daypartScheduling.js]) and the live-session store
    ([liveSessionDb.js]), followed by the properties established about
    them.  The two servers that preceded the multi-tenant one (the
    in-memory one and the single-tenant database-backed one), the
    tables they use (display tracking, current display, display
    history) and the viewer counts of a live session are embedded as
    well.

    Conventions.  An instant is a number of milliseconds since the epoch
    (what [Date.getTime()] returns), a duration a number of milliseconds;
    both are integers of [Z].  A JavaScript value that may be [undefined]
    or [null] is an [option]; the test [x || d] on a number is written
    with [or_default], which treats [undefined] and [0] alike, as
    JavaScript does.  A table is the list of its rows in insertion order;
    a [SERIAL] key is drawn from a counter kept next to the rows. *)

From Stdlib Require Import ZArith List String Ascii Bool Lia Arith.
From Stdlib Require Import DecimalString.
From Stdlib Require Import Sorting.Sorted Sorting.Permutation.
Import ListNotations.

Open Scope Z_scope.

(* ===================================================================== *)
(** * Part I: the program *)
(* ===================================================================== *)

(** ** JavaScript helpers *)

Module Js.

(** [x || d] for a numeric [x]: [undefined], [null] and [0] are falsy. *)
Definition or_default (x : option Z) (d : Z) : Z :=
  match x with
  | Some v => if v =? 0 then d else v
  | None => d
  end.

(** Truthiness of an optional number ([if (deviceId) ...]). *)
Definition truthy (x : option Z) : bool :=
  match x with
  | Some v => negb (v =? 0)
  | None => false
  end.

(** Truthiness of an optional string ([!imageUrl]): the empty string is
    falsy. *)
Definition truthy_str (x : option string) : bool :=
  match x with
  | Some EmptyString => false
  | Some _ => true
  | None => false
  end.

(** [String(n)] for a non-negative integer. *)
Definition String_ (n : nat) : string :=
  NilEmpty.string_of_uint (Nat.to_uint n).

Fixpoint repeat_char (c : ascii) (n : nat) : string :=
  match n with
  | O => EmptyString
  | S k => String c (repeat_char c k)
  end.

(** [s.padStart(len, c)] for a one-character filler. *)
Definition padStart (s : string) (len : nat) (c : ascii) : string :=
  (repeat_char c (len - String.length s) ++ s)%string.

(** [a >= b] and [a < b] on strings: code-unit lexicographic order. *)
Definition str_ge (a b : string) : bool := String.leb b a.
Definition str_lt (a b : string) : bool := String.ltb a b.

End Js.

(** ** Column types of the database *)

Module Pg.

(** INTEGER: a value outside its range is refused. *)
Definition int4 (x : Z) : bool := (- 2147483648 <=? x) && (x <=? 2147483647).

Fixpoint all_spaces (s : string) : bool :=
  match s with
  | EmptyString => true
  | String c rest => Ascii.eqb c " " && all_spaces rest
  end.

(** Assignment to a VARCHAR(n) column: a longer value is refused
    ([None]), unless the characters in excess are all spaces, in which
    case the value is cut to [n] characters and stored. *)
Definition varchar (n : nat) (s : string) : option string :=
  if Nat.leb (String.length s) n then Some s
  else if all_spaces (substring n (String.length s - n) s)
       then Some (substring 0 n s)
       else None.

End Pg.

(** ** daypartScheduling.js *)

Module Daypart.

Record daypart := mkDaypart { start : string; end_ : string; name : string }.

Definition DAYPARTS : list (string * daypart) :=
  [ ("BREAKFAST"%string, mkDaypart "06:00" "11:00" "Breakfast");
    ("LUNCH"%string, mkDaypart "11:00" "16:00" "Lunch");
    ("DINNER"%string, mkDaypart "16:00" "22:00" "Dinner");
    ("LATE_NIGHT"%string, mkDaypart "22:00" "06:00" "Late Night") ].

(** The object returned by [getCurrentDaypart]: [{ type: key, ...daypart }]. *)
Record current := mkCurrent
  { type : string; c_name : string; c_start : string; c_end : string }.

Definition UNKNOWN : current := mkCurrent "UNKNOWN" "Unknown" EmptyString EmptyString.

(** The template literal building ["HH:MM"]. *)
Definition currentTimeOf (hours minutes : nat) : string :=
  (Js.padStart (Js.String_ hours) 2 "0" ++ ":"
     ++ Js.padStart (Js.String_ minutes) 2 "0")%string.

(** The test made on one entry of the table inside the loop. *)
Definition matches (currentTime key : string) (d : daypart) : bool :=
  if String.eqb key "LATE_NIGHT"
  then Js.str_ge currentTime (start d) || Js.str_lt currentTime (end_ d)
  else Js.str_ge currentTime (start d) && Js.str_lt currentTime (end_ d).

(** The [for ... of Object.entries(DAYPARTS)] loop with its early return. *)
Fixpoint scan (currentTime : string) (entries : list (string * daypart))
  : option current :=
  match entries with
  | [] => None
  | (key, d) :: rest =>
      if matches currentTime key d
      then Some (mkCurrent key (name d) (start d) (end_ d))
      else scan currentTime rest
  end.

(** [getCurrentDaypart], with the clock reading ([now.getHours()],
    [now.getMinutes()]) as its argument. *)
Definition getCurrentDaypart (hours minutes : nat) : current :=
  match scan (currentTimeOf hours minutes) DAYPARTS with
  | Some c => c
  | None => UNKNOWN
  end.

End Daypart.

(** ** database.js: the schedule repository *)

Module ScheduleDb.

(** The values admitted by the CHECK constraints of [database-schema.sql]
    on [repeat_type] and [status]. *)
Inductive repeat_class := once | daily | weekly | monthly | yearly.
Inductive lifecycle := pending | completed | cancelled.

Definition lifecycle_eqb (a b : lifecycle) : bool :=
  match a, b with
  | pending, pending | completed, completed | cancelled, cancelled => true
  | _, _ => false
  end.

(** A row of [schedules], with the columns [database.js] reads or writes. *)
Record schedule := mkSchedule
  { id : Z;
    image_url : string;
    scheduled_time : Z;
    duration : Z;
    repeat_type : repeat_class;
    rotation : Z;
    mirror : bool;
    status : lifecycle }.

(** The table: its rows in insertion order and the SERIAL sequence. *)
Record table := mkTable { rows : list schedule; next_id : Z }.

Definition empty : table := mkTable [] 1.

(** The object handed to [create]; a field left out is [None]. *)
Record scheduleData := mkData
  { imageUrl : string;
    scheduledTime : Z;
    d_duration : option Z;
    d_repeat : option repeat_class;
    d_rotation : option Z;
    d_mirror : option bool }.

(** Column constraints of the schema that can reject an INSERT.  A URL
    of more than 500 characters counts as rejected; PostgreSQL takes one
    whose excess is all spaces, cut to 500 characters ([Pg.varchar]). *)
Definition insertable (r : schedule) : bool :=
  (Nat.leb (String.length (image_url r)) 500)
  && ((rotation r =? 0) || (rotation r =? 90)
      || (rotation r =? 180) || (rotation r =? 270))
  && (- 2147483648 <=? duration r) && (duration r <=? 2147483647).

(** The column types alone: a value they do not take is rejected before
    a row is formed and an id drawn. *)
Definition typed (r : schedule) : bool :=
  (Nat.leb (String.length (image_url r)) 500)
  && Pg.int4 (duration r) && Pg.int4 (rotation r).

(** [create]: INSERT ... RETURNING *.  [None] is a rejected INSERT (the
    promise rejects); a row that fails the CHECK on [rotation] has
    advanced the sequence all the same. *)
Definition create (d : scheduleData) (t : table) : option schedule * table :=
  let r := mkSchedule (next_id t) (imageUrl d) (scheduledTime d)
             (Js.or_default (d_duration d) 60000)
             (match d_repeat d with Some c => c | None => once end)
             (Js.or_default (d_rotation d) 0)
             (match d_mirror d with Some b => b | None => false end)
             pending in
  if insertable r
  then (Some r, mkTable (rows t ++ [r]) (next_id t + 1))
  else if typed r
       then (None, mkTable (rows t) (next_id t + 1))
       else (None, t).

(** ORDER BY scheduled_time ASC, as an insertion sort; rows with equal
    instants keep their table order (SQL leaves that order open). *)
Fixpoint insert_by_time (r : schedule) (l : list schedule) : list schedule :=
  match l with
  | [] => [r]
  | x :: rest =>
      if scheduled_time r <=? scheduled_time x
      then r :: x :: rest
      else x :: insert_by_time r rest
  end.

Definition order_by_time (l : list schedule) : list schedule :=
  fold_right insert_by_time [] l.

(** [getAll]. *)
Definition getAll (t : table) : list schedule := order_by_time (rows t).

Definition is_pending (r : schedule) : bool := lifecycle_eqb (status r) pending.

(** [getPending]: the function takes no argument; [now] is the clock
    read by the query's NOW(). *)
Definition getPending (now : Z) (t : table) : list schedule :=
  order_by_time
    (filter (fun r => is_pending r && (scheduled_time r <=? now)) (rows t)).

(** UPDATE ... WHERE id = $n: rewrite the rows with that id. *)
Definition update_where (i : Z) (f : schedule -> schedule) (t : table) : table :=
  mkTable (map (fun r => if id r =? i then f r else r) (rows t)) (next_id t).

(** RETURNING * followed by [result.rows[0]]. *)
Definition returning (i : Z) (t : table) : option schedule :=
  find (fun r => id r =? i) (rows t).

(** The [updates] object of [update]. *)
Record updates := mkUpdates
  { u_scheduledTime : option Z;
    u_duration : option Z;
    u_repeat : option repeat_class }.

Definition coalesce {A} (x : option A) (old : A) : A :=
  match x with Some v => v | None => old end.

(** The UPDATE of [update(id, updates)], for parameters the database
    accepts. *)
Definition update (i : Z) (u : updates) (t : table) : option schedule * table :=
  let t' := update_where i
              (fun r => mkSchedule (id r) (image_url r)
                          (coalesce (u_scheduledTime u) (scheduled_time r))
                          (coalesce (u_duration u) (duration r))
                          (coalesce (u_repeat u) (repeat_type r))
                          (rotation r) (mirror r) (status r)) t in
  (returning i t', t').

(** [update(id, updates)] as its callers reach it: [$2] is bound to the
    INTEGER column [duration], so a duration outside INTEGER is refused
    before any row is touched and the promise rejects ([None]). *)
Definition updatable (u : updates) : bool :=
  match u_duration u with
  | Some d => (- 2147483648 <=? d) && (d <=? 2147483647)
  | None => true
  end.

Definition update_call (i : Z) (u : updates) (t : table)
  : option (option schedule * table) :=
  if updatable u then Some (update i u t) else None.

(** [updateStatus(id, status)]. *)
Definition updateStatus (i : Z) (s : lifecycle) (t : table)
  : option schedule * table :=
  let t' := update_where i
              (fun r => mkSchedule (id r) (image_url r) (scheduled_time r)
                          (duration r) (repeat_type r) (rotation r)
                          (mirror r) s) t in
  (returning i t', t').

(** [reschedule(id, newTime)]: sets the time and forces [pending]. *)
Definition reschedule (i : Z) (newTime : Z) (t : table)
  : option schedule * table :=
  let t' := update_where i
              (fun r => mkSchedule (id r) (image_url r) newTime
                          (duration r) (repeat_type r) (rotation r)
                          (mirror r) pending) t in
  (returning i t', t').

(** [delete(id)]: DELETE ... RETURNING *. *)
Definition delete (i : Z) (t : table) : option schedule * table :=
  (returning i t,
   mkTable (filter (fun r => negb (id r =? i)) (rows t)) (next_id t)).

(** The WHERE clause of [hasConflict] on one row: [$1] is the candidate
    instant, [$2] the computed end, [$3] the excluded id. *)
Definition conflict_row (p1 p2 : Z) (p3 : option Z) (r : schedule) : bool :=
  is_pending r
  && (match p3 with None => true | Some x => negb (id r =? x) end)
  && (((scheduled_time r <=? p1) && (p1 <? scheduled_time r + duration r))
      || ((scheduled_time r <? p2) && (p2 <=? scheduled_time r + duration r))
      || ((p1 <=? scheduled_time r) && (scheduled_time r <? p2))).

(** [hasConflict(scheduledTime, duration, excludeId = null)], with what
    reaches the database.  [$1] is the caller's date-time text:
    PostgreSQL reads it into the zone-less TIMESTAMP of the column by
    its wall-clock digits and ignores a zone designator; the rows were
    stored the same way, so [scheduledTime_] and the rows are on one
    axis.  [$2] is the [Date] [endTime], computed from the instant the
    text denotes; the driver writes it in the zone of the server process
    and PostgreSQL again keeps the digits.  On the axis of the column
    [$2] is therefore the start plus the duration plus [skew], the
    offset of the process zone at [endTime] less the offset the text
    designates: 0 for a text ending in Z in a process running in UTC,
    minus five hours for such a text in a process five hours west of
    UTC. *)
Definition hasConflict_sent (skew : Z) (scheduledTime_ duration_ : Z)
    (excludeId : option Z) (t : table) : bool :=
  let endTime := scheduledTime_ + duration_ + skew in
  negb (Nat.eqb
          (List.length (filter (conflict_row scheduledTime_ endTime excludeId)
                          (rows t)))
          0).

(** [hasConflict] where the end is read on the axis of the start. *)
Definition hasConflict (scheduledTime_ duration_ : Z) (excludeId : option Z)
    (t : table) : bool :=
  hasConflict_sent 0 scheduledTime_ duration_ excludeId t.

(** [hasConflict] as its callers reach it, where the instant or the
    duration may be [undefined]: [endTime] is then an Invalid Date, the
    query is rejected and the promise rejects ([None]). *)
Definition hasConflict_call (scheduledTime_ duration_ : option Z)
    (excludeId : option Z) (t : table) : option bool :=
  match scheduledTime_, duration_ with
  | Some s, Some d => Some (hasConflict s d excludeId t)
  | _, _ => None
  end.

(** The same, with the end as the database reads it. *)
Definition hasConflict_call_sent (skew : Z) (scheduledTime_ duration_ : option Z)
    (excludeId : option Z) (t : table) : option bool :=
  match scheduledTime_, duration_ with
  | Some s, Some d => Some (hasConflict_sent skew s d excludeId t)
  | _, _ => None
  end.

End ScheduleDb.

(** ** database.js: display history *)

Module DisplayDb.

Record display := mkDisplay
  { h_id : Z;
    h_image_url : string;
    displayed_at : Z;
    h_duration : Z;
    h_rotation : Z;
    h_mirror : bool;
    schedule_id : option Z }.

Record table := mkTable { rows : list display; next_id : Z }.

Definition empty : table := mkTable [] 1.

(** The foreign key of [schedule_id]: a reference must name a row of
    [schedules]. *)
Definition referenced (reference : option Z) (schedules : ScheduleDb.table)
  : bool :=
  match reference with
  | Some i => existsb (fun s => ScheduleDb.id s =? i) (ScheduleDb.rows schedules)
  | None => true
  end.

(** [displayDb.create]: [rotation || 0], [mirror || false],
    [scheduleId || null].  [None] is a rejected INSERT (the promise
    rejects).  A value the column types refuse (an image URL too long
    for VARCHAR(500), a duration or rotation outside INTEGER) is
    refused when the parameters are bound and leaves the table as it
    was; a reference to a schedule that does not exist is refused by
    the foreign key once the row is formed, and the sequence has
    advanced.  [schedules] is the table the key refers to. *)
Definition create (imageUrl : string) (displayedAt duration_ : Z)
    (rotation_ : option Z) (mirror_ : option bool) (scheduleId : option Z)
    (schedules : ScheduleDb.table) (t : table) : option display * table :=
  let reference := if Js.truthy scheduleId then scheduleId else None in
  match Pg.varchar 500 imageUrl with
  | None => (None, t)
  | Some url =>
      if Pg.int4 duration_ && Pg.int4 (Js.or_default rotation_ 0)
      then
        let r := mkDisplay (next_id t) url displayedAt duration_
                   (Js.or_default rotation_ 0)
                   (match mirror_ with Some b => b | None => false end)
                   reference in
        if referenced reference schedules
        then (Some r, mkTable (rows t ++ [r]) (next_id t + 1))
        else (None, mkTable (rows t) (next_id t + 1))
      else (None, t)
  end.

(** ON DELETE SET NULL of [schedule_id]: the rows that referred to a
    deleted schedule lose the reference. *)
Definition unlink (i : Z) (t : table) : table :=
  mkTable
    (map (fun r =>
            match schedule_id r with
            | Some j =>
                if j =? i
                then mkDisplay (h_id r) (h_image_url r) (displayed_at r)
                       (h_duration r) (h_rotation r) (h_mirror r) None
                else r
            | None => r
            end) (rows t))
    (next_id t).

End DisplayDb.

(** ** The first server: schedules kept in memory *)

Module InMemory.

Record schedule := mkSchedule
  { id : string;
    scheduledTime : Z;
    duration : option Z;
    status : ScheduleDb.lifecycle }.

(** The callback of [existingSchedules.some] inside [hasConflict]. *)
Definition conflicts_with (newStart newEnd : Z) (excludeId : option string)
    (s : schedule) : bool :=
  if Js.truthy_str excludeId
     && (match excludeId with Some x => String.eqb (id s) x | None => false end)
  then false
  else if negb (ScheduleDb.lifecycle_eqb (status s) ScheduleDb.pending)
  then false
  else
    let existingStart := scheduledTime s in
    let existingEnd := existingStart + Js.or_default (duration s) 60000 in
    (newStart <? existingEnd) && (existingStart <? newEnd).

(** [hasConflict(newSchedule, existingSchedules, excludeId = null)]. *)
Definition hasConflict (newSchedule : schedule)
    (existingSchedules : list schedule) (excludeId : option string) : bool :=
  let newStart := scheduledTime newSchedule in
  let newEnd := newStart + Js.or_default (duration newSchedule) 60000 in
  existsb (conflicts_with newStart newEnd excludeId) existingSchedules.

End InMemory.

(** ** The multi-tenant server: the connection registry *)

Module Registry.

(** The value stored by the [register-display] handler. *)
Record displayInfo := mkInfo
  { socketId : string;
    userId : Z;
    deviceId : Z;
    displayName : string;
    timezone : string;
    connectedAt : Z }.

(** [connectedDisplays]: a JavaScript [Map] from serial number to
    [displayInfo], as the list of its entries in insertion order. *)
Definition t := list (string * displayInfo).

Definition empty : t := [].

(** [Map.prototype.set]: an existing key keeps its position. *)
Fixpoint set (serial : string) (v : displayInfo) (m : t) : t :=
  match m with
  | [] => [(serial, v)]
  | (k, old) :: rest =>
      if String.eqb k serial then (serial, v) :: rest
      else (k, old) :: set serial v rest
  end.

Fixpoint get (serial : string) (m : t) : option displayInfo :=
  match m with
  | [] => None
  | (k, v) :: rest => if String.eqb k serial then Some v else get serial rest
  end.

Definition has (serial : string) (m : t) : bool :=
  match get serial m with Some _ => true | None => false end.

(** [Map.prototype.delete]. *)
Fixpoint delete (serial : string) (m : t) : t :=
  match m with
  | [] => []
  | (k, v) :: rest =>
      if String.eqb k serial then delete serial rest
      else (k, v) :: delete serial rest
  end.

Definition keys (m : t) : list string := map fst m.
Definition values (m : t) : list displayInfo := map snd m.

(** The scan of the [disconnect] handler: the first entry, in iteration
    order, whose [socketId] is the closing socket. *)
Fixpoint findBySocket (sid : string) (m : t) : option string :=
  match m with
  | [] => None
  | (k, v) :: rest =>
      if String.eqb (socketId v) sid then Some k else findBySocket sid rest
  end.

(** The [disconnect] handler: delete that entry and [break]. *)
Definition disconnect (sid : string) (m : t) : t :=
  match findBySocket sid m with
  | Some serial => delete serial m
  | None => m
  end.

(** How many entries a serial has. *)
Definition count (serial : string) (m : t) : nat :=
  List.length (filter (fun e => String.eqb (fst e) serial) m).

(** The two mutations the server performs on the registry. *)
Inductive op :=
| RegisterDisplay (serial : string) (v : displayInfo)
| DisconnectSocket (sid : string).

Definition apply (m : t) (o : op) : t :=
  match o with
  | RegisterDisplay serial v => set serial v m
  | DisconnectSocket sid => disconnect sid m
  end.

Definition run (ops : list op) : t := fold_left apply ops empty.

End Registry.

(** ** The multi-tenant server: state, messages and handlers *)

Module Server.

Import ScheduleDb.

(** *** Tables read by the handlers *)

(** A row of [displays], the paired-device table of [devicePairing.js]. *)
Record device := mkDevice
  { dev_id : Z;
    serial_number : string;
    user_id : option Z;
    is_paired : bool;
    device_name : option string;
    device_timezone : option string }.

Record selection_group := mkGroup
  { g_id : Z; g_user_id : Z; group_name : string }.

Record zone := mkZone
  { contentId : option Z;
    mediaUrl : option string;
    mediaType : option string;
    z_thumbnailUrl : option string }.

Record layout := mkLayout
  { layout_id : Z;
    l_device_id : Z;
    l_user_id : Z;
    is_active : bool;
    layout_name : string;
    template_id : option Z;
    zones : list zone }.

Record upload := mkUpload
  { up_id : Z;
    up_user_id : Z;
    up_image_url : string;
    media_type : string;
    up_thumbnail_url : option string }.

(** *** Messages pushed over the transport *)

Record content := mkContent
  { c_type : string;
    url : string;
    c_rotation : Z;
    c_mirror : bool;
    c_duration : Z;
    displayedAt : Z;
    clearAt : Z;
    thumbnailUrl : option string;
    muted : option bool }.

Record layoutPayload := mkLayoutPayload
  { lp_layoutId : Z;
    lp_layoutName : string;
    lp_templateId : option Z;
    lp_zones : list zone }.

Inductive payload :=
| DisplayContent (c : content)
| DisplayLayout (l : layoutPayload)
| ClearContent.

(** One [io.to(socketId).emit(...)] or [socket.emit(...)]: the target
    socket and what it is sent. *)
Definition emission := (string * payload)%type.

(** *** Server state: the durable tables and the process memory *)

Record state := mkState
  { schedules : ScheduleDb.table;
    display_history : DisplayDb.table;
    displays : list device;
    selection_groups : list selection_group;
    selection_group_devices : list (Z * Z);
    layouts : list layout;
    upload_history : list upload;
    current_display : option content;
    connectedDisplays : Registry.t;
    currentContent : option content }.

Definition set_schedules (t : ScheduleDb.table) (st : state) : state :=
  mkState t (display_history st) (displays st) (selection_groups st)
    (selection_group_devices st) (layouts st) (upload_history st)
    (current_display st) (connectedDisplays st) (currentContent st).

Definition set_history (h : DisplayDb.table) (st : state) : state :=
  mkState (schedules st) h (displays st) (selection_groups st)
    (selection_group_devices st) (layouts st) (upload_history st)
    (current_display st) (connectedDisplays st) (currentContent st).

Definition set_displays (d : list device) (st : state) : state :=
  mkState (schedules st) (display_history st) d (selection_groups st)
    (selection_group_devices st) (layouts st) (upload_history st)
    (current_display st) (connectedDisplays st) (currentContent st).

Definition set_registry (m : Registry.t) (st : state) : state :=
  mkState (schedules st) (display_history st) (displays st)
    (selection_groups st) (selection_group_devices st) (layouts st)
    (upload_history st) (current_display st) m (currentContent st).

Definition clear_current (st : state) : state :=
  mkState (schedules st) (display_history st) (displays st)
    (selection_groups st) (selection_group_devices st) (layouts st)
    (upload_history st) None (connectedDisplays st) None.

Definition initial : state :=
  mkState ScheduleDb.empty DisplayDb.empty [] [] [] [] [] None
    Registry.empty None.

(** *** Replies

    [Error status error] is [res.status(status).json({ error, ... })];
    the [Success] forms are the [res.json({ success: true, ... })]
    answers; [Unhandled] is a handler whose promise rejected before any
    answer was sent. *)

Inductive reply :=
| Error (status : Z) (error : string)
| Success
| SuccessDisplaysSent (displaysSent : nat)
| SuccessSchedule (s : schedule)
| SuccessSchedules (l : list schedule)
| Unhandled.

(** *** Helpers shared by the handlers *)

(** [for (const [serialNumber, displayInfo] of connectedDisplays.entries())
    if (cond(displayInfo)) io.to(displayInfo.socketId).emit(...)]. *)
Definition emit_where (cond : Registry.displayInfo -> bool) (p : payload)
    (m : Registry.t) : list emission :=
  map (fun e => (Registry.socketId (snd e), p))
      (filter (fun e => cond (snd e)) m).

Definition owned_by (u : Z) (i : Registry.displayInfo) : bool :=
  Registry.userId i =? u.

Definition owned_device (u d : Z) (i : Registry.displayInfo) : bool :=
  (Registry.userId i =? u) && (Registry.deviceId i =? d).

(** [displaySelectionGroups.getSelectionGroupWithDevices(groupId, userId)]:
    [None] when the group row is missing (the function throws). *)
Definition getSelectionGroupWithDevices (groupId u : Z) (st : state)
  : option (selection_group * list device) :=
  match find (fun g => (g_id g =? groupId) && (g_user_id g =? u))
             (selection_groups st) with
  | None => None
  | Some g =>
      Some (g,
            filter (fun d =>
                      existsb (fun gd => (fst gd =? groupId) && (snd gd =? dev_id d))
                              (selection_group_devices st)
                      && (match user_id d with
                          | Some x => x =? u
                          | None => false
                          end))
                   (displays st))
  end.

(** The message built from a schedule row by the sweep and by the
    update handler.  A row written by [ScheduleDb.create] carries no
    [content_type], [thumbnail_url] or [muted], so the [||] defaults
    apply. *)
Definition content_of_schedule (now : Z) (s : schedule) : content :=
  mkContent "image" (image_url s)
    (Js.or_default (Some (rotation s)) 0) (mirror s) (duration s)
    now (now + duration s) None (Some false).

(** The message built by the registration handler: the same, without a
    [muted] property. *)
Definition replay_content (now : Z) (s : schedule) : content :=
  mkContent "image" (image_url s)
    (Js.or_default (Some (rotation s)) 0) (mirror s) (duration s)
    now (now + duration s) None None.

(** *** POST /api/display-now *)

Record displayNowBody := mkDisplayNow
  { n_imageUrl : option string;
    n_rotation : option Z;
    n_mirror : option bool;
    n_duration : option Z;
    n_contentType : option string;
    n_thumbnailUrl : option string;
    n_muted : option bool;
    n_clientTimestamp : option Z;
    n_deviceId : option Z;
    n_groupId : option Z;
    n_uploadedFromGroup : bool }.

Definition or_str (x : option string) (d : string) : string :=
  match x with
  | Some s => if Js.truthy_str x then s else d
  | None => d
  end.

Definition or_bool (x : option bool) : bool :=
  match x with Some b => b | None => false end.

Definition display_now_content (now : Z) (b : displayNowBody) (imageUrl : string)
  : content :=
  let displayDuration := Js.or_default (n_duration b) 60000 in
  mkContent (or_str (n_contentType b) "image") imageUrl
    (Js.or_default (n_rotation b) 0) (or_bool (n_mirror b)) displayDuration
    now (now + displayDuration)
    (if Js.truthy_str (n_thumbnailUrl b) then n_thumbnailUrl b else None)
    (Some (or_bool (n_muted b))).

(** Target resolution: the pushes made, and the devices of the group
    when the request addresses one.  [None]: the group lookup threw. *)
Definition resolve_targets (u : Z) (b : displayNowBody) (p : payload)
    (st : state) : option (list emission * list device) :=
  if Js.truthy (n_groupId b) && n_uploadedFromGroup b then
    match getSelectionGroupWithDevices
            (match n_groupId b with Some g => g | None => 0 end) u st with
    | None => None
    | Some (_, groupDevices) =>
        Some (flat_map (fun d => emit_where (owned_device u (dev_id d)) p
                                   (connectedDisplays st))
                       groupDevices,
              groupDevices)
    end
  else if Js.truthy (n_deviceId b) then
    Some (emit_where
            (owned_device u (match n_deviceId b with Some d => d | None => 0 end))
            p (connectedDisplays st), [])
  else
    Some (emit_where (owned_by u) p (connectedDisplays st), []).

(** The ledger entry of an immediate display: [create] then
    [updateStatus(schedule.id, 'completed')].  The flag is [false] when
    [create] rejected, which throws into the enclosing [catch]. *)
Definition record_one (d : scheduleData) (t : ScheduleDb.table)
  : bool * ScheduleDb.table :=
  match ScheduleDb.create d t with
  | (Some s, t') => (true, snd (updateStatus (id s) completed t'))
  | (None, t') => (false, t')
  end.

(** The [for] loop over the devices of a group inside the [try]: it
    stops at the first rejected [create], keeping what was written. *)
Fixpoint record_group (d : scheduleData) (devs : list device)
    (t : ScheduleDb.table) : ScheduleDb.table :=
  match devs with
  | [] => t
  | _ :: rest =>
      let (ok, t') := record_one d t in
      if ok then record_group d rest t' else t'
  end.

Definition display_now (serverNow u : Z) (b : displayNowBody) (st : state)
  : reply * state * list emission :=
  match n_imageUrl b with
  | None => (Error 400 "Content URL required", st, [])
  | Some imageUrl =>
    if negb (Js.truthy_str (n_imageUrl b))
    then (Error 400 "Content URL required", st, [])
    else
      let now := match n_clientTimestamp b with
                 | Some c => c
                 | None => serverNow
                 end in
      let displayDuration := Js.or_default (n_duration b) 60000 in
      let c := display_now_content now b imageUrl in
      match resolve_targets u b (DisplayContent c) st with
      | None => (Unhandled, st, [])
      | Some (sent, targetDevices) =>
        if Nat.eqb (List.length sent) 0
        then (Error 404 "No displays connected", st, sent)
        else
          let h := snd (DisplayDb.create imageUrl now displayDuration
                          (Some (Js.or_default (n_rotation b) 0))
                          (Some (or_bool (n_mirror b))) None
                          (schedules st) (display_history st)) in
          let d := mkData imageUrl now (Some displayDuration) (Some once)
                     (Some (Js.or_default (n_rotation b) 0))
                     (Some (or_bool (n_mirror b))) in
          let t :=
            if Js.truthy (n_groupId b) && n_uploadedFromGroup b
            then record_group d targetDevices (schedules st)
            else snd (record_one d (schedules st)) in
          (SuccessDisplaysSent (List.length sent),
           set_schedules t (set_history h st), sent)
      end
  end.

(** *** POST /api/schedule *)

Record scheduleBody := mkScheduleBody
  { s_imageUrl : option string;
    s_scheduledTime : option Z;
    s_duration : option Z;
    s_repeat : option repeat_class;
    s_rotation : option Z;
    s_mirror : option bool;
    s_deviceId : option Z;
    s_groupId : option Z;
    s_uploadedFromGroup : bool }.

(** The object passed to [scheduleDb.create], as far as [create] reads it. *)
Definition data_of_body (imageUrl : string) (t : Z) (b : scheduleBody)
  : scheduleData :=
  mkData imageUrl t (Some (Js.or_default (s_duration b) 60000))
    (Some (match s_repeat b with Some c => c | None => once end))
    (Some (Js.or_default (s_rotation b) 0))
    (Some (or_bool (s_mirror b))).

(** The fan-out loop: one [create] per device of the group, no conflict
    check; a rejected [create] is re-thrown to the outer [catch]. *)
Fixpoint create_each (d : scheduleData) (devs : list device)
    (t : ScheduleDb.table) (acc : list schedule)
  : option (list schedule) * ScheduleDb.table :=
  match devs with
  | [] => (Some acc, t)
  | _ :: rest =>
      match ScheduleDb.create d t with
      | (Some s, t') => create_each d rest t' (acc ++ [s])
      | (None, t') => (None, t')
      end
  end.

(** The single-device conflict check, line for line:
    [scheduleDb.hasConflict(scheduledTime, duration || 60000, userId)].
    The callee is [hasConflict(scheduledTime, duration, excludeId)], so
    the third argument, the caller's user id, arrives as [excludeId]. *)
Definition post_conflict_check (t u : Z) (b : scheduleBody)
    (tbl : ScheduleDb.table) : bool :=
  ScheduleDb.hasConflict t (Js.or_default (s_duration b) 60000) (Some u) tbl.

Definition schedule_post (u : Z) (b : scheduleBody) (st : state)
  : reply * state :=
  match s_imageUrl b, s_scheduledTime b with
  | Some imageUrl, Some t =>
    if negb (Js.truthy_str (s_imageUrl b))
    then (Error 400 "Content URL and scheduled time required", st)
    else if Js.truthy (s_groupId b) && s_uploadedFromGroup b then
      match getSelectionGroupWithDevices
              (match s_groupId b with Some g => g | None => 0 end) u st with
      | None => (Error 400 "Selection group not found or has no devices", st)
      | Some (_, []) => (Error 400 "No devices in selection group", st)
      | Some (_, groupDevices) =>
          match create_each (data_of_body imageUrl t b) groupDevices
                  (schedules st) [] with
          | (Some created, tbl) => (SuccessSchedules created, set_schedules tbl st)
          | (None, tbl) => (Error 500 "Failed to create schedule", set_schedules tbl st)
          end
      end
    else if post_conflict_check t u b (schedules st)
    then (Error 409 "Schedule conflict detected", st)
    else
      match ScheduleDb.create (data_of_body imageUrl t b) (schedules st) with
      | (Some s, tbl) => (SuccessSchedule s, set_schedules tbl st)
      | (None, tbl) => (Error 500 "Failed to create schedule", set_schedules tbl st)
      end
  | _, _ => (Error 400 "Content URL and scheduled time required", st)
  end.

(** *** PUT /api/schedule/:id *)

Record updateBody := mkUpdateBody
  { p_scheduledTime : option Z;
    p_duration : option Z;
    p_repeat : option repeat_class }.

(** The conflict check of an update, line for line:
    [scheduleDb.hasConflict(scheduledTime, duration, userId, id)].
    The callee has three parameters: the user id arrives as [excludeId]
    and the fourth argument, the schedule id, is dropped. *)
Definition put_conflict_check (u i : Z) (b : updateBody)
    (tbl : ScheduleDb.table) : option bool :=
  ScheduleDb.hasConflict_call (p_scheduledTime b) (p_duration b) (Some u) tbl.

(** [scheduleDb.update(id, userId, {...})] against
    [update(id, updates)]: [updates] is bound to the user id, whose
    [scheduledTime], [duration] and [repeat] properties are all
    [undefined]; the object with the requested changes is dropped. *)
Definition put_update (i u : Z) (b : updateBody) (tbl : ScheduleDb.table)
  : option schedule * ScheduleDb.table :=
  ScheduleDb.update i (mkUpdates None None None) tbl.

Definition schedule_put (now u i : Z) (b : updateBody) (st : state)
  : reply * state * list emission :=
  let verdict :=
    if (match p_scheduledTime b with Some _ => true | None => false end)
       || Js.truthy (p_duration b)
    then put_conflict_check u i b (schedules st)
    else Some false in
  match verdict with
  | None => (Error 500 "Failed to update schedule", st, [])
  | Some true => (Error 409 "Schedule conflict detected", st, [])
  | Some false =>
      match put_update i u b (schedules st) with
      | (None, tbl) => (Error 404 "Schedule not found", set_schedules tbl st, [])
      | (Some s, tbl) =>
          if (scheduled_time s <=? now) && is_pending s
          then
            (SuccessSchedule s,
             set_schedules (snd (updateStatus (id s) completed tbl)) st,
             emit_where (owned_by u)
               (DisplayContent (content_of_schedule now s))
               (connectedDisplays st))
          else (SuccessSchedule s, set_schedules tbl st, [])
      end
  end.

(** *** DELETE /api/schedule/:id *)

(** [scheduleDb.delete(id, userId)] against [delete(id)].  With the
    row go the references to it in [display_history]. *)
Definition schedule_delete (now u i : Z) (st : state)
  : reply * state * list emission :=
  match ScheduleDb.delete i (schedules st) with
  | (None, tbl) => (Error 404 "Schedule not found", set_schedules tbl st, [])
  | (Some s, tbl) =>
      let isActiveNow :=
        (scheduled_time s <=? now) && (now <=? scheduled_time s + duration s) in
      (Success,
       set_schedules tbl
         (set_history (DisplayDb.unlink i (display_history st)) st),
       if isActiveNow
       then emit_where (owned_by u) ClearContent (connectedDisplays st)
       else [])
  end.

(** *** The schedule checker ([setInterval], every 10 seconds) *)

(** [new Set(Array.from(connectedDisplays.values()).map(d => d.userId))]:
    a [Set] keeps the first occurrence of each value, in order. *)
Definition Set_add (acc : list Z) (x : Z) : list Z :=
  if existsb (Z.eqb x) acc then acc else acc ++ [x].

Definition activeUserIds (m : Registry.t) : list Z :=
  fold_left Set_add (map Registry.userId (Registry.values m)) [].

(** "Handle repeat schedules": the [if]/[switch] at the end of the loop
    body. *)
Definition nextTime (s : schedule) : option Z :=
  match repeat_type s with
  | once => None
  | daily => Some (scheduled_time s + 24 * 60 * 60 * 1000)
  | weekly => Some (scheduled_time s + 7 * 24 * 60 * 60 * 1000)
  | monthly => Some (scheduled_time s + 30 * 24 * 60 * 60 * 1000)
  | yearly => Some (scheduled_time s + 365 * 24 * 60 * 60 * 1000)
  end.

Definition repeat_bookkeeping (s : schedule) (tbl : ScheduleDb.table)
  : ScheduleDb.table :=
  match repeat_type s with
  | once => snd (updateStatus (id s) completed tbl)
  | _ =>
      match nextTime s with
      | Some n => snd (reschedule (id s) n tbl)
      | None => tbl
      end
  end.

(** One turn of the inner loop: push to the displays of [u], log the
    display, then the repeat bookkeeping. *)
Definition fire (now u : Z) (acc : state * list emission) (s : schedule)
  : state * list emission :=
  let (st, out) := acc in
  let sent := emit_where (owned_by u)
                (DisplayContent (content_of_schedule now s))
                (connectedDisplays st) in
  let h := snd (DisplayDb.create (image_url s) now (duration s)
                  (Some (Js.or_default (Some (rotation s)) 0))
                  (Some (mirror s)) (Some (id s)) (schedules st)
                  (display_history st)) in
  (set_schedules (repeat_bookkeeping s (schedules st)) (set_history h st),
   out ++ sent).

(** The fetch of the outer loop, [scheduleDb.getPending(userId)]: the
    callee is [getPending()], so the argument is dropped. *)
Definition pendingSchedules_for (u now : Z) (tbl : ScheduleDb.table)
  : list schedule :=
  ScheduleDb.getPending now tbl.

(** One turn of the outer loop, for one active user. *)
Definition sweep_user (now : Z) (acc : state * list emission) (u : Z)
  : state * list emission :=
  fold_left (fire now u) (pendingSchedules_for u now (schedules (fst acc))) acc.

(** The expiry of the legacy singleton at the end of the callback. *)
Definition expire_current (now : Z) (st : state) : state :=
  match currentContent st with
  | Some c => if clearAt c <=? now then clear_current st else st
  | None => st
  end.

Definition sweep (now : Z) (st : state) : state * list emission :=
  let (st', out) :=
    fold_left (sweep_user now) (activeUserIds (connectedDisplays st)) (st, []) in
  (expire_current now st', out).

(** *** The [register-display] and [disconnect] socket handlers *)

Record registerData := mkRegister
  { r_serialNumber : option string;
    r_name : option string;
    r_timezone : option string }.

(** [devicePairing.getDeviceBySerial]. *)
Definition getDeviceBySerial (serial : string) (st : state) : option device :=
  find (fun d => String.eqb (serial_number d) serial) (displays st).

(** [devicePairing.updateDeviceTimezone]. *)
Definition updateDeviceTimezone (i : Z) (tz : string) (st : state) : state :=
  set_displays
    (map (fun d => if dev_id d =? i
                   then mkDevice (dev_id d) (serial_number d) (user_id d)
                          (is_paired d) (device_name d) (Some tz)
                   else d)
         (displays st))
    st.

(** The layout query: [WHERE device_id = $1 AND user_id = $2 AND
    is_active = TRUE LIMIT 1]. *)
Definition activeLayout (d u : Z) (st : state) : option layout :=
  find (fun l => (l_device_id l =? d) && (l_user_id l =? u) && is_active l)
       (layouts st).

(** The media lookup made for each zone of the layout. *)
Definition zone_with_media (u : Z) (st : state) (z : zone) : zone :=
  if Js.truthy (contentId z) then
    match find (fun m => (match contentId z with
                          | Some c => up_id m =? c
                          | None => false
                          end) && (up_user_id m =? u))
               (upload_history st) with
    | Some m => mkZone (contentId z) (Some (up_image_url m))
                  (Some (media_type m)) (up_thumbnail_url m)
    | None => z
    end
  else z.

(** The fetch of the replay branch,
    [scheduleDb.getPending(device.user_id, device.id)], against
    [getPending()]: both arguments are dropped. *)
Definition deviceSchedules_for (u d now : Z) (tbl : ScheduleDb.table)
  : list schedule :=
  ScheduleDb.getPending now tbl.

Definition register_display (now : Z) (socket : string) (data : registerData)
    (st : state) : state * list emission :=
  match r_serialNumber data with
  | None => (st, [])
  | Some serialNumber =>
    if negb (Js.truthy_str (r_serialNumber data)) then (st, [])
    else
      match getDeviceBySerial serialNumber st with
      | None => (st, [])
      | Some device =>
        match user_id device with
        | None => (st, [])
        | Some owner =>
          if negb (is_paired device) || negb (Js.truthy (user_id device))
          then (st, [])
          else
            let st1 := match r_timezone data with
                       | Some tz => if Js.truthy_str (r_timezone data)
                                    then updateDeviceTimezone (dev_id device) tz st
                                    else st
                       | None => st
                       end in
            let info :=
              Registry.mkInfo socket owner (dev_id device)
                (or_str (device_name device) (or_str (r_name data) "Display"))
                (or_str (r_timezone data) (or_str (device_timezone device) "UTC"))
                now in
            let st2 := set_registry
                         (Registry.set serialNumber info (connectedDisplays st1))
                         st1 in
            match activeLayout (dev_id device) owner st2 with
            | Some l =>
                (st2,
                 [(socket,
                   DisplayLayout
                     (mkLayoutPayload (layout_id l) (layout_name l)
                        (template_id l)
                        (map (zone_with_media owner st2) (zones l))))])
            | None =>
                match deviceSchedules_for owner (dev_id device) now
                        (schedules st2) with
                | s :: _ =>
                    (st2, [(socket, DisplayContent (replay_content now s))])
                | [] => (st2, [])
                end
            end
        end
      end
  end.

Definition disconnect (socket : string) (st : state) : state :=
  set_registry (Registry.disconnect socket (connectedDisplays st)) st.

End Server.

(** ** database.js: the persisted current display *)

Module CurrentDisplayDb.

(** The row of [current_display]; CHECK (id = 1) leaves room for one. *)
Record row := mkRow
  { image_url : string;
    displayed_at : Z;
    duration : Z;
    clear_at : Z;
    rotation : Z;
    mirror : bool }.

Definition table := option row.

Definition empty : table := None.

(** The object handed to [set]. *)
Record displayData := mkData
  { imageUrl : string;
    displayedAt : Z;
    d_duration : Z;
    clearAt : Z;
    d_rotation : option Z;
    d_mirror : option bool }.

Definition int4 (x : Z) : bool := (- 2147483648 <=? x) && (x <=? 2147483647).

(** [set]: INSERT ... ON CONFLICT (id) DO UPDATE ... RETURNING *.  The
    URL goes through its VARCHAR(500) column, duration and rotation
    through their INTEGER columns; [None] is a rejected statement, and
    the table is then as before. *)
Definition set (d : displayData) (t : table) : option row * table :=
  match Pg.varchar 500 (imageUrl d) with
  | Some url =>
      let r := mkRow url (displayedAt d) (d_duration d) (clearAt d)
                 (Js.or_default (d_rotation d) 0)
                 (match d_mirror d with Some b => b | None => false end) in
      if int4 (duration r) && int4 (rotation r)
      then (Some r, Some r) else (None, t)
  | None => (None, t)
  end.

(** [get]: [result.rows[0] || null]. *)
Definition get (t : table) : option row := t.

(** [clear]: DELETE ... RETURNING *. *)
Definition clear (t : table) : option row * table := (t, None).

(** [isExpired]: [true] without a row, else [new Date() >= clear_at]. *)
Definition isExpired (now : Z) (t : table) : bool :=
  match t with
  | None => true
  | Some r => clear_at r <=? now
  end.

End CurrentDisplayDb.

(** ** database.js: tracking of connected displays *)

Module DisplayTrackingDb.

(** The values admitted by the CHECK constraint on [status]. *)
Inductive presence := online | offline.

Definition presence_eqb (a b : presence) : bool :=
  match a, b with
  | online, online | offline, offline => true
  | _, _ => false
  end.

(** A row of [displays], with the columns [database.js] writes or tests. *)
Record display := mkDisplay
  { socket_id : string;
    display_name : option string;
    status : presence;
    last_seen : Z }.

Definition table := list display.

Definition empty : table := [].

Definition seen (now : Z) (s : presence) (r : display) : display :=
  mkDisplay (socket_id r) (display_name r) s now.

(** The display name as the VARCHAR(100) column takes it. *)
Definition stored_name (displayName : option string) : option (option string) :=
  match displayName with
  | Some n => option_map Some (Pg.varchar 100 n)
  | None => Some None
  end.

(** [register]: INSERT ... ON CONFLICT (socket_id) DO UPDATE SET
    status = 'online', last_seen = NOW() RETURNING *.  Both values go
    through their VARCHAR(100) columns first; [None] is a rejected
    statement.  The row of a known socket keeps its name. *)
Definition register (now : Z) (socketId : string) (displayName : option string)
    (t : table) : option display * table :=
  match Pg.varchar 100 socketId, stored_name displayName with
  | Some socket, Some name =>
      match find (fun r => String.eqb (socket_id r) socket) t with
      | Some old =>
          (Some (seen now online old),
           map (fun r => if String.eqb (socket_id r) socket
                         then seen now online r else r) t)
      | None =>
          let r := mkDisplay socket name online now in
          (Some r, t ++ [r])
      end
  | _, _ => (None, t)
  end.

(** [updateStatus]: UPDATE ... WHERE socket_id = $2 RETURNING *. *)
Definition updateStatus (now : Z) (socketId : string) (s : presence)
    (t : table) : option display * table :=
  let t' := map (fun r => if String.eqb (socket_id r) socketId
                          then seen now s r else r) t in
  (find (fun r => String.eqb (socket_id r) socketId) t', t').

(** [getActive]: online and seen within the last five minutes.  The
    query has no ORDER BY: the order of the list is the table's here,
    and nothing is made to depend on it. *)
Definition getActive (now : Z) (t : table) : list display :=
  filter (fun r => presence_eqb (status r) online
                   && (now - 5 * 60 * 1000 <? last_seen r)) t.

End DisplayTrackingDb.

(** ** database.js: reading the display history *)

Module DisplayHistory.

Import DisplayDb.

(** ORDER BY displayed_at DESC, as an insertion sort; SQL leaves the
    order of rows with equal instants open. *)
Fixpoint insert_by_recency (r : display) (l : list display) : list display :=
  match l with
  | [] => [r]
  | x :: rest =>
      if displayed_at x <=? displayed_at r
      then r :: x :: rest
      else x :: insert_by_recency r rest
  end.

Definition order_by_recency (l : list display) : list display :=
  fold_right insert_by_recency [] l.

(** [displayDb.getRecent(limit = 100)]: ... LIMIT $1.  A negative limit
    is refused by the database and the promise rejects ([None]). *)
Definition getRecent (limit : option Z) (t : table) : option (list display) :=
  let n := match limit with Some v => v | None => 100 end in
  if n <? 0 then None
  else Some (firstn (Z.to_nat n) (order_by_recency (rows t))).

End DisplayHistory.

(** ** The database-backed single-tenant server that preceded it *)

Module LegacyServer.

Import ScheduleDb.

(** Its POST /api/schedule: the conflict check is
    [scheduleDb.hasConflict(scheduledTime, duration || 60000)], then
    [scheduleDb.create] with the same defaults.  [skew] is the one of
    [ScheduleDb.hasConflict_sent] for the date-time text of the request:
    the instant of the body is the one its digits give on the axis of
    the column. *)
Definition schedule_post (skew : Z) (b : Server.scheduleBody) (tbl : table)
  : Server.reply * table :=
  match Server.s_imageUrl b, Server.s_scheduledTime b with
  | Some imageUrl, Some t =>
      if negb (Js.truthy_str (Server.s_imageUrl b))
      then (Server.Error 400 "Image URL and scheduled time required", tbl)
      else if hasConflict_sent skew t
                (Js.or_default (Server.s_duration b) 60000) None tbl
      then (Server.Error 409 "Schedule conflict detected", tbl)
      else
        match create (Server.data_of_body imageUrl t b) tbl with
        | (Some s, tbl') => (Server.SuccessSchedule s, tbl')
        | (None, tbl') => (Server.Error 500 "Failed to create schedule", tbl')
        end
  | _, _ => (Server.Error 400 "Image URL and scheduled time required", tbl)
  end.

(** The conflict check of its PUT /api/schedule/:id:
    [scheduleDb.hasConflict(scheduledTime, duration, id)]. *)
Definition put_conflict_check (skew i : Z) (b : Server.updateBody)
    (tbl : table) : option bool :=
  hasConflict_call_sent skew (Server.p_scheduledTime b) (Server.p_duration b)
    (Some i) tbl.

(** *** The rest of that server: its state and its other handlers *)

Record state := mkState
  { schedules : table;
    display_history : DisplayDb.table;
    current_display : CurrentDisplayDb.table;
    displays : DisplayTrackingDb.table;
    currentContent : option Server.content }.

(** [io.emit(...)] reaches every connected socket, [socket.emit(...)]
    the one of the handler. *)
Inductive target := Everyone | Socket (s : string).

Definition emission := (target * Server.payload)%type.

(** The message of that server: it has no [thumbnailUrl] and no [muted]
    property. *)
Definition content_of (url : string) (rotation_ : Z) (mirror_ : bool)
    (duration_ displayedAt_ : Z) : Server.content :=
  Server.mkContent "image" url rotation_ mirror_ duration_ displayedAt_
    (displayedAt_ + duration_) None None.

(** Start of the process: [currentContent] is [null]; then the saved
    display is restored unless it has expired, in which case its row is
    deleted. *)
Definition restart (now : Z) (st : state) : state :=
  match CurrentDisplayDb.get (current_display st) with
  | Some savedDisplay =>
      if now <? CurrentDisplayDb.clear_at savedDisplay
      then mkState (schedules st) (display_history st) (current_display st)
             (displays st)
             (Some (Server.mkContent "image"
                      (CurrentDisplayDb.image_url savedDisplay)
                      (CurrentDisplayDb.rotation savedDisplay)
                      (CurrentDisplayDb.mirror savedDisplay)
                      (CurrentDisplayDb.duration savedDisplay)
                      (CurrentDisplayDb.displayed_at savedDisplay)
                      (CurrentDisplayDb.clear_at savedDisplay) None None))
      else mkState (schedules st) (display_history st)
             (snd (CurrentDisplayDb.clear (current_display st)))
             (displays st) None
  | None =>
      mkState (schedules st) (display_history st) (current_display st)
        (displays st) None
  end.

(** The [register-display] and [disconnect] socket handlers. *)
Definition register_display (now : Z) (socket : string) (name : option string)
    (st : state) : state * list emission :=
  match DisplayTrackingDb.register now socket
          (Some (Server.or_str name "Display")) (displays st) with
  | (Some _, d) =>
      (mkState (schedules st) (display_history st) (current_display st) d
         (currentContent st),
       match currentContent st with
       | Some c => [(Socket socket, Server.DisplayContent c)]
       | None => []
       end)
  | (None, d) =>
      (mkState (schedules st) (display_history st) (current_display st) d
         (currentContent st), [])
  end.

Definition disconnect (now : Z) (socket : string) (st : state) : state :=
  mkState (schedules st) (display_history st) (current_display st)
    (snd (DisplayTrackingDb.updateStatus now socket DisplayTrackingDb.offline
            (displays st)))
    (currentContent st).

(** POST /api/display-now. *)
Record displayNowBody := mkDisplayNow
  { n_imageUrl : option string;
    n_rotation : option Z;
    n_mirror : option bool;
    n_duration : option Z }.

Definition display_now (now : Z) (b : displayNowBody) (st : state)
  : Server.reply * state * list emission :=
  match n_imageUrl b with
  | None => (Server.Error 400 "Image URL required", st, [])
  | Some imageUrl =>
    if negb (Js.truthy_str (n_imageUrl b))
    then (Server.Error 400 "Image URL required", st, [])
    else
      let displayDuration := Js.or_default (n_duration b) 60000 in
      let c := content_of imageUrl (Js.or_default (n_rotation b) 0)
                 (Server.or_bool (n_mirror b)) displayDuration now in
      let cd := snd (CurrentDisplayDb.set
                       (CurrentDisplayDb.mkData imageUrl now displayDuration
                          (Server.clearAt c)
                          (Some (Js.or_default (n_rotation b) 0))
                          (Some (Server.or_bool (n_mirror b))))
                       (current_display st)) in
      let h := snd (DisplayDb.create imageUrl now displayDuration
                      (Some (Js.or_default (n_rotation b) 0))
                      (Some (Server.or_bool (n_mirror b))) None
                      (schedules st) (display_history st)) in
      (Server.Success,
       mkState (schedules st) h cd (displays st) (Some c),
       [(Everyone, Server.DisplayContent c)])
  end.

(** PUT /api/schedule/:id: the check above, then
    [scheduleDb.update(id, { scheduledTime, duration, repeat })]; a
    rejected check or UPDATE lands in the [catch]. *)
Definition schedule_put (skew i : Z) (b : Server.updateBody) (tbl : table)
  : Server.reply * table :=
  let verdict :=
    if (match Server.p_scheduledTime b with Some _ => true | None => false end)
       || Js.truthy (Server.p_duration b)
    then put_conflict_check skew i b tbl
    else Some false in
  match verdict with
  | None => (Server.Error 500 "Failed to update schedule", tbl)
  | Some true => (Server.Error 409 "Schedule conflict detected", tbl)
  | Some false =>
      match update_call i
              (mkUpdates (Server.p_scheduledTime b) (Server.p_duration b)
                 (Server.p_repeat b)) tbl with
      | None => (Server.Error 500 "Failed to update schedule", tbl)
      | Some (None, tbl') => (Server.Error 404 "Schedule not found", tbl')
      | Some (Some s, tbl') => (Server.SuccessSchedule s, tbl')
      end
  end.

(** DELETE /api/schedule/:id, on the table of the schedules. *)
Definition schedule_delete (i : Z) (tbl : table) : Server.reply * table :=
  match delete i tbl with
  | (None, tbl') => (Server.Error 404 "Schedule not found", tbl')
  | (Some _, tbl') => (Server.Success, tbl')
  end.

(** The schedule checker.  One turn of its loop: the entry becomes the
    current content, is saved, broadcast and logged; then the repeat
    bookkeeping, which is the code the later server kept. *)
Definition fire (now : Z) (acc : state * list emission) (s : schedule)
  : state * list emission :=
  let (st, out) := acc in
  let c := content_of (image_url s) (Js.or_default (Some (rotation s)) 0)
             (mirror s) (duration s) now in
  let cd := snd (CurrentDisplayDb.set
                   (CurrentDisplayDb.mkData (image_url s) now (duration s)
                      (Server.clearAt c)
                      (Some (Js.or_default (Some (rotation s)) 0))
                      (Some (mirror s)))
                   (current_display st)) in
  let h := snd (DisplayDb.create (image_url s) now (duration s)
                  (Some (Js.or_default (Some (rotation s)) 0))
                  (Some (mirror s)) (Some (id s)) (schedules st)
                  (display_history st)) in
  (mkState (Server.repeat_bookkeeping s (schedules st)) h cd (displays st)
     (Some c),
   out ++ [(Everyone, Server.DisplayContent c)]).

(** The expiry at the end of the callback. *)
Definition expire (now : Z) (acc : state * list emission)
  : state * list emission :=
  let (st, out) := acc in
  match currentContent st with
  | Some c =>
      if Server.clearAt c <=? now
      then (mkState (schedules st) (display_history st)
              (snd (CurrentDisplayDb.clear (current_display st)))
              (displays st) None,
            out ++ [(Everyone, Server.ClearContent)])
      else (st, out)
  | None => (st, out)
  end.

Definition sweep (now : Z) (st : state) : state * list emission :=
  expire now (fold_left (fire now) (getPending now (schedules st)) (st, [])).

End LegacyServer.

(** ** The first server, which keeps its schedules in memory *)

Module InMemoryServer.

(** An element of the [schedules] array.  [repeat] is whatever word the
    request carried: nothing validates it. *)
Record entry := mkEntry
  { id : string;
    imageUrl : string;
    scheduledTime : Z;
    duration : Z;
    repeat : string;
    rotation : Z;
    mirror : bool;
    status : ScheduleDb.lifecycle }.

(** The properties of an element that [hasConflict] reads. *)
Definition checked (e : entry) : InMemory.schedule :=
  InMemory.mkSchedule (id e) (scheduledTime e) (Some (duration e)) (status e).

(** The body of a schedule request.  [s_scheduledTime] is the instant
    that the date-time text of the request denotes. *)
Record scheduleBody := mkScheduleBody
  { s_imageUrl : option string;
    s_scheduledTime : option Z;
    s_duration : option Z;
    s_repeat : option string;
    s_rotation : option Z;
    s_mirror : option bool }.

Record updateBody := mkUpdateBody
  { p_scheduledTime : option Z;
    p_duration : option Z;
    p_repeat : option string }.

Inductive reply :=
| Error (status : Z) (error : string)
| Success
| SuccessSchedule (e : entry).

(** [Date.now().toString()]. *)
Definition fresh_id (now : Z) : string :=
  NilEmpty.string_of_int (Z.to_int now).

(** POST /api/schedule. *)
Definition schedule_post (now : Z) (b : scheduleBody) (schedules : list entry)
  : reply * list entry :=
  match s_imageUrl b, s_scheduledTime b with
  | Some url, Some t =>
      if negb (Js.truthy_str (s_imageUrl b))
      then (Error 400 "Image URL and scheduled time required", schedules)
      else
        let schedule :=
          mkEntry (fresh_id now) url t
            (Js.or_default (s_duration b) 60000)
            (Server.or_str (s_repeat b) "once")
            (Js.or_default (s_rotation b) 0)
            (Server.or_bool (s_mirror b))
            ScheduleDb.pending in
        if InMemory.hasConflict (checked schedule) (map checked schedules) None
        then (Error 409 "Schedule conflict detected", schedules)
        else (SuccessSchedule schedule, schedules ++ [schedule])
  | _, _ => (Error 400 "Image URL and scheduled time required", schedules)
  end.

(** [schedules.find(s => s.id === id)], and the assignment to the
    properties of the element found. *)
Definition find_by_id (i : string) (schedules : list entry) : option entry :=
  find (fun s => String.eqb (id s) i) schedules.

Fixpoint assign (i : string) (e' : entry) (schedules : list entry)
  : list entry :=
  match schedules with
  | [] => []
  | s :: rest =>
      if String.eqb (id s) i then e' :: rest else s :: assign i e' rest
  end.

(** PUT /api/schedule/:id. *)
Definition schedule_put (i : string) (b : updateBody) (schedules : list entry)
  : reply * list entry :=
  match find_by_id i schedules with
  | None => (Error 404 "Schedule not found", schedules)
  | Some schedule =>
      let updatedSchedule :=
        mkEntry (id schedule) (imageUrl schedule)
          (match p_scheduledTime b with
           | Some t => t
           | None => scheduledTime schedule
           end)
          (Js.or_default (p_duration b) (duration schedule))
          (Server.or_str (p_repeat b) (repeat schedule))
          (rotation schedule) (mirror schedule) (status schedule) in
      if InMemory.hasConflict (checked updatedSchedule) (map checked schedules)
           (Some i)
      then (Error 409 "Schedule conflict detected", schedules)
      else (SuccessSchedule updatedSchedule, assign i updatedSchedule schedules)
  end.

(** [schedules.splice(index, 1)] at the first element with the id. *)
Fixpoint remove_first (i : string) (schedules : list entry) : list entry :=
  match schedules with
  | [] => []
  | s :: rest =>
      if String.eqb (id s) i then rest else s :: remove_first i rest
  end.

(** DELETE /api/schedule/:id. *)
Definition schedule_delete (i : string) (schedules : list entry)
  : reply * list entry :=
  match find_by_id i schedules with
  | None => (Error 404 "Schedule not found", schedules)
  | Some _ => (Success, remove_first i schedules)
  end.

(** The message of this server: it carries no [clearAt]. *)
Record content := mkContent
  { c_url : string;
    c_duration : Z;
    c_rotation : Z;
    c_mirror : bool;
    c_displayedAt : Z }.

Definition content_of (now : Z) (schedule : entry) : content :=
  mkContent (imageUrl schedule) (duration schedule)
    (Js.or_default (Some (rotation schedule)) 0) (mirror schedule) now.

(** The [if]/[else if] chain on [schedule.repeat] after a display. *)
Definition after_display (schedule : entry) : entry :=
  let at_ t := mkEntry (id schedule) (imageUrl schedule) t (duration schedule)
                 (repeat schedule) (rotation schedule) (mirror schedule)
                 (status schedule) in
  if String.eqb (repeat schedule) "once"
  then mkEntry (id schedule) (imageUrl schedule) (scheduledTime schedule)
         (duration schedule) (repeat schedule) (rotation schedule)
         (mirror schedule) ScheduleDb.completed
  else if String.eqb (repeat schedule) "daily"
  then at_ (scheduledTime schedule + 24 * 60 * 60 * 1000)
  else if String.eqb (repeat schedule) "weekly"
  then at_ (scheduledTime schedule + 7 * 24 * 60 * 60 * 1000)
  else if String.eqb (repeat schedule) "monthly"
  then at_ (scheduledTime schedule + 30 * 24 * 60 * 60 * 1000)
  else if String.eqb (repeat schedule) "yearly"
  then at_ (scheduledTime schedule + 365 * 24 * 60 * 60 * 1000)
  else schedule.

Definition is_due (now : Z) (schedule : entry) : bool :=
  ScheduleDb.lifecycle_eqb (status schedule) ScheduleDb.pending
  && (scheduledTime schedule <=? now).

(** The schedule checker: [schedules.forEach(...)], in array order.  The
    accumulator holds the elements already visited, [currentContent]
    and the broadcasts made. *)
Definition visit (now : Z)
    (acc : list entry * option content * list content) (schedule : entry)
  : list entry * option content * list content :=
  let '(visited, current, out) := acc in
  if is_due now schedule
  then (visited ++ [after_display schedule],
        Some (content_of now schedule),
        out ++ [content_of now schedule])
  else (visited ++ [schedule], current, out).

Definition sweep (now : Z) (schedules : list entry) (currentContent : option content)
  : list entry * option content * list content :=
  fold_left (visit now) schedules ([], currentContent, []).

End InMemoryServer.

(** ** liveSessionDb.js: ending a live session *)

Module LiveSessionDb.

Inductive session_status := active | ended.

Record live_session := mkSession
  { ls_id : Z;
    ls_user_id : Z;
    title : string;
    emergency : bool;
    ls_status : session_status;
    ended_at : option Z }.

Record viewer := mkViewer
  { v_session_id : Z;
    display_id : Z;
    joined_at : Z;
    left_at : option Z }.

Record event := mkEvent
  { e_session_id : Z;
    event_type : string;
    event_data : option string }.

Record store := mkStore
  { live_sessions : list live_session;
    live_session_viewers : list viewer;
    live_session_events : list event }.

(** *** A client transaction

    Statements run against a working copy of the store and may be
    refused by the database; [COMMIT] installs the working copy,
    [ROLLBACK] drops it. *)

Definition tx (A : Type) : Type := store -> (A + string) * store.

Definition ret {A} (a : A) : tx A := fun s => (inl a, s).

Definition throw {A} (message : string) : tx A := fun s => (inr message, s).

Definition bind {A B} (m : tx A) (k : A -> tx B) : tx B :=
  fun s =>
    match m s with
    | (inl a, s') => k a s'
    | (inr e, s') => (inr e, s')
    end.

Notation "x <- m ;; k" := (bind m (fun x => k))
  (at level 61, m at next level, right associativity).

(** [client.query(...)]: [fails] says whether the database refuses
    this statement. *)
Definition query {A} (fails : bool) (stmt : store -> A * store) : tx A :=
  fun s =>
    if fails then (inr "query failed"%string, s)
    else let (a, s') := stmt s in (inl a, s').

Inductive outcome (A : Type) :=
| Resolved (a : A)
| Rejected (message : string).
Arguments Resolved {A} a.
Arguments Rejected {A} message.

(** [BEGIN; try { body; COMMIT; return } catch { ROLLBACK; throw }]. *)
Definition transaction {A} (begin_fails commit_fails : bool) (body : tx A)
    (db : store) : outcome A * store :=
  match (_ <- query begin_fails (fun s => (tt, s)) ;;
         a <- body ;;
         _ <- query commit_fails (fun s => (tt, s)) ;;
         ret a) db with
  | (inl a, db') => (Resolved a, db')
  | (inr e, _) => (Rejected e, db)
  end.

(** *** The three statements of [endSession] *)

Definition is_active (s : live_session) : bool :=
  match ls_status s with active => true | ended => false end.

Definition end_row (now : Z) (s : live_session) : live_session :=
  mkSession (ls_id s) (ls_user_id s) (title s) (emergency s) ended (Some now).

(** UPDATE live_sessions SET ended_at = NOW(), status = 'ended'
    WHERE id = $1 AND status = 'active' RETURNING *. *)
Definition update_session (now sessionId : Z) (db : store)
  : list live_session * store :=
  let hit s := (ls_id s =? sessionId) && is_active s in
  (map (end_row now) (filter hit (live_sessions db)),
   mkStore (map (fun s => if hit s then end_row now s else s) (live_sessions db))
     (live_session_viewers db) (live_session_events db)).

Definition is_open (sessionId : Z) (v : viewer) : bool :=
  (v_session_id v =? sessionId)
  && (match left_at v with None => true | Some _ => false end).

Definition leave (now : Z) (v : viewer) : viewer :=
  mkViewer (v_session_id v) (display_id v) (joined_at v) (Some now).

(** UPDATE live_session_viewers SET left_at = NOW()
    WHERE session_id = $1 AND left_at IS NULL. *)
Definition update_viewers (now sessionId : Z) (db : store) : unit * store :=
  (tt,
   mkStore (live_sessions db)
     (map (fun v => if is_open sessionId v then leave now v else v)
          (live_session_viewers db))
     (live_session_events db)).

(** INSERT INTO live_session_events (session_id, event_type)
    VALUES ($1, 'ended'). *)
Definition insert_ended_event (sessionId : Z) (db : store) : unit * store :=
  (tt,
   mkStore (live_sessions db) (live_session_viewers db)
     (live_session_events db ++ [mkEvent sessionId "ended" None])).

(** Which statements of one call the database refuses. *)
Record faults := mkFaults
  { begin_fails : bool;
    update_session_fails : bool;
    update_viewers_fails : bool;
    insert_event_fails : bool;
    commit_fails : bool }.

Definition no_faults : faults := mkFaults false false false false false.

(** [endSession(sessionId)]. *)
Definition endSession (now sessionId : Z) (f : faults) (db : store)
  : outcome live_session * store :=
  transaction (begin_fails f) (commit_fails f)
    (rows <- query (update_session_fails f) (update_session now sessionId) ;;
     match rows with
     | [] => throw "Session not found or already ended"
     | row :: _ =>
         _ <- query (update_viewers_fails f) (update_viewers now sessionId) ;;
         _ <- query (insert_event_fails f) (insert_ended_event sessionId) ;;
         ret row
     end)
    db.

End LiveSessionDb.

(** ** liveSessionDb.js: viewers joining and leaving *)

Module LiveViewerDb.

(** The columns of [live_sessions] that [addViewer] and [removeViewer]
    write. *)
Record session := mkSession
  { s_id : Z;
    viewer_count : Z;
    peak_viewer_count : Z }.

(** A row of [live_session_events] written by the two functions;
    [event_data] is the JSON text of [{ displayId, viewerCount }]. *)
Record event := mkEvent
  { e_session_id : Z;
    event_type : string;
    e_displayId : Z;
    e_viewerCount : Z }.

Record store := mkStore
  { live_sessions : list session;
    live_session_viewers : list LiveSessionDb.viewer;
    live_session_events : list event }.

(** The client transaction, as for [endSession], over this store. *)
Definition tx (A : Type) : Type := store -> (A + string) * store.

Definition ret {A} (a : A) : tx A := fun s => (inl a, s).

Definition bind {A B} (m : tx A) (k : A -> tx B) : tx B :=
  fun s =>
    match m s with
    | (inl a, s') => k a s'
    | (inr e, s') => (inr e, s')
    end.

Notation "x <- m ;; k" := (bind m (fun x => k))
  (at level 61, m at next level, right associativity).

Definition query {A} (fails : bool) (stmt : store -> A * store) : tx A :=
  fun s =>
    if fails then (inr "query failed"%string, s)
    else let (a, s') := stmt s in (inl a, s').

Definition transaction {A} (begin_fails commit_fails : bool) (body : tx A)
    (db : store) : LiveSessionDb.outcome A * store :=
  match (_ <- query begin_fails (fun s => (tt, s)) ;;
         a <- body ;;
         _ <- query commit_fails (fun s => (tt, s)) ;;
         ret a) db with
  | (inl a, db') => (LiveSessionDb.Resolved a, db')
  | (inr e, _) => (LiveSessionDb.Rejected e, db)
  end.

(** INSERT INTO live_session_viewers (session_id, display_id, joined_at)
    VALUES ($1, $2, NOW()) RETURNING *. *)
Definition insert_viewer (now sessionId displayId : Z) (db : store)
  : LiveSessionDb.viewer * store :=
  let v := LiveSessionDb.mkViewer sessionId displayId now None in
  (v, mkStore (live_sessions db) (live_session_viewers db ++ [v])
        (live_session_events db)).

(** UPDATE live_session_viewers SET left_at = NOW()
    WHERE session_id = $1 AND display_id = $2 AND left_at IS NULL. *)
Definition watching (sessionId displayId : Z) (v : LiveSessionDb.viewer) : bool :=
  LiveSessionDb.is_open sessionId v && (LiveSessionDb.display_id v =? displayId).

Definition close_viewer (now sessionId displayId : Z) (db : store)
  : unit * store :=
  (tt,
   mkStore (live_sessions db)
     (map (fun v => if watching sessionId displayId v
                    then LiveSessionDb.leave now v else v)
          (live_session_viewers db))
     (live_session_events db)).

(** SELECT COUNT( * ) FROM live_session_viewers
    WHERE session_id = $1 AND left_at IS NULL, through [parseInt]. *)
Definition count_open (sessionId : Z) (db : store) : Z :=
  Z.of_nat (List.length (filter (LiveSessionDb.is_open sessionId)
                           (live_session_viewers db))).

(** UPDATE live_sessions SET viewer_count = $1,
    peak_viewer_count = GREATEST(peak_viewer_count, $1) WHERE id = $2. *)
Definition set_count_and_peak (n sessionId : Z) (db : store) : unit * store :=
  (tt,
   mkStore (map (fun s => if s_id s =? sessionId
                          then mkSession (s_id s) n (Z.max (peak_viewer_count s) n)
                          else s)
                (live_sessions db))
     (live_session_viewers db) (live_session_events db)).

(** UPDATE live_sessions SET viewer_count = $1 WHERE id = $2. *)
Definition set_count (n sessionId : Z) (db : store) : unit * store :=
  (tt,
   mkStore (map (fun s => if s_id s =? sessionId
                          then mkSession (s_id s) n (peak_viewer_count s)
                          else s)
                (live_sessions db))
     (live_session_viewers db) (live_session_events db)).

Definition log_event (sessionId : Z) (type : string) (displayId n : Z)
    (db : store) : unit * store :=
  (tt,
   mkStore (live_sessions db) (live_session_viewers db)
     (live_session_events db ++ [mkEvent sessionId type displayId n])).

(** Which statements of one call the database refuses. *)
Record faults := mkFaults
  { begin_fails : bool;
    viewer_statement_fails : bool;
    count_fails : bool;
    update_session_fails : bool;
    insert_event_fails : bool;
    commit_fails : bool }.

Definition no_faults : faults := mkFaults false false false false false false.

(** [addViewer(sessionId, displayId)]: every statement goes through the
    transaction's client. *)
Definition addViewer (now sessionId displayId : Z) (f : faults) (db : store)
  : LiveSessionDb.outcome (LiveSessionDb.viewer * Z) * store :=
  transaction (begin_fails f) (commit_fails f)
    (viewer <- query (viewer_statement_fails f)
                 (insert_viewer now sessionId displayId) ;;
     currentCount <- query (count_fails f)
                       (fun s => (count_open sessionId s, s)) ;;
     _ <- query (update_session_fails f)
            (set_count_and_peak currentCount sessionId) ;;
     _ <- query (insert_event_fails f)
            (log_event sessionId "viewer_joined" displayId currentCount) ;;
     ret (viewer, currentCount))
    db.

(** [removeViewer(sessionId, displayId)]: the count is read with
    [pool.query], on another connection, which sees the rows as they
    were committed, that is as they were at BEGIN. *)
Definition removeViewer (now sessionId displayId : Z) (f : faults) (db : store)
  : LiveSessionDb.outcome Z * store :=
  transaction (begin_fails f) (commit_fails f)
    (_ <- query (viewer_statement_fails f)
            (close_viewer now sessionId displayId) ;;
     currentCount <- query (count_fails f)
                       (fun s => (count_open sessionId db, s)) ;;
     _ <- query (update_session_fails f) (set_count currentCount sessionId) ;;
     _ <- query (insert_event_fails f)
            (log_event sessionId "viewer_left" displayId currentCount) ;;
     ret currentCount)
    db.

End LiveViewerDb.

(* ===================================================================== *)
(** * Part II: vocabulary of the properties *)
(* ===================================================================== *)

(** ** Dayparts by the hour *)

Module DaypartSpec.

Import Daypart.

(** The window an hour of the day belongs to, read off the table:
    06-11, 11-16, 16-22, and 22-06 across midnight. *)
Definition window_of_hour (h : nat) : string :=
  if Nat.leb 6 h && Nat.ltb h 11 then "BREAKFAST"
  else if Nat.leb 11 h && Nat.ltb h 16 then "LUNCH"
  else if Nat.leb 16 h && Nat.ltb h 22 then "DINNER"
  else "LATE_NIGHT".

(** The entries of the table whose test succeeds at a clock reading. *)
Definition matching (hours minutes : nat) : list (string * daypart) :=
  filter (fun e => matches (currentTimeOf hours minutes) (fst e) (snd e))
         DAYPARTS.

Definition current_eqb (a b : current) : bool :=
  String.eqb (type a) (type b) && String.eqb (c_name a) (c_name b)
  && String.eqb (c_start a) (c_start b) && String.eqb (c_end a) (c_end b).

(** The check run at one clock reading: one entry matches, it is the
    window of the hour, and it is what [getCurrentDaypart] returns. *)
Definition reading_ok (hours minutes : nat) : bool :=
  match matching hours minutes with
  | [(key, d)] =>
      String.eqb key (window_of_hour hours)
      && current_eqb (getCurrentDaypart hours minutes)
           (mkCurrent key (name d) (start d) (end_ d))
  | _ => false
  end.

Definition all_readings_ok : bool :=
  forallb (fun h => forallb (reading_ok h) (seq 0 60)) (seq 0 24).

End DaypartSpec.

(** ** Windows *)

Module Windows.

(** Two windows [[s1, s1 + d1)] and [[s2, s2 + d2)] conflict when each
    starts strictly before the other ends. *)
Definition overlap (s1 d1 s2 d2 : Z) : Prop :=
  s1 < s2 + d2 /\ s2 < s1 + d1.

(** The two windows share an instant. *)
Definition intersect (s1 d1 s2 d2 : Z) : Prop :=
  exists x, (s1 <= x < s1 + d1) /\ (s2 <= x < s2 + d2).

(** A time of day, in milliseconds. *)
Definition clock (h m sec : Z) : Z := ((h * 60 + m) * 60 + sec) * 1000.


(** A row the database check of a candidate takes into account. *)
Definition considered (excludeId : option Z) (r : ScheduleDb.schedule) : Prop :=
  ScheduleDb.status r = ScheduleDb.pending
  /\ (forall x, excludeId = Some x -> ScheduleDb.id r <> x).



(** A pending row and a pending in-memory entry with a given window. *)
Definition db_entry (i start length : Z) : ScheduleDb.schedule :=
  ScheduleDb.mkSchedule i "content" start length ScheduleDb.once 0 false
    ScheduleDb.pending.


Definition db_with (r : ScheduleDb.schedule) : ScheduleDb.table :=
  ScheduleDb.mkTable [r] (ScheduleDb.id r + 1).

(** The skew of a date-time text ending in Z in a server process five
    hours west of UTC. *)
Definition five_hours_west : Z := - (5 * 60 * 60 * 1000).

(** Pending rows with distinct ids never share an instant. *)
Definition disjoint (t : ScheduleDb.table) : Prop :=
  forall r1 r2,
    In r1 (ScheduleDb.rows t) -> In r2 (ScheduleDb.rows t) ->
    ScheduleDb.id r1 <> ScheduleDb.id r2 ->
    ScheduleDb.status r1 = ScheduleDb.pending ->
    ScheduleDb.status r2 = ScheduleDb.pending ->
    ~ intersect (ScheduleDb.scheduled_time r1) (ScheduleDb.duration r1)
        (ScheduleDb.scheduled_time r2) (ScheduleDb.duration r2).

End Windows.

(** ** Sample values *)

Module Examples.

(** Two transport sessions of the same device. *)
Definition first_session : Registry.displayInfo :=
  Registry.mkInfo "socket-1" 1 10 "Lobby" "UTC" 0.

Definition second_session : Registry.displayInfo :=
  Registry.mkInfo "socket-2" 1 10 "Lobby" "UTC" 5000.

End Examples.

(** ** Ending a live session *)

Module LiveSpec.

Import LiveSessionDb.

(** The store holds an active session with this id. *)
Definition has_active (sessionId : Z) (db : store) : bool :=
  existsb (fun s => (ls_id s =? sessionId) && is_active s) (live_sessions db).

Definition any_fault (f : faults) : bool :=
  begin_fails f || update_session_fails f || update_viewers_fails f
  || insert_event_fails f || commit_fails f.

(** How a session row relates to itself after the session is ended. *)
Definition session_ended (now sessionId : Z) (s s' : live_session) : Prop :=
  if (ls_id s =? sessionId) && is_active s
  then ls_status s' = ended /\ ended_at s' = Some now
       /\ ls_id s' = ls_id s /\ ls_user_id s' = ls_user_id s
       /\ title s' = title s /\ emergency s' = emergency s
  else s' = s.

(** How a viewer row relates to itself after the session is ended. *)
Definition viewer_left (now sessionId : Z) (v v' : viewer) : Prop :=
  match left_at v with
  | None =>
      if v_session_id v =? sessionId
      then left_at v' = Some now /\ v_session_id v' = v_session_id v
           /\ display_id v' = display_id v /\ joined_at v' = joined_at v
      else v' = v
  | Some _ => v' = v
  end.

(** The message a failed call rejects with. *)
Definition rejection (sessionId : Z) (f : faults) (db : store) : string :=
  if begin_fails f || update_session_fails f then "query failed"
  else if has_active sessionId db then "query failed"
  else "Session not found or already ended".

End LiveSpec.

(** ** Dispatch *)

Module Dispatch.

Import Server.

(** The transport sessions an immediate-display request resolves to:
    [None] when the group lookup throws. *)
Definition resolved (u : Z) (b : displayNowBody) (st : state)
  : option (list string) :=
  match resolve_targets u b ClearContent st with
  | Some (sent, _) => Some (map fst sent)
  | None => None
  end.

(** A request naming no device and no group, for one image. *)
Definition show_everywhere : displayNowBody :=
  mkDisplayNow (Some "https://cdn.example/a.png"%string) None None None None
    None None None None None false.

(** A schedule request for one image at one instant, with the default
    duration, naming no device and no group. *)
Definition schedule_at (t : Z) : scheduleBody :=
  mkScheduleBody (Some "https://cdn.example/a.png"%string) (Some t) None None
    None None None None false.

(** A server whose only paired device, serial "A", belongs to user 1. *)
Definition one_device : state :=
  set_displays [mkDevice 10 "A" (Some 1) true (Some "Lobby"%string) None] initial.

Definition hello (serial : string) : registerData :=
  mkRegister (Some serial) None None.

End Dispatch.

(** ** The life of a schedule row *)

Module Lifecycle.

Import ScheduleDb Server.

(** What the primary key and the SERIAL sequence guarantee of a table:
    ids are distinct and were all drawn from the sequence. *)
Definition wf (t : table) : Prop :=
  NoDup (map id (rows t)) /\ forall r, In r (rows t) -> id r < next_id t.

(** The row [s] with another status, and moved later by [offset]. *)
Definition with_status (s : schedule) (st : lifecycle) : schedule :=
  mkSchedule (id s) (image_url s) (scheduled_time s) (duration s)
    (repeat_type s) (rotation s) (mirror s) st.

Definition moved (s : schedule) (offset : Z) : schedule :=
  mkSchedule (id s) (image_url s) (scheduled_time s + offset) (duration s)
    (repeat_type s) (rotation s) (mirror s) pending.

(** Rows leaving the table by other routes (account clean-up, cascading
    deletes): any subset of the rows may go. *)
Definition purge (keep : schedule -> bool) (st : state) : state :=
  set_schedules (mkTable (filter keep (rows (schedules st)))
                   (next_id (schedules st))) st.

(** One event of the server's life. *)
Inductive step : state -> state -> Prop :=
| step_post (u : Z) (b : scheduleBody) (st : state) :
    step st (snd (schedule_post u b st))
| step_put (now u i : Z) (b : updateBody) (st : state) :
    step st (snd (fst (schedule_put now u i b st)))
| step_delete (now u i : Z) (st : state) :
    step st (snd (fst (schedule_delete now u i st)))
| step_display_now (now u : Z) (b : displayNowBody) (st : state) :
    step st (snd (fst (display_now now u b st)))
| step_sweep (now : Z) (st : state) :
    step st (fst (sweep now st))
| step_register (now : Z) (socket : string) (d : registerData) (st : state) :
    step st (fst (register_display now socket d st))
| step_disconnect (socket : string) (st : state) :
    step st (disconnect socket st)
| step_purge (keep : schedule -> bool) (st : state) :
    step st (purge keep st).

Inductive steps : state -> state -> Prop :=
| steps_refl (st : state) : steps st st
| steps_next (st st' st'' : state) :
    step st st' -> steps st' st'' -> steps st st''.

(** No row with id [i] is pending, and [i] will not be drawn again. *)
Definition settled (i : Z) (t : table) : Prop :=
  i < next_id t
  /\ forall r, In r (rows t) -> id r = i -> status r <> pending.

(** A daily entry, due at 1000, in an otherwise empty table. *)
Definition daily_entry : schedule :=
  mkSchedule 1 "https://cdn.example/a.png" 1000 60000 daily 0 false pending.

Definition with_daily_entry : state :=
  set_schedules (mkTable [daily_entry] 2) initial.

End Lifecycle.

(** ** Scenarios *)

Module Scenario.

Import ScheduleDb Server Dispatch.

(** User 1 schedules the same image at 1000, on an empty server. *)
Definition one_entry : state :=
  snd (schedule_post 1 (schedule_at 1000) initial).

(** User 1 then schedules it again at 100000. *)
Definition two_entries : state :=
  snd (schedule_post 1 (schedule_at 100000) one_entry).

(** A change of instant and duration sent to PUT /api/schedule/:id. *)
Definition move_to (t : Z) : updateBody :=
  mkUpdateBody (Some t) (Some 60000) None.

(** The device "A" of user 1 is connected on "socket-1"; user 2, who has
    no display connected, schedules an image at 1000 for device 20. *)
Definition user1_connected : state :=
  fst (register_display 0 "socket-1" (hello "A") one_device).

Definition for_device_20 : scheduleBody :=
  mkScheduleBody (Some "https://cdn.example/b.png"%string) (Some 1000) None
    None None None (Some 20) None false.

Definition user2_scheduled : state :=
  snd (schedule_post 2 for_device_20 user1_connected).

(** The same schedule, made before device "A" connects. *)
Definition user2_scheduled_first : state :=
  snd (schedule_post 2 for_device_20 one_device).

(** The row user 2's request creates. *)
Definition user2_row : schedule :=
  mkSchedule 1 "https://cdn.example/b.png" 1000 60000 once 0 false pending.

End Scenario.

(** ** The repository, row by row *)

Module RepositorySpec.

Import ScheduleDb.

(** A list of rows in ascending order of instant. *)
Definition ascending (l : list schedule) : Prop :=
  StronglySorted (fun a b => scheduled_time a <= scheduled_time b) l.

(** The rows a fetch at [now] is about: pending and due. *)
Definition due (now : Z) (r : schedule) : bool :=
  is_pending r && (scheduled_time r <=? now).


(** The row [r] after [reschedule] to [t]. *)
Definition retimed (r : schedule) (t : Z) : schedule :=
  mkSchedule (id r) (image_url r) t (duration r) (repeat_type r) (rotation r)
    (mirror r) pending.

(** A table holding one completed row, due since instant 1000. *)
Definition finished_row : schedule :=
  mkSchedule 1 "https://cdn.example/a.png" 1000 60000 once 0 false completed.

Definition finished_table : table := mkTable [finished_row] 2.


End RepositorySpec.

(** ** Messages *)

Module Messages.

Import Server.

(** A content message clears when its duration has run from the instant
    it was displayed; other messages carry no times. *)
Definition well_timed (p : payload) : Prop :=
  match p with
  | DisplayContent c => clearAt c = displayedAt c + c_duration c
  | DisplayLayout _ => True
  | ClearContent => True
  end.


(** The display-history row of an immediate display is one the table
    accepts. *)
Definition history_accepts (b : displayNowBody) : bool :=
  match n_imageUrl b with
  | Some imageUrl =>
      match Pg.varchar 500 imageUrl with Some _ => true | None => false end
      && Pg.int4 (Js.or_default (n_duration b) 60000)
      && Pg.int4 (Js.or_default (n_rotation b) 0)
  | None => false
  end.

(** A schedule row written by an immediate display. *)
Definition ledger_row (r : ScheduleDb.schedule) : Prop :=
  ScheduleDb.status r = ScheduleDb.completed
  /\ ScheduleDb.repeat_type r = ScheduleDb.once.

(** Device "A" of user 1 and device "B" of user 2, both connected. *)
Definition two_owners : state :=
  set_registry
    [("A"%string, Registry.mkInfo "socket-1" 1 10 "Lobby" "UTC" 0);
     ("B"%string, Registry.mkInfo "socket-2" 2 20 "Hall" "UTC" 0)]
    initial.

(** A request to show one image for thirty days, a duration beyond the
    INTEGER columns. *)
Definition show_for_thirty_days : displayNowBody :=
  mkDisplayNow (Some "https://cdn.example/a.png"%string) None None
    (Some 2592000000) None None None None None None false.

End Messages.

(** ** Requests *)

Module Requests.

Import ScheduleDb Server.






End Requests.

(** ** What a sweep leaves behind *)

Module SweepSpec.

Import ScheduleDb Server.


(** No one-shot row of the table is pending and due at [now]. *)
Definition no_once_due (now : Z) (t : table) : Prop :=
  forall r, In r (rows t) -> repeat_type r = once -> status r = pending ->
            scheduled_time r <= now -> False.

End SweepSpec.

(** ** Requests to the earlier server *)

Module LegacySpec.

Import ScheduleDb.

(** A request to one of the three schedule routes; [skew] is the one of
    [ScheduleDb.hasConflict_sent] for the date-time text it carries. *)
Inductive request :=
| Post (skew : Z) (b : Server.scheduleBody)
| Put (skew : Z) (i : Z) (b : Server.updateBody)
| Delete (i : Z).

Definition handle (tbl : table) (r : request) : table :=
  match r with
  | Post skew b => snd (LegacyServer.schedule_post skew b tbl)
  | Put skew i b => snd (LegacyServer.schedule_put skew i b tbl)
  | Delete i => snd (LegacyServer.schedule_delete i tbl)
  end.

(** The end of the candidate window is not read earlier than it is. *)
Definition not_read_early (r : request) : Prop :=
  match r with
  | Post skew _ => 0 <= skew
  | Put skew _ _ => 0 <= skew
  | Delete _ => True
  end.

(** The table after a sequence of requests. *)
Definition serve (rs : list request) (tbl : table) : table :=
  fold_left handle rs tbl.

(** Two schedule requests one minute apart, then the first entry is
    moved onto the second, moved elsewhere, and the second deleted. *)
Definition busy_morning : list request :=
  [Post 0 (Dispatch.schedule_at 1000);
   Post 0 (Dispatch.schedule_at 61000);
   Put 0 1 (Server.mkUpdateBody (Some 61000) (Some 60000) None);
   Put 0 1 (Server.mkUpdateBody (Some 200000) (Some 60000) None);
   Delete 2].

(** A schedule request for a window of a given length. *)
Definition schedule_for (t length : Z) : Server.scheduleBody :=
  Server.mkScheduleBody (Some "https://cdn.example/a.png"%string) (Some t)
    (Some length) None None None None None false.

(** Two requests with date-time texts ending in Z, served by a process
    five hours west of UTC: [10:00:30, 10:01:00), then
    [10:00:00, 10:00:31). *)
Definition read_early : list request :=
  [Post Windows.five_hours_west (schedule_for (Windows.clock 10 0 30) 30000);
   Post Windows.five_hours_west (schedule_for (Windows.clock 10 0 0) 31000)].

End LegacySpec.

(** ** The current display of the earlier server *)

Module CurrentSpec.

Import LegacyServer.

(** That server just started on empty tables. *)
Definition fresh : state :=
  mkState ScheduleDb.empty DisplayDb.empty CurrentDisplayDb.empty
    DisplayTrackingDb.empty None.

(** The message an immediate display of [imageUrl] broadcasts. *)
Definition shown_now (now : Z) (b : displayNowBody) (imageUrl : string)
  : Server.content :=
  content_of imageUrl (Js.or_default (n_rotation b) 0)
    (Server.or_bool (n_mirror b)) (Js.or_default (n_duration b) 60000) now.

(** The message the schedule checker broadcasts for the row [s]. *)
Definition shown_due (now : Z) (s : ScheduleDb.schedule) : emission :=
  (Everyone,
   Server.DisplayContent
     (content_of (ScheduleDb.image_url s) (ScheduleDb.rotation s)
        (ScheduleDb.mirror s) (ScheduleDb.duration s) now)).

(** A request to display one image with every option left out. *)
Definition plain : displayNowBody :=
  mkDisplayNow (Some "https://cdn.example/a.png"%string) None None None.

End CurrentSpec.

(** ** Displays coming and going *)

Module TrackingSpec.

Import DisplayTrackingDb.

(** A display registers under a name, or its socket closes. *)
Inductive event :=
| Connects (now : Z) (socket : string) (name : option string)
| Leaves (now : Z) (socket : string).

Definition apply (st : LegacyServer.state) (e : event) : LegacyServer.state :=
  match e with
  | Connects now socket name =>
      fst (LegacyServer.register_display now socket name st)
  | Leaves now socket => LegacyServer.disconnect now socket st
  end.

Definition run (evs : list event) (st : LegacyServer.state)
  : LegacyServer.state :=
  fold_left apply evs st.

(** The sockets of the tracking table. *)
Definition sockets (st : LegacyServer.state) : list string :=
  map socket_id (LegacyServer.displays st).

(** [n] copies of a character. *)
Fixpoint copies (n : nat) (c : ascii) : string :=
  match n with
  | O => EmptyString
  | S m => String c (copies m c)
  end.

(** A name of 100 letters followed by three spaces, and one of 101
    letters. *)
Definition padded_name : string := copies 100 "a" ++ copies 3 " ".
Definition long_name : string := copies 101 "a".

(** A display connects, drops, and connects again under another name,
    while a second display connects once. *)
Definition flaky : list event :=
  [Connects 0 "socket-1" (Some "Lobby"%string);
   Leaves 1000 "socket-1";
   Connects 2000 "socket-2" None;
   Connects 3000 "socket-1" (Some "Hall"%string)].

End TrackingSpec.

(** ** The display history, read back *)

Module HistorySpec.

(** The rows are listed newest first. *)
Definition newest_first (l : list DisplayDb.display) : Prop :=
  StronglySorted
    (fun a b => DisplayDb.displayed_at b <= DisplayDb.displayed_at a) l.

(** The number of rows a call with [limit] asks for. *)
Definition asked (limit : option Z) : Z :=
  match limit with Some v => v | None => 100 end.

End HistorySpec.

(** ** Requests to the in-memory server *)

Module MemorySpec.

Import InMemoryServer.



(** A request to one of the three schedule routes; a POST carries the
    clock reading its id is made of. *)
Inductive request :=
| Post (now : Z) (b : scheduleBody)
| Put (i : string) (b : updateBody)
| Delete (i : string).

Definition handle (l : list entry) (r : request) : list entry :=
  match r with
  | Post now b => snd (schedule_post now b l)
  | Put i b => snd (schedule_put i b l)
  | Delete i => snd (schedule_delete i l)
  end.

Definition serve (rs : list request) (l : list entry) : list entry :=
  fold_left handle rs l.

Definition image_at (t : Z) : scheduleBody :=
  mkScheduleBody (Some "https://cdn.example/a.png"%string) (Some t) None None
    None None.

(** Two requests one minute apart, the first entry moved by a day, then
    a request for the slot it left. *)
Definition session : list request :=
  [Post 10 (image_at 1000);
   Post 20 (image_at 61000);
   Put "10" (mkUpdateBody (Some 86401000) None None);
   Post 30 (image_at 1000)].

End MemorySpec.

(** ** The clocks of the daypart check *)

Module CronSpec.

Import Daypart.

(** [cron.schedule('0 6,11,16,22 * * *', ...)]: minute 0 of the hours
    6, 11, 16 and 22. *)
Definition transition_cron (hours minutes : nat) : bool :=
  Nat.eqb minutes 0 && existsb (Nat.eqb hours) [6; 11; 16; 22]%nat.

(** [cron.schedule('*/10 * * * *', ...)]: every tenth minute. *)
Definition periodic_cron (hours minutes : nat) : bool :=
  Nat.eqb (minutes mod 10) 0.

(** The daypart of the minute before a clock reading. *)
Definition a_minute_earlier (hours minutes : nat) : current :=
  match minutes, hours with
  | S m, _ => getCurrentDaypart hours m
  | O, S h => getCurrentDaypart h 59
  | O, O => getCurrentDaypart 23 59
  end.

(** At one reading: the daypart differs from that of the minute before
    exactly when the transition clock fires, and then the periodic
    clock fires too. *)
Definition aligned (hours minutes : nat) : bool :=
  Bool.eqb
    (negb (String.eqb (type (getCurrentDaypart hours minutes))
                      (type (a_minute_earlier hours minutes))))
    (transition_cron hours minutes)
  && (negb (transition_cron hours minutes) || periodic_cron hours minutes).

Definition all_aligned : bool :=
  forallb (fun h => forallb (aligned h) (seq 0 60)) (seq 0 24).

End CronSpec.

(** ** Viewers of a live session *)

Module ViewerSpec.

Import LiveViewerDb.

(** Every row of the session carries the viewer count [n]. *)
Definition counted (sessionId n : Z) (db : store) : Prop :=
  forall s, In s (live_sessions db) -> s_id s = sessionId -> viewer_count s = n.

(** The rows of the other sessions are what they were. *)
Definition others_kept (sessionId : Z) (db db' : store) : Prop :=
  forall s, s_id s <> sessionId ->
            (In s (live_sessions db') <-> In s (live_sessions db)).

(** How many open rows the display has in the session. *)
Definition watching_rows (sessionId displayId : Z) (db : store) : Z :=
  Z.of_nat (List.length (filter (watching sessionId displayId)
                           (live_session_viewers db))).

End ViewerSpec.

(** ** The checker of the in-memory server *)

Module MemorySweepSpec.

Import InMemoryServer.

(** The repeat words the checker knows. *)
Definition known_word (w : string) : bool :=
  existsb (String.eqb w) ["once"; "daily"; "weekly"; "monthly"; "yearly"]%string.

(** Consecutive runs of the checker at the instants [nows]: the array
    afterwards and the broadcasts of each run. *)
Fixpoint runs (nows : list Z) (l : list entry) (current : option content)
  : list entry * list (list content) :=
  match nows with
  | [] => (l, [])
  | now :: rest =>
      let '(l', current', out) := sweep now l current in
      let (final, outs) := runs rest l' current' in
      (final, out :: outs)
  end.

(** An entry asked to repeat every hour, a word the checker does not
    know. *)
Definition hourly : entry :=
  mkEntry "10" "https://cdn.example/a.png" 1000 60000 "hourly" 0 false
    ScheduleDb.pending.

End MemorySweepSpec.

(* ===================================================================== *)
(** * Part III: properties *)

(** ** Column types *)

Section ColumnFacts.

(** What a VARCHAR(n) column stores is at most [n] characters long. *)
Lemma length_substring_le (n : nat) (s : string) :
  (String.length (substring 0 n s) <= n)%nat.
Proof.
  revert s. induction n as [|n IH]; intros s.
  - destruct s; simpl; lia.
  - destruct s as [|c s]; simpl; [lia|]. specialize (IH s). lia.
Qed.

Lemma varchar_fits (n : nat) (s stored : string) :
  Pg.varchar n s = Some stored -> (String.length stored <= n)%nat.
Proof.
  unfold Pg.varchar. destruct (Nat.leb (String.length s) n) eqn:E.
  - intros [= <-]. apply Nat.leb_le. exact E.
  - destruct (Pg.all_spaces _); [|discriminate].
    intros [= <-]. apply length_substring_le.
Qed.

(** A value that fits is stored as it is. *)
Lemma varchar_short (n : nat) (s : string) :
  (String.length s <= n)%nat -> Pg.varchar n s = Some s.
Proof.
  intros H. unfold Pg.varchar. apply Nat.leb_le in H. rewrite H. reflexivity.
Qed.

End ColumnFacts.
(* ===================================================================== *)

(** ** The daypart table *)

Section DaypartFacts.

Import Daypart DaypartSpec.

Lemma current_eqb_eq (a b : current) : current_eqb a b = true -> a = b.
Proof.
  unfold current_eqb. destruct a, b; simpl.
  rewrite !andb_true_iff, !String.eqb_eq.
  intros [[[-> ->] ->] ->]. reflexivity.
Qed.

Lemma all_readings_ok_true : all_readings_ok = true.
Proof. vm_compute. reflexivity. Qed.

Lemma reading_ok_in_range (hours minutes : nat) :
  (hours < 24)%nat -> (minutes < 60)%nat -> reading_ok hours minutes = true.
Proof.
  intros Hh Hm.
  pose proof all_readings_ok_true as H. unfold all_readings_ok in H.
  rewrite forallb_forall in H.
  specialize (H hours). rewrite in_seq in H.
  assert (Hrow : forallb (reading_ok hours) (seq 0 60) = true) by (apply H; lia).
  rewrite forallb_forall in Hrow. apply Hrow. rewrite in_seq. lia.
Qed.

End DaypartFacts.

(** C8. At every wall-clock reading (hours 0-23, minutes 0-59) exactly one
    entry of the daypart table passes its test (the late-night entry with
    "at or after start OR before end", the other three with "at or after
    start AND before end"); it is the window the hour falls in (06-11,
    11-16, 16-22, 22-06), [getCurrentDaypart] returns it, and the UNKNOWN
    fallback is never returned. *)
Theorem C8_getCurrentDaypart_exactly_one_window :
  forall hours minutes : nat,
    (hours < 24)%nat -> (minutes < 60)%nat ->
    exists key d,
      DaypartSpec.matching hours minutes = [(key, d)]
      /\ In (key, d) Daypart.DAYPARTS
      /\ key = DaypartSpec.window_of_hour hours
      /\ Daypart.getCurrentDaypart hours minutes
         = Daypart.mkCurrent key (Daypart.name d) (Daypart.start d) (Daypart.end_ d)
      /\ Daypart.type (Daypart.getCurrentDaypart hours minutes) <> "UNKNOWN"%string.
Proof.
  intros hours minutes Hh Hm.
  pose proof (reading_ok_in_range hours minutes Hh Hm) as Hok.
  unfold DaypartSpec.reading_ok in Hok.
  destruct (DaypartSpec.matching hours minutes) as [|[key d] [|e rest]] eqn:Hmatch;
    try discriminate.
  apply andb_true_iff in Hok. destruct Hok as [Hkey Hcur].
  apply String.eqb_eq in Hkey. apply current_eqb_eq in Hcur.
  exists key, d. repeat split; trivial.
  - assert (Hin : In (key, d) (DaypartSpec.matching hours minutes))
      by (rewrite Hmatch; left; reflexivity).
    unfold DaypartSpec.matching in Hin. apply filter_In in Hin. tauto.
  - rewrite Hcur. simpl. rewrite Hkey. unfold DaypartSpec.window_of_hour.
    destruct (Nat.leb 6 hours && Nat.ltb hours 11);
      [discriminate|].
    destruct (Nat.leb 11 hours && Nat.ltb hours 16); [discriminate|].
    destruct (Nat.leb 16 hours && Nat.ltb hours 22); discriminate.
Qed.

(** The statement of C8 at 23:59. *)
Lemma C8_witness_2359 :
  exists key d,
    DaypartSpec.matching 23 59 = [(key, d)]
    /\ In (key, d) Daypart.DAYPARTS
    /\ key = DaypartSpec.window_of_hour 23
    /\ Daypart.getCurrentDaypart 23 59
       = Daypart.mkCurrent key (Daypart.name d) (Daypart.start d) (Daypart.end_ d)
    /\ Daypart.type (Daypart.getCurrentDaypart 23 59) <> "UNKNOWN"%string.
Proof.
  apply (C8_getCurrentDaypart_exactly_one_window 23 59); lia.
Defined.

(** ** The two conflict checks *)

Section ConflictCheck.

Import ScheduleDb.

Lemma lifecycle_eqb_eq (a b : lifecycle) : lifecycle_eqb a b = true <-> a = b.
Proof. destruct a, b; simpl; split; congruence. Qed.

Lemma is_pending_iff (r : schedule) : is_pending r = true <-> status r = pending.
Proof. apply lifecycle_eqb_eq. Qed.

Lemma filter_length_nonzero {A} (f : A -> bool) (l : list A) :
  negb (Nat.eqb (List.length (filter f l)) 0) = existsb f l.
Proof.
  induction l as [|x l IH]; simpl; [reflexivity|].
  destruct (f x); simpl; [reflexivity|exact IH].
Qed.

(** [hasConflict] answers whether some row satisfies the WHERE clause. *)
Lemma hasConflict_existsb (t d : Z) (ex : option Z) (tbl : table) :
  hasConflict t d ex tbl = existsb (conflict_row t (t + d) ex) (rows tbl).
Proof.
  unfold hasConflict, hasConflict_sent. rewrite Z.add_0_r.
  apply filter_length_nonzero.
Qed.

(** The end the database is given is displaced by [skew]: the check
    tests the window of length [d + skew]. *)
Lemma hasConflict_sent_displaced (skew t d : Z) (ex : option Z) (tbl : table) :
  hasConflict_sent skew t d ex tbl = hasConflict t (d + skew) ex tbl.
Proof.
  unfold hasConflict, hasConflict_sent.
  replace (t + (d + skew) + 0) with (t + d + skew) by lia. reflexivity.
Qed.

Lemma excluded_iff (ex : option Z) (r : schedule) :
  (match ex with None => true | Some x => negb (id r =? x) end) = true
  <-> (forall x, ex = Some x -> id r <> x).
Proof.
  destruct ex as [x|]; simpl.
  - rewrite negb_true_iff, Z.eqb_neq. split.
    + intros H y [= <-]. exact H.
    + intros H. apply H. reflexivity.
  - split; [intros _ x; discriminate|reflexivity].
Qed.

(** The WHERE clause, read as a proposition. *)
Lemma conflict_row_iff (p1 p2 : Z) (ex : option Z) (r : schedule) :
  conflict_row p1 p2 ex r = true
  <-> Windows.considered ex r
      /\ ((scheduled_time r <= p1 /\ p1 < scheduled_time r + duration r)
          \/ (scheduled_time r < p2 /\ p2 <= scheduled_time r + duration r)
          \/ (p1 <= scheduled_time r /\ scheduled_time r < p2)).
Proof.
  unfold conflict_row, Windows.considered.
  rewrite !andb_true_iff, !orb_true_iff, !andb_true_iff.
  rewrite is_pending_iff, excluded_iff.
  rewrite !Z.leb_le, !Z.ltb_lt. tauto.
Qed.


(** Whatever the lengths, the clauses hold when the windows share an
    instant. *)
Lemma intersect_clauses (t d s e : Z) :
  Windows.intersect t d s e ->
  (s <= t /\ t < s + e) \/ (s < t + d /\ t + d <= s + e)
  \/ (t <= s /\ s < t + d).
Proof. intros [x Hx]. lia. Qed.





End ConflictCheck.




(** ** The connection registry *)

Section RegistryFacts.

Import Registry.

Lemma count_cons (s k : string) (v : displayInfo) (m : t) :
  count s ((k, v) :: m)
  = (if String.eqb k s then S (count s m) else count s m).
Proof. unfold count. simpl. destruct (String.eqb k s); reflexivity. Qed.

Lemma get_set_same (k : string) (v : displayInfo) (m : t) :
  get k (set k v m) = Some v.
Proof.
  induction m as [|[k' old] m IH]; simpl.
  - rewrite String.eqb_refl. reflexivity.
  - destruct (String.eqb k' k) eqn:E; simpl.
    + rewrite String.eqb_refl. reflexivity.
    + rewrite E. exact IH.
Qed.

Lemma get_set_other (s k : string) (v : displayInfo) (m : t) :
  s <> k -> get s (set k v m) = get s m.
Proof.
  intros Hne. induction m as [|[k' old] m IH]; simpl.
  - destruct (String.eqb k s) eqn:E; [|reflexivity].
    apply String.eqb_eq in E. congruence.
  - destruct (String.eqb k' k) eqn:E; simpl.
    + apply String.eqb_eq in E. subst k'.
      destruct (String.eqb k s) eqn:E2; [|reflexivity].
      apply String.eqb_eq in E2. congruence.
    + destruct (String.eqb k' s); [reflexivity|exact IH].
Qed.

Lemma count_set_same (k : string) (v : displayInfo) (m : t) :
  count k (set k v m) = (if Nat.eqb (count k m) 0 then 1%nat else count k m).
Proof.
  induction m as [|[k' old] m IH]; simpl.
  - rewrite count_cons, String.eqb_refl. reflexivity.
  - destruct (String.eqb k' k) eqn:E.
    + rewrite !count_cons, String.eqb_refl, E. reflexivity.
    + rewrite !count_cons, E. exact IH.
Qed.

Lemma count_set_other (s k : string) (v : displayInfo) (m : t) :
  s <> k -> count s (set k v m) = count s m.
Proof.
  intros Hne. induction m as [|[k' old] m IH]; simpl.
  - rewrite count_cons. destruct (String.eqb k s) eqn:E; [|reflexivity].
    apply String.eqb_eq in E. congruence.
  - destruct (String.eqb k' k) eqn:E.
    + apply String.eqb_eq in E. subst k'. rewrite !count_cons.
      reflexivity.
    + rewrite !count_cons, IH. reflexivity.
Qed.

Lemma count_delete_le (s k : string) (m : t) :
  (count s (delete k m) <= count s m)%nat.
Proof.
  induction m as [|[k' v] m IH]; simpl; [lia|].
  destruct (String.eqb k' k); rewrite ?count_cons;
    destruct (String.eqb k' s); lia.
Qed.

Lemma get_delete_other (s k : string) (m : t) :
  s <> k -> get s (delete k m) = get s m.
Proof.
  intros Hne. induction m as [|[k' v] m IH]; simpl; [reflexivity|].
  destruct (String.eqb k' k) eqn:E; simpl.
  - apply String.eqb_eq in E. subst k'.
    destruct (String.eqb k s) eqn:E2; [|exact IH].
    apply String.eqb_eq in E2. congruence.
  - destruct (String.eqb k' s); [reflexivity|exact IH].
Qed.

(** What one mutation does to the number of entries of a serial. *)
Lemma count_apply_le (s : string) (m : t) (o : op) :
  (count s m <= 1)%nat -> (count s (apply m o) <= 1)%nat.
Proof.
  intros H. destruct o as [k v|sid]; simpl.
  - destruct (string_dec s k) as [->|Hne].
    + rewrite count_set_same. destruct (Nat.eqb (count k m) 0); lia.
    + rewrite count_set_other; trivial.
  - unfold disconnect. destruct (findBySocket sid m); trivial.
    pose proof (count_delete_le s s0 m). lia.
Qed.

Lemma count_fold_le (s : string) (ops : list op) (m : t) :
  (count s m <= 1)%nat -> (count s (fold_left apply ops m) <= 1)%nat.
Proof.
  revert m. induction ops as [|o ops IH]; intros m H; simpl; trivial.
  apply IH. apply count_apply_le. exact H.
Qed.

(** At most one entry per serial, after any history of the registry. *)
Lemma count_run_le (s : string) (ops : list op) : (count s (run ops) <= 1)%nat.
Proof. apply count_fold_le. unfold count. simpl. lia. Qed.

Lemma findBySocket_In (sid k : string) (m : t) :
  findBySocket sid m = Some k ->
  exists v, In (k, v) m /\ socketId v = sid.
Proof.
  induction m as [|[k' v] m IH]; simpl; [discriminate|].
  destruct (String.eqb (socketId v) sid) eqn:E.
  - intros [= <-]. apply String.eqb_eq in E. exists v. auto.
  - intros H. destruct (IH H) as [w [Hin Hs]]. exists w. auto.
Qed.

Lemma count_pos_of_In (k : string) (v : displayInfo) (m : t) :
  In (k, v) m -> (1 <= count k m)%nat.
Proof.
  induction m as [|[k' w] m IH]; simpl; [tauto|].
  rewrite count_cons. intros [H|H].
  - injection H as -> ->. rewrite String.eqb_refl. lia.
  - specialize (IH H). destruct (String.eqb k' k); lia.
Qed.

(** With one entry per serial, membership and lookup agree. *)
Lemma get_of_In (k : string) (v : displayInfo) (m : t) :
  (count k m <= 1)%nat -> In (k, v) m -> get k m = Some v.
Proof.
  induction m as [|[k' w] m IH]; simpl; [tauto|].
  rewrite count_cons. intros Hc [H|H].
  - injection H as -> ->. rewrite String.eqb_refl. reflexivity.
  - destruct (String.eqb k' k) eqn:E.
    + pose proof (count_pos_of_In k v m H). lia.
    + apply IH; trivial.
Qed.

Lemma findBySocket_none (sid : string) (m : t) :
  (forall k v, In (k, v) m -> socketId v <> sid) ->
  findBySocket sid m = None.
Proof.
  induction m as [|[k v] m IH]; simpl; [reflexivity|].
  intros H. destruct (String.eqb (socketId v) sid) eqn:E.
  - apply String.eqb_eq in E. exfalso. apply (H k v); auto.
  - apply IH. intros k' v' Hin. apply (H k' v'). auto.
Qed.

Lemma In_set (k k' : string) (v v' : displayInfo) (m : t) :
  In (k', v') (set k v m) -> (k' = k /\ v' = v) \/ In (k', v') m.
Proof.
  induction m as [|[k0 w] m IH]; simpl.
  - intros [H|[]]. injection H as <- <-. auto.
  - destruct (String.eqb k0 k) eqn:E; simpl.
    + intros [H|H]; [injection H as <- <-|]; auto.
    + intros [H|H]; [auto|]. destruct (IH H); auto.
Qed.

(** The entries after a registration, in a registry with one entry per
    serial: the new one, and the old ones of the other serials. *)
Lemma In_set_unique (k k' : string) (v v' : displayInfo) (m : t) :
  (count k m <= 1)%nat ->
  In (k', v') (set k v m) -> (k' = k /\ v' = v) \/ (k' <> k /\ In (k', v') m).
Proof.
  intros Hc Hin. destruct (string_dec k' k) as [->|Hne].
  - left. split; trivial.
    assert (Hc' : (count k (set k v m) <= 1)%nat).
    { rewrite count_set_same. destruct (Nat.eqb (count k m) 0); lia. }
    pose proof (get_of_In k v' _ Hc' Hin) as Hg.
    rewrite get_set_same in Hg. congruence.
  - right. split; trivial. destruct (In_set _ _ _ _ _ Hin) as [[? _]|?]; tauto.
Qed.

End RegistryFacts.

(** C7. After any history of registrations and disconnects the registry
    holds at most one entry per serial. Registering a serial a second
    time, from another transport session, leaves exactly one entry for
    it, holding the second session; the first session id no longer
    resolves to that serial (the disconnect scan for it does not find the
    serial and leaves its entry in place), and resolves to nothing at all
    when no other serial was registered from that first session. *)
Theorem C7_registry_one_entry_per_serial :
  forall (ops : list Registry.op) (serial : string)
         (first second : Registry.displayInfo),
    Registry.socketId first <> Registry.socketId second ->
    let before := Registry.run ops in
    let after := Registry.set serial second (Registry.set serial first before) in
    (forall s, (Registry.count s before <= 1)%nat)
    /\ (forall s, (Registry.count s after <= 1)%nat)
    /\ Registry.count serial after = 1%nat
    /\ Registry.get serial after = Some second
    /\ Registry.findBySocket (Registry.socketId first) after <> Some serial
    /\ Registry.get serial (Registry.disconnect (Registry.socketId first) after)
       = Some second
    /\ ((forall k v, In (k, v) before -> k <> serial ->
                     Registry.socketId v <> Registry.socketId first) ->
        Registry.findBySocket (Registry.socketId first) after = None).
Proof.
  intros ops serial v1 v2 Hne before after.
  assert (Hb : forall s, (Registry.count s before <= 1)%nat)
    by (intro s; apply count_run_le).
  assert (Ha : forall s, (Registry.count s after <= 1)%nat).
  { intro s. unfold after, before.
    change (Registry.count s
              (fold_left Registry.apply
                 [Registry.RegisterDisplay serial v1; Registry.RegisterDisplay serial v2]
                 (Registry.run ops)) <= 1)%nat.
    apply count_fold_le. apply count_run_le. }
  assert (Hget : Registry.get serial after = Some v2) by apply get_set_same.
  assert (Hfind : Registry.findBySocket (Registry.socketId v1) after <> Some serial).
  { intros Hf. apply findBySocket_In in Hf. destruct Hf as [v [Hin Hs]].
    pose proof (get_of_In serial v after (Ha serial) Hin) as Hg.
    rewrite Hget in Hg. injection Hg as <-. congruence. }
  repeat split; trivial.
  - unfold after. rewrite !count_set_same.
    destruct (Nat.eqb (Registry.count serial before) 0) eqn:E; simpl; trivial.
    apply Nat.eqb_neq in E. specialize (Hb serial).
    destruct (Nat.eqb (Registry.count serial before) 0) eqn:E2.
    + apply Nat.eqb_eq in E2. lia.
    + lia.
  - unfold Registry.disconnect.
    destruct (Registry.findBySocket (Registry.socketId v1) after) as [k|] eqn:E;
      trivial.
    rewrite get_delete_other; trivial. congruence.
  - intros Hothers. apply findBySocket_none. intros k v Hin.
    unfold after in Hin.
    assert (Hc1 : (Registry.count serial (Registry.set serial v1 before) <= 1)%nat).
    { rewrite count_set_same.
      specialize (Hb serial).
      destruct (Nat.eqb (Registry.count serial before) 0); lia. }
    destruct (In_set_unique _ _ _ _ _ Hc1 Hin) as [[-> ->]|[Hk Hin1]].
    + congruence.
    + destruct (In_set_unique _ _ _ _ _ (Hb serial) Hin1) as [[-> ->]|[_ Hin0]].
      * congruence.
      * apply (Hothers k v); trivial.
Qed.

(** C7 at the serial "X", registered twice on an empty registry. *)
Lemma C7_witness_reconnect :
  Registry.socketId Examples.first_session
  <> Registry.socketId Examples.second_session
  /\ Registry.count "X"
       (Registry.set "X" Examples.second_session
          (Registry.set "X" Examples.first_session (Registry.run []))) = 1%nat
  /\ Registry.get "X"
       (Registry.set "X" Examples.second_session
          (Registry.set "X" Examples.first_session (Registry.run [])))
     = Some Examples.second_session.
Proof.
  assert (H : Registry.socketId Examples.first_session
              <> Registry.socketId Examples.second_session)
    by (simpl; discriminate).
  split; [exact H|].
  pose proof (C7_registry_one_entry_per_serial [] "X" Examples.first_session
                Examples.second_session H) as T.
  cbv zeta in T. destruct T as (_ & _ & Hc & Hg & _).
  split; assumption.
Defined.

(** ** Ending a live session *)

Section LiveSessionFacts.

Import LiveSessionDb LiveSpec.

Lemma sessions_related (now sid : Z) (l : list live_session) :
  Forall2 (session_ended now sid) l
    (map (fun s => if (ls_id s =? sid) && is_active s then end_row now s else s) l).
Proof.
  induction l as [|s l IH]; simpl; constructor; trivial.
  unfold session_ended.
  destruct ((ls_id s =? sid) && is_active s); simpl; auto 10.
Qed.

Lemma viewers_related (now sid : Z) (l : list viewer) :
  Forall2 (viewer_left now sid) l
    (map (fun v => if is_open sid v then leave now v else v) l).
Proof.
  induction l as [|v l IH]; simpl; constructor; trivial.
  unfold viewer_left, is_open.
  destruct (left_at v); rewrite ?andb_false_r, ?andb_true_r; trivial.
  destruct (v_session_id v =? sid); simpl; auto.
Qed.

(** The rows returned by the first statement, when a session is active. *)
Lemma returned_rows (now sid : Z) (l : list live_session) :
  existsb (fun s => (ls_id s =? sid) && is_active s) l = true ->
  exists row rest,
    map (end_row now) (filter (fun s => (ls_id s =? sid) && is_active s) l)
    = row :: rest
    /\ ls_id row = sid /\ ls_status row = ended /\ ended_at row = Some now.
Proof.
  induction l as [|s l IH]; simpl; [discriminate|].
  destruct ((ls_id s =? sid) && is_active s) eqn:E; simpl.
  - intros _. eexists. eexists. split; [reflexivity|]. simpl.
    apply andb_true_iff in E. destruct E as [E _]. apply Z.eqb_eq in E. auto.
  - exact IH.
Qed.

Lemma no_rows (now sid : Z) (l : list live_session) :
  existsb (fun s => (ls_id s =? sid) && is_active s) l = false ->
  map (end_row now) (filter (fun s => (ls_id s =? sid) && is_active s) l) = [].
Proof.
  induction l as [|s l IH]; simpl; [reflexivity|].
  destruct ((ls_id s =? sid) && is_active s); simpl; [discriminate|exact IH].
Qed.

End LiveSessionFacts.

(** C9. [endSession] is all or nothing. When the store holds an active
    session with the given id and the database refuses no statement, the
    call resolves with the ended row and the committed store has that
    session [ended] with the end timestamp, every viewer row of the
    session that was still open closed at that timestamp, every other row
    untouched, and the 'ended' event appended. In every other case (no
    such session, session not active, or a statement refused) the call
    rejects and the store is exactly as it was. *)
Theorem C9_endSession_all_or_nothing :
  forall (now sessionId : Z) (f : LiveSessionDb.faults) (db : LiveSessionDb.store),
    if LiveSpec.has_active sessionId db && negb (LiveSpec.any_fault f)
    then exists row db',
        LiveSessionDb.endSession now sessionId f db
        = (LiveSessionDb.Resolved row, db')
        /\ LiveSessionDb.ls_id row = sessionId
        /\ LiveSessionDb.ls_status row = LiveSessionDb.ended
        /\ LiveSessionDb.ended_at row = Some now
        /\ Forall2 (LiveSpec.session_ended now sessionId)
             (LiveSessionDb.live_sessions db) (LiveSessionDb.live_sessions db')
        /\ Forall2 (LiveSpec.viewer_left now sessionId)
             (LiveSessionDb.live_session_viewers db)
             (LiveSessionDb.live_session_viewers db')
        /\ LiveSessionDb.live_session_events db'
           = LiveSessionDb.live_session_events db
             ++ [LiveSessionDb.mkEvent sessionId "ended" None]
    else LiveSessionDb.endSession now sessionId f db
         = (LiveSessionDb.Rejected (LiveSpec.rejection sessionId f db), db).
Proof.
  intros now sid f db.
  destruct f as [fb fs fv fe fc].
  unfold LiveSpec.any_fault, LiveSpec.rejection, LiveSessionDb.endSession,
    LiveSessionDb.transaction, LiveSessionDb.bind, LiveSessionDb.query,
    LiveSessionDb.ret, LiveSessionDb.throw; simpl.
  destruct (LiveSpec.has_active sid db) eqn:Hact; simpl.
  - unfold LiveSpec.has_active in Hact.
    destruct (returned_rows now sid _ Hact) as (row & rest & Hrows & Hid & Hst & Hend).
    destruct fb; simpl; [reflexivity|].
    destruct fs; simpl; [reflexivity|].
    rewrite Hrows.
    destruct fv; simpl; [reflexivity|].
    destruct fe; simpl; [reflexivity|].
    destruct fc; simpl; [reflexivity|].
    eexists. eexists. split; [reflexivity|]. simpl.
    repeat split; trivial.
    + apply sessions_related.
    + apply viewers_related.
  - unfold LiveSpec.has_active in Hact.
    destruct fb; simpl; [reflexivity|].
    destruct fs; simpl; [reflexivity|].
    rewrite (no_rows now sid _ Hact). reflexivity.
Qed.

(** ** The immediate-display request *)

Section DisplayNowFacts.

Import Server.

Lemma emit_where_sockets (cond : Registry.displayInfo -> bool) (p q : payload)
    (m : Registry.t) :
  map fst (emit_where cond p m) = map fst (emit_where cond q m).
Proof. unfold emit_where. rewrite !map_map. reflexivity. Qed.

Lemma flat_map_sockets (u : Z) (p q : payload) (m : Registry.t)
    (devs : list device) :
  map fst (flat_map (fun d => emit_where (owned_device u (dev_id d)) p m) devs)
  = map fst (flat_map (fun d => emit_where (owned_device u (dev_id d)) q m) devs).
Proof.
  induction devs as [|d devs IH]; [reflexivity|].
  cbn [flat_map]. rewrite !map_app.
  f_equal; [apply emit_where_sockets|exact IH].
Qed.

(** The sessions resolved do not depend on what is pushed. *)
Lemma resolved_any_payload (u : Z) (b : displayNowBody) (p : payload)
    (st : state) :
  Dispatch.resolved u b st
  = match resolve_targets u b p st with
    | Some (sent, _) => Some (map fst sent)
    | None => None
    end.
Proof.
  unfold Dispatch.resolved, resolve_targets.
  destruct (Js.truthy (n_groupId b) && n_uploadedFromGroup b).
  - destruct (getSelectionGroupWithDevices _ u st) as [[g devs]|]; trivial.
    rewrite (flat_map_sockets u ClearContent p). reflexivity.
  - destruct (Js.truthy (n_deviceId b));
      rewrite (emit_where_sockets _ ClearContent p); reflexivity.
Qed.

Lemma emit_where_nobody (cond : Registry.displayInfo -> bool) (p : payload)
    (m : Registry.t) :
  (forall k v, In (k, v) m -> cond v = false) -> emit_where cond p m = [].
Proof.
  intros H. unfold emit_where.
  induction m as [|[k v] m IH]; simpl; [reflexivity|].
  rewrite (H k v) by (left; reflexivity).
  apply IH. intros k' v' Hin. apply (H k' v'). right. exact Hin.
Qed.

(** An owner with no display in the registry resolves to nothing,
    whatever the target named by the request. *)
Lemma resolved_nothing_when_owner_offline (u : Z) (b : displayNowBody)
    (st : state) :
  (forall k v, In (k, v) (connectedDisplays st) -> Registry.userId v <> u) ->
  Dispatch.resolved u b st = Some [] \/ Dispatch.resolved u b st = None.
Proof.
  intros Hoff. unfold Dispatch.resolved, resolve_targets.
  assert (Hdev : forall d, emit_where (owned_device u d) ClearContent
                             (connectedDisplays st) = []).
  { intros d. apply emit_where_nobody. intros k v Hin. unfold owned_device.
    apply andb_false_iff. left. apply Z.eqb_neq. exact (Hoff k v Hin). }
  destruct (Js.truthy (n_groupId b) && n_uploadedFromGroup b).
  - destruct (getSelectionGroupWithDevices _ u st) as [[g devs]|]; [|right; trivial].
    left. f_equal.
    induction devs as [|d devs IH]; [reflexivity|].
    cbn [flat_map]. rewrite Hdev. exact IH.
  - left. destruct (Js.truthy (n_deviceId b)).
    + rewrite Hdev. reflexivity.
    + rewrite emit_where_nobody; [reflexivity|].
      intros k v Hin. unfold owned_by. apply Z.eqb_neq. exact (Hoff k v Hin).
Qed.

End DisplayNowFacts.

(** C6. An immediate-display request with a content URL whose target (the
    devices of a selection group, one device, or every connected device
    of the owner) resolves to no connected display is answered 404 "No
    displays connected"; nothing is pushed and the server state, with its
    display-history and schedule tables, is the state before the
    request. *)
Theorem C6_display_now_nothing_connected :
  forall (serverNow u : Z) (b : Server.displayNowBody) (st : Server.state),
    Js.truthy_str (Server.n_imageUrl b) = true ->
    Dispatch.resolved u b st = Some [] ->
    Server.display_now serverNow u b st
    = (Server.Error 404 "No displays connected", st, []).
Proof.
  intros serverNow u b st Hurl Hres.
  unfold Server.display_now.
  destruct (Server.n_imageUrl b) as [imageUrl|] eqn:Himg; [|discriminate].
  rewrite Hurl. simpl.
  set (now := match Server.n_clientTimestamp b with
              | Some c => c
              | None => serverNow
              end).
  rewrite (resolved_any_payload u b
             (Server.DisplayContent (Server.display_now_content now b imageUrl)))
    in Hres.
  destruct (Server.resolve_targets u b _ st) as [[sent devs]|]; [|discriminate].
  injection Hres as Hsent. apply map_eq_nil in Hsent. subst sent.
  reflexivity.
Qed.

(** C6 on a server with no display connected, for a request naming no
    device and no group. *)
Lemma C6_witness_nobody_connected :
  Server.display_now 1000 1 Dispatch.show_everywhere Server.initial
  = (Server.Error 404 "No displays connected", Server.initial, []).
Proof.
  apply (C6_display_now_nothing_connected 1000 1 Dispatch.show_everywhere
           Server.initial); reflexivity.
Defined.

(** ** The schedule repository *)

Section RepositoryFacts.

Import ScheduleDb Lifecycle.

Lemma In_insert_by_time (x r : schedule) (l : list schedule) :
  In x (insert_by_time r l) <-> x = r \/ In x l.
Proof.
  induction l as [|y l IH]; simpl.
  - intuition congruence.
  - destruct (scheduled_time r <=? scheduled_time y); simpl.
    + intuition congruence.
    + rewrite IH. intuition congruence.
Qed.

Lemma In_order_by_time (x : schedule) (l : list schedule) :
  In x (order_by_time l) <-> In x l.
Proof.
  induction l as [|y l IH]; simpl; [tauto|].
  rewrite In_insert_by_time, IH. intuition congruence.
Qed.

(** What [getPending] returns: the pending rows that are due. *)
Lemma getPending_In (now : Z) (t : table) (s : schedule) :
  In s (getPending now t)
  <-> In s (rows t) /\ status s = pending /\ scheduled_time s <= now.
Proof.
  unfold getPending. rewrite In_order_by_time, filter_In, andb_true_iff.
  rewrite is_pending_iff, Z.leb_le. tauto.
Qed.

(** *** Each operation keeps the table well formed *)

Lemma wf_empty : wf empty.
Proof. split; simpl; [constructor|tauto]. Qed.

Lemma wf_create (d : scheduleData) (t : table) :
  wf t -> wf (snd (create d t)).
Proof.
  intros [Hn Hb]. unfold create.
  match goal with |- context [insertable ?r] => destruct (insertable r) end;
    [|match goal with |- context [typed ?r] => destruct (typed r) end];
    simpl.
  - split; simpl.
    + rewrite map_app. simpl. apply NoDup_app; [exact Hn|repeat constructor; simpl; tauto|].
      intros x Hx [Hy|[]]. apply in_map_iff in Hx.
      destruct Hx as [r [Hr Hin]]. specialize (Hb r Hin). simpl in Hy. lia.
    + intros r Hin. apply in_app_iff in Hin. destruct Hin as [Hin|[<-|[]]].
      * specialize (Hb r Hin). lia.
      * simpl. lia.
  - split; simpl; [exact Hn|]. intros r Hin. specialize (Hb r Hin). lia.
  - split; assumption.
Qed.

Lemma ids_update_where (i : Z) (f : schedule -> schedule) (t : table) :
  (forall r, id (f r) = id r) ->
  map id (rows (update_where i f t)) = map id (rows t).
Proof.
  intros Hf. unfold update_where. simpl. rewrite map_map.
  apply map_ext. intros r. destruct (id r =? i); auto.
Qed.

Lemma wf_update_where (i : Z) (f : schedule -> schedule) (t : table) :
  (forall r, id (f r) = id r) -> wf t -> wf (update_where i f t).
Proof.
  intros Hf [Hn Hb]. split.
  - rewrite ids_update_where; trivial.
  - intros r Hin. unfold update_where in Hin. simpl in *.
    apply in_map_iff in Hin. destruct Hin as [r0 [<- Hin]].
    specialize (Hb r0 Hin). destruct (id r0 =? i); rewrite ?Hf; exact Hb.
Qed.

Lemma wf_filter (keep : schedule -> bool) (t : table) :
  wf t -> wf (mkTable (filter keep (rows t)) (next_id t)).
Proof.
  intros [Hn Hb]. split; simpl.
  - induction (rows t) as [|r l IH]; simpl; [constructor|].
    inversion Hn as [|? ? Hnotin Hn']; subst.
    assert (Hb' : forall r0, In r0 l -> id r0 < next_id t)
      by (intros; apply Hb; right; assumption).
    destruct (keep r); simpl; auto.
    constructor; auto. intros Hin. apply Hnotin.
    apply in_map_iff in Hin. destruct Hin as [x [Hx Hin]].
    apply filter_In in Hin. apply in_map_iff. exists x. tauto.
  - intros r Hin. apply filter_In in Hin. apply Hb. tauto.
Qed.

(** With distinct ids, the row found by id after an UPDATE is the
    rewritten row. *)
Lemma returning_update_where (f : schedule -> schedule) (t : table)
    (s : schedule) :
  (forall r, id (f r) = id r) ->
  NoDup (map id (rows t)) -> In s (rows t) ->
  returning (id s) (update_where (id s) f t) = Some (f s).
Proof.
  intros Hf. unfold returning, update_where. simpl.
  induction (rows t) as [|r l IH]; simpl; [tauto|].
  intros Hn Hin. inversion Hn as [|? ? Hnotin Hn']; subst.
  destruct (id r =? id s) eqn:E.
  - rewrite Hf, E. apply Z.eqb_eq in E. destruct Hin as [->|Hin]; trivial.
    exfalso. apply Hnotin. rewrite E. apply in_map. exact Hin.
  - rewrite E. destruct Hin as [->|Hin].
    + rewrite Z.eqb_refl in E. discriminate.
    + apply IH; trivial.
Qed.

(** *** Each operation keeps a settled id settled *)

Lemma settled_create (i : Z) (d : scheduleData) (t : table) :
  settled i t -> settled i (snd (create d t)).
Proof.
  intros [Hlt Hs]. unfold create.
  match goal with |- context [insertable ?r] => destruct (insertable r) end;
    [|match goal with |- context [typed ?r] => destruct (typed r) end];
    simpl; split; simpl; try lia; trivial.
  intros r Hin Hid. apply in_app_iff in Hin. destruct Hin as [Hin|[<-|[]]].
  - apply Hs; trivial.
  - simpl in Hid. lia.
Qed.

Lemma settled_update_where (i j : Z) (f : schedule -> schedule) (t : table) :
  (forall r, id (f r) = id r) ->
  (forall r, id r = i -> status r <> pending -> j = i -> status (f r) <> pending) ->
  settled i t -> settled i (update_where j f t).
Proof.
  intros Hf Hst [Hlt Hs]. split; simpl; trivial.
  intros r Hin Hid. apply in_map_iff in Hin. destruct Hin as [r0 [<- Hin]].
  destruct (id r0 =? j) eqn:E.
  - apply Z.eqb_eq in E. rewrite Hf in Hid. apply Hst; trivial.
    + apply Hs; trivial.
    + congruence.
  - apply Hs; trivial.
Qed.

Lemma settled_update (i j : Z) (u : updates) (t : table) :
  settled i t -> settled i (snd (update j u t)).
Proof.
  intros H. unfold update. simpl.
  apply settled_update_where; trivial.
Qed.

Lemma settled_updateStatus_completed (i j : Z) (t : table) :
  settled i t -> settled i (snd (updateStatus j completed t)).
Proof.
  intros H. unfold updateStatus. simpl.
  apply settled_update_where; trivial. intros. simpl. discriminate.
Qed.

Lemma settled_reschedule_other (i j n : Z) (t : table) :
  j <> i -> settled i t -> settled i (snd (reschedule j n t)).
Proof.
  intros Hne H. unfold reschedule. simpl.
  apply settled_update_where; trivial. intros. congruence.
Qed.

Lemma settled_filter (i : Z) (keep : schedule -> bool) (t : table) :
  settled i t -> settled i (mkTable (filter keep (rows t)) (next_id t)).
Proof.
  intros [Hlt Hs]. split; simpl; trivial.
  intros r Hin. apply filter_In in Hin. apply Hs. tauto.
Qed.

Lemma settled_delete (i j : Z) (t : table) :
  settled i t -> settled i (snd (delete j t)).
Proof. intros H. unfold delete. simpl. apply settled_filter. exact H. Qed.

(** A settled id is on no later list of due entries. *)
Lemma settled_not_pending (i now : Z) (t : table) (r : schedule) :
  settled i t -> In r (getPending now t) -> id r <> i.
Proof.
  intros [_ Hs] Hin Hid. apply getPending_In in Hin.
  destruct Hin as (Hin & Hp & _). exact (Hs r Hin Hid Hp).
Qed.

(** *** The list of due entries has distinct ids *)

Lemma NoDup_ids_filter (keep : schedule -> bool) (l : list schedule) :
  NoDup (map id l) -> NoDup (map id (filter keep l)).
Proof.
  induction l as [|r l IH]; simpl; [constructor|].
  intros Hn. inversion Hn as [|? ? Hnotin Hn']; subst.
  destruct (keep r); simpl; auto.
  constructor; auto. intros Hin. apply Hnotin.
  apply in_map_iff in Hin. destruct Hin as [x [Hx Hin]].
  apply filter_In in Hin. apply in_map_iff. exists x. tauto.
Qed.

Lemma NoDup_ids_insert (r : schedule) (l : list schedule) :
  ~ In (id r) (map id l) -> NoDup (map id l) ->
  NoDup (map id (insert_by_time r l)).
Proof.
  induction l as [|x l IH]; simpl; intros Hnotin Hn.
  - constructor; [tauto|constructor].
  - destruct (scheduled_time r <=? scheduled_time x); simpl.
    + constructor; trivial.
    + inversion Hn as [|? ? Hx Hn']; subst. constructor.
      * intros Hin. apply in_map_iff in Hin. destruct Hin as [y [Hy Hin]].
        apply In_insert_by_time in Hin. destruct Hin as [->|Hin].
        -- apply Hnotin. left. symmetry. exact Hy.
        -- apply Hx. rewrite <- Hy. apply in_map. exact Hin.
      * apply IH; trivial. intros Hin. apply Hnotin. right. exact Hin.
Qed.

Lemma NoDup_ids_order (l : list schedule) :
  NoDup (map id l) -> NoDup (map id (order_by_time l)).
Proof.
  induction l as [|r l IH]; simpl; [constructor|].
  intros Hn. inversion Hn as [|? ? Hnotin Hn']; subst.
  apply NoDup_ids_insert; auto.
  intros Hin. apply Hnotin. apply in_map_iff in Hin.
  destruct Hin as [x [Hx Hin]]. apply (proj1 (In_order_by_time x l)) in Hin.
  rewrite <- Hx. apply in_map. exact Hin.
Qed.

Lemma NoDup_ids_getPending (now : Z) (t : table) :
  wf t -> NoDup (map id (getPending now t)).
Proof.
  intros [Hn _]. unfold getPending.
  apply NoDup_ids_order, NoDup_ids_filter. exact Hn.
Qed.

End RepositoryFacts.

(** ** Every event of the server keeps a settled id settled *)

Section ServerFacts.

Import ScheduleDb Server Lifecycle.

Ltac break_match :=
  match goal with
  | |- context [match ?x with _ => _ end] => destruct x eqn:?
  | |- context [if ?b then _ else _] => destruct b eqn:?
  end.

Lemma settled_record_one (i : Z) (d : scheduleData) (t : table) :
  settled i t -> settled i (snd (record_one d t)).
Proof.
  intros H. unfold record_one.
  pose proof (settled_create i d t H) as Hc.
  destruct (create d t) as [[s|] t']; simpl in *; trivial.
  apply settled_updateStatus_completed. exact Hc.
Qed.

Lemma settled_record_group (i : Z) (d : scheduleData) (devs : list device)
    (t : table) :
  settled i t -> settled i (record_group d devs t).
Proof.
  revert t. induction devs as [|x devs IH]; intros t H; simpl; trivial.
  pose proof (settled_record_one i d t H) as H1.
  destruct (record_one d t) as [ok t']; simpl in *.
  destruct ok; auto.
Qed.

Lemma settled_create_each (i : Z) (d : scheduleData) (devs : list device)
    (t : table) (acc : list schedule) :
  settled i t -> settled i (snd (create_each d devs t acc)).
Proof.
  revert t acc. induction devs as [|x devs IH]; intros t acc H; simpl; trivial.
  pose proof (settled_create i d t H) as H1.
  destruct (create d t) as [[s|] t']; simpl in *; auto.
Qed.

Lemma settled_post (i u : Z) (b : scheduleBody) (st : state) :
  settled i (schedules st) ->
  settled i (schedules (snd (schedule_post u b st))).
Proof.
  intros H. unfold schedule_post.
  destruct (s_imageUrl b) as [imageUrl|]; [|exact H].
  destruct (s_scheduledTime b) as [t|]; [|exact H].
  destruct (negb (Js.truthy_str (Some imageUrl))); [exact H|].
  destruct (Js.truthy (s_groupId b) && s_uploadedFromGroup b).
  - destruct (getSelectionGroupWithDevices _ u st) as [[g devs]|]; [|exact H].
    destruct devs as [|d devs]; [exact H|].
    pose proof (settled_create_each i (data_of_body imageUrl t b) (d :: devs)
                  (schedules st) [] H) as Hc.
    destruct (create_each (data_of_body imageUrl t b) (d :: devs)
                (schedules st) []) as [[created|] tbl]; exact Hc.
  - destruct (post_conflict_check t u b (schedules st)); [exact H|].
    pose proof (settled_create i (data_of_body imageUrl t b) (schedules st) H)
      as Hc.
    destruct (create (data_of_body imageUrl t b) (schedules st))
      as [[s|] tbl]; exact Hc.
Qed.

Lemma settled_put (i now u j : Z) (b : updateBody) (st : state) :
  settled i (schedules st) ->
  settled i (schedules (snd (fst (schedule_put now u j b st)))).
Proof.
  intros H. unfold schedule_put. cbv zeta.
  pose proof (settled_update i j (mkUpdates None None None) (schedules st) H)
    as Hu.
  destruct ((match p_scheduledTime b with Some _ => true | None => false end)
            || Js.truthy (p_duration b));
    [destruct (put_conflict_check u j b (schedules st)) as [[|]|]|];
    try exact H;
    unfold put_update;
    (destruct (update j (mkUpdates None None None) (schedules st))
       as [[s|] tbl]; [|exact Hu]);
    (destruct ((scheduled_time s <=? now) && is_pending s); [|exact Hu]);
    exact (settled_updateStatus_completed i (id s) tbl Hu).
Qed.

Lemma settled_delete_request (i now u j : Z) (st : state) :
  settled i (schedules st) ->
  settled i (schedules (snd (fst (schedule_delete now u j st)))).
Proof.
  intros H. unfold schedule_delete.
  pose proof (settled_delete i j (schedules st) H) as Hd.
  destruct (delete j (schedules st)) as [[s|] tbl]; exact Hd.
Qed.

Lemma settled_display_now (i now u : Z) (b : displayNowBody) (st : state) :
  settled i (schedules st) ->
  settled i (schedules (snd (fst (display_now now u b st)))).
Proof.
  intros H. unfold display_now.
  destruct (n_imageUrl b) as [imageUrl|]; [|exact H].
  destruct (negb (Js.truthy_str (Some imageUrl))); [exact H|].
  destruct (resolve_targets u b _ st) as [[sent devs]|]; [|exact H].
  destruct (Nat.eqb (List.length sent) 0); [exact H|].
  destruct (Js.truthy (n_groupId b) && n_uploadedFromGroup b).
  - apply settled_record_group. exact H.
  - apply settled_record_one. exact H.
Qed.

Lemma settled_bookkeeping (i : Z) (s : schedule) (t : table) :
  id s <> i -> settled i t -> settled i (repeat_bookkeeping s t).
Proof.
  intros Hne H. unfold repeat_bookkeeping, nextTime.
  destruct (repeat_type s);
    [apply settled_updateStatus_completed; exact H
    |apply settled_reschedule_other; trivial ..].
Qed.

Lemma settled_fire (i now u : Z) (acc : state * list emission) (s : schedule) :
  id s <> i -> settled i (schedules (fst acc)) ->
  settled i (schedules (fst (fire now u acc s))).
Proof.
  intros Hne H. destruct acc as [st out]. simpl in *.
  apply settled_bookkeeping; trivial.
Qed.

Lemma settled_fire_all (i now u : Z) (l : list schedule)
    (acc : state * list emission) :
  (forall s, In s l -> id s <> i) -> settled i (schedules (fst acc)) ->
  settled i (schedules (fst (fold_left (fire now u) l acc))).
Proof.
  revert acc. induction l as [|s l IH]; intros acc Hl H; simpl; trivial.
  apply IH.
  - intros x Hx. apply Hl. right. exact Hx.
  - apply settled_fire; trivial. apply Hl. left. reflexivity.
Qed.

Lemma settled_sweep_user (i now u : Z) (acc : state * list emission) :
  settled i (schedules (fst acc)) ->
  settled i (schedules (fst (sweep_user now acc u))).
Proof.
  intros H. unfold sweep_user, pendingSchedules_for.
  apply settled_fire_all; trivial.
  intros s Hin. exact (settled_not_pending i now _ s H Hin).
Qed.

Lemma settled_sweep_users (i now : Z) (users : list Z)
    (acc : state * list emission) :
  settled i (schedules (fst acc)) ->
  settled i (schedules (fst (fold_left (sweep_user now) users acc))).
Proof.
  revert acc. induction users as [|u users IH]; intros acc H; simpl; trivial.
  apply IH. apply settled_sweep_user. exact H.
Qed.

Lemma schedules_expire_current (now : Z) (st : state) :
  schedules (expire_current now st) = schedules st.
Proof.
  unfold expire_current. destruct (currentContent st) as [c|]; trivial.
  destruct (clearAt c <=? now); reflexivity.
Qed.

Lemma settled_sweep (i now : Z) (st : state) :
  settled i (schedules st) -> settled i (schedules (fst (sweep now st))).
Proof.
  intros H. unfold sweep.
  pose proof (settled_sweep_users i now (activeUserIds (connectedDisplays st))
                (st, []) H) as Hs.
  destruct (fold_left (sweep_user now) (activeUserIds (connectedDisplays st))
              (st, [])) as [st' out].
  simpl. rewrite schedules_expire_current. exact Hs.
Qed.

Lemma schedules_register (now : Z) (socket : string) (d : registerData)
    (st : state) :
  schedules (fst (register_display now socket d st)) = schedules st.
Proof.
  unfold register_display.
  destruct (r_serialNumber d) as [serial|]; trivial.
  destruct (negb (Js.truthy_str (Some serial))); trivial.
  destruct (getDeviceBySerial serial st) as [dev|]; trivial.
  destruct (user_id dev) as [owner|]; trivial.
  destruct (negb (is_paired dev) || negb (Js.truthy (Some owner))); trivial.
  match goal with
  | |- context [activeLayout ?a ?b ?c] => destruct (activeLayout a b c)
  end.
  - simpl. destruct (r_timezone d) as [tz|]; trivial.
    destruct (Js.truthy_str (Some tz)); reflexivity.
  - match goal with
    | |- context [deviceSchedules_for ?a ?b ?c ?e] =>
        destruct (deviceSchedules_for a b c e)
    end; simpl; destruct (r_timezone d) as [tz|]; trivial;
      destruct (Js.truthy_str (Some tz)); reflexivity.
Qed.

(** One event keeps a settled id settled. *)
Lemma settled_step (i : Z) (st st' : state) :
  step st st' -> settled i (schedules st) -> settled i (schedules st').
Proof.
  intros Hstep H. destruct Hstep.
  - apply settled_post. exact H.
  - apply settled_put. exact H.
  - apply settled_delete_request. exact H.
  - apply settled_display_now. exact H.
  - apply settled_sweep. exact H.
  - rewrite schedules_register. exact H.
  - exact H.
  - apply settled_filter. exact H.
Qed.

Lemma settled_steps (i : Z) (st st' : state) :
  steps st st' -> settled i (schedules st) -> settled i (schedules st').
Proof.
  intros Hsteps. induction Hsteps as [st|st st1 st2 Hstep _ IH]; trivial.
  intros H. apply IH. exact (settled_step i st st1 Hstep H).
Qed.

(** *** Every event keeps the schedule table well formed *)

Lemma wf_updateStatus (j : Z) (s : lifecycle) (t : table) :
  wf t -> wf (snd (updateStatus j s t)).
Proof. intros H. unfold updateStatus. simpl. apply wf_update_where; trivial. Qed.

Lemma wf_reschedule (j n : Z) (t : table) :
  wf t -> wf (snd (reschedule j n t)).
Proof. intros H. unfold reschedule. simpl. apply wf_update_where; trivial. Qed.

Lemma wf_update (j : Z) (u : updates) (t : table) :
  wf t -> wf (snd (update j u t)).
Proof. intros H. unfold update. simpl. apply wf_update_where; trivial. Qed.

Lemma wf_record_one (d : scheduleData) (t : table) :
  wf t -> wf (snd (record_one d t)).
Proof.
  intros H. unfold record_one.
  pose proof (wf_create d t H) as Hc.
  destruct (create d t) as [[s|] t']; simpl in *; trivial.
  apply wf_updateStatus. exact Hc.
Qed.

Lemma wf_record_group (d : scheduleData) (devs : list device) (t : table) :
  wf t -> wf (record_group d devs t).
Proof.
  revert t. induction devs as [|x devs IH]; intros t H; simpl; trivial.
  pose proof (wf_record_one d t H) as H1.
  destruct (record_one d t) as [ok t']; simpl in *.
  destruct ok; auto.
Qed.

Lemma wf_create_each (d : scheduleData) (devs : list device) (t : table)
    (acc : list schedule) :
  wf t -> wf (snd (create_each d devs t acc)).
Proof.
  revert t acc. induction devs as [|x devs IH]; intros t acc H; simpl; trivial.
  pose proof (wf_create d t H) as H1.
  destruct (create d t) as [[s|] t']; simpl in *; auto.
Qed.

Lemma wf_bookkeeping (s : schedule) (t : table) :
  wf t -> wf (repeat_bookkeeping s t).
Proof.
  intros H. unfold repeat_bookkeeping, nextTime.
  destruct (repeat_type s);
    [apply wf_updateStatus; exact H|apply wf_reschedule; exact H ..].
Qed.

Lemma wf_fire_all (now u : Z) (l : list schedule) (acc : state * list emission) :
  wf (schedules (fst acc)) ->
  wf (schedules (fst (fold_left (fire now u) l acc))).
Proof.
  revert acc. induction l as [|s l IH]; intros acc H; simpl; trivial.
  apply IH. destruct acc as [st out]. simpl in *.
  apply wf_bookkeeping. exact H.
Qed.

Lemma wf_sweep_users (now : Z) (users : list Z) (acc : state * list emission) :
  wf (schedules (fst acc)) ->
  wf (schedules (fst (fold_left (sweep_user now) users acc))).
Proof.
  revert acc. induction users as [|u users IH]; intros acc H; simpl; trivial.
  apply IH. unfold sweep_user. apply wf_fire_all. exact H.
Qed.

Lemma wf_step (st st' : state) :
  step st st' -> wf (schedules st) -> wf (schedules st').
Proof.
  intros Hstep H. destruct Hstep.
  - unfold schedule_post.
    destruct (s_imageUrl b) as [imageUrl|]; [|exact H].
    destruct (s_scheduledTime b) as [t|]; [|exact H].
    destruct (negb (Js.truthy_str (Some imageUrl))); [exact H|].
    destruct (Js.truthy (s_groupId b) && s_uploadedFromGroup b).
    + destruct (getSelectionGroupWithDevices _ u st) as [[g devs]|]; [|exact H].
      destruct devs as [|d devs]; [exact H|].
      pose proof (wf_create_each (data_of_body imageUrl t b) (d :: devs)
                    (schedules st) [] H) as Hc.
      destruct (create_each (data_of_body imageUrl t b) (d :: devs)
                  (schedules st) []) as [[created|] tbl]; exact Hc.
    + destruct (post_conflict_check t u b (schedules st)); [exact H|].
      pose proof (wf_create (data_of_body imageUrl t b) (schedules st) H) as Hc.
      destruct (create (data_of_body imageUrl t b) (schedules st))
        as [[s|] tbl]; exact Hc.
  - unfold schedule_put. cbv zeta.
    pose proof (wf_update i (mkUpdates None None None) (schedules st) H) as Hu.
    destruct ((match p_scheduledTime b with Some _ => true | None => false end)
              || Js.truthy (p_duration b));
      [destruct (put_conflict_check u i b (schedules st)) as [[|]|]|];
      try exact H;
      unfold put_update;
      (destruct (update i (mkUpdates None None None) (schedules st))
         as [[s|] tbl]; [|exact Hu]);
      (destruct ((scheduled_time s <=? now) && is_pending s); [|exact Hu]);
      exact (wf_updateStatus (id s) completed tbl Hu).
  - unfold schedule_delete.
    pose proof (wf_filter (fun r => negb (id r =? i)) (schedules st) H) as Hd.
    unfold delete.
    destruct (returning i (schedules st)); exact Hd.
  - unfold display_now.
    destruct (n_imageUrl b) as [imageUrl|]; [|exact H].
    destruct (negb (Js.truthy_str (Some imageUrl))); [exact H|].
    destruct (resolve_targets u b _ st) as [[sent devs]|]; [|exact H].
    destruct (Nat.eqb (List.length sent) 0); [exact H|].
    destruct (Js.truthy (n_groupId b) && n_uploadedFromGroup b).
    + apply wf_record_group. exact H.
    + apply wf_record_one. exact H.
  - unfold sweep.
    pose proof (wf_sweep_users now (activeUserIds (connectedDisplays st))
                  (st, []) H) as Hs.
    destruct (fold_left (sweep_user now) (activeUserIds (connectedDisplays st))
                (st, [])) as [st' out].
    simpl. rewrite schedules_expire_current. exact Hs.
  - rewrite schedules_register. exact H.
  - exact H.
  - apply wf_filter. exact H.
Qed.

(** Every state the server reaches from a well-formed table has one. *)
Lemma wf_steps (st st' : state) :
  steps st st' -> wf (schedules st) -> wf (schedules st').
Proof.
  intros Hsteps. induction Hsteps as [st|st st1 st2 Hstep _ IH]; trivial.
  intros H. apply IH. exact (wf_step st st1 Hstep H).
Qed.

Lemma wf_initial : wf (schedules initial).
Proof. exact wf_empty. Qed.

(** *** Inside one sweep, each entry fired is still due and pending *)

Lemma rows_bookkeeping_other (x s : schedule) (t : table) :
  id x <> id s -> In s (rows t) -> In s (rows (repeat_bookkeeping x t)).
Proof.
  intros Hne Hin.
  assert (Hkeep : forall f, In s (rows (update_where (id x) f t))).
  { intros f. unfold update_where. simpl. apply in_map_iff. exists s.
    split; trivial. destruct (id s =? id x) eqn:E; trivial.
    apply Z.eqb_eq in E. congruence. }
  unfold repeat_bookkeeping, nextTime.
  destruct (repeat_type x); simpl; apply Hkeep.
Qed.

Lemma fire_all_keeps_due (now u : Z) (s : schedule) (l : list schedule)
    (acc : state * list emission) :
  (forall x, In x l -> id x <> id s) ->
  In s (getPending now (schedules (fst acc))) ->
  In s (getPending now (schedules (fst (fold_left (fire now u) l acc)))).
Proof.
  revert acc. induction l as [|x l IH]; intros acc Hl H; simpl; trivial.
  apply IH.
  - intros y Hy. apply Hl. right. exact Hy.
  - destruct acc as [st out]. simpl in *.
    apply getPending_In in H. apply getPending_In.
    destruct H as (Hin & Hp & Hdue). repeat split; trivial.
    apply rows_bookkeeping_other; trivial. apply Hl. left. reflexivity.
Qed.

(** When the inner loop of the sweep reaches an entry of the list it
    fetched, the entry is on the list of due entries of the table as it
    is at that moment. *)
Lemma sweep_user_fires_due_entries (now u : Z) (st : state)
    (out : list emission) (before after : list schedule) (s : schedule) :
  wf (schedules st) ->
  pendingSchedules_for u now (schedules st) = before ++ s :: after ->
  In s (getPending now
          (schedules (fst (fold_left (fire now u) before (st, out))))).
Proof.
  intros Hwf Hlist. unfold pendingSchedules_for in Hlist.
  pose proof (NoDup_ids_getPending now (schedules st) Hwf) as Hn.
  rewrite Hlist, map_app in Hn. simpl in Hn.
  apply NoDup_remove_2 in Hn.
  apply fire_all_keeps_due.
  - intros x Hx Hid. apply Hn. apply in_or_app. left.
    rewrite <- Hid. apply in_map. exact Hx.
  - simpl. rewrite Hlist. apply in_or_app. right. left. reflexivity.
Qed.

End ServerFacts.

(** C5. When the sweep fires a due entry of a well-formed table: a [once]
    entry becomes [completed] and is on no list of due entries fetched
    after any later events of the server; a daily, weekly, monthly or
    yearly entry stays [pending], everything else as it was, with its
    instant later by exactly 86 400 000 ms (24 hours), 604 800 000 ms
    (7 days), 2 592 000 000 ms (30 days) or 31 536 000 000 ms (365 days). *)
Theorem C5_repeat_bookkeeping :
  forall (now u : Z) (st : Server.state) (out : list Server.emission)
         (s : ScheduleDb.schedule),
    Lifecycle.wf (Server.schedules st) ->
    In s (ScheduleDb.getPending now (Server.schedules st)) ->
    let st' := fst (Server.fire now u (st, out) s) in
    match ScheduleDb.repeat_type s with
    | ScheduleDb.once =>
        ScheduleDb.returning (ScheduleDb.id s) (Server.schedules st')
        = Some (Lifecycle.with_status s ScheduleDb.completed)
        /\ forall st'' now' r,
            Lifecycle.steps st' st'' ->
            In r (ScheduleDb.getPending now' (Server.schedules st'')) ->
            ScheduleDb.id r <> ScheduleDb.id s
    | ScheduleDb.daily =>
        ScheduleDb.returning (ScheduleDb.id s) (Server.schedules st')
        = Some (Lifecycle.moved s 86400000)
    | ScheduleDb.weekly =>
        ScheduleDb.returning (ScheduleDb.id s) (Server.schedules st')
        = Some (Lifecycle.moved s 604800000)
    | ScheduleDb.monthly =>
        ScheduleDb.returning (ScheduleDb.id s) (Server.schedules st')
        = Some (Lifecycle.moved s 2592000000)
    | ScheduleDb.yearly =>
        ScheduleDb.returning (ScheduleDb.id s) (Server.schedules st')
        = Some (Lifecycle.moved s 31536000000)
    end.
Proof.
  intros now u st out s [Hn Hb] Hin st'.
  apply getPending_In in Hin. destruct Hin as (Hin & Hp & _).
  unfold st'. simpl. unfold Server.repeat_bookkeeping, Server.nextTime.
  destruct (ScheduleDb.repeat_type s) eqn:Hrep; simpl.
  - split.
    + unfold ScheduleDb.updateStatus. simpl.
      rewrite returning_update_where; trivial.
    + intros st'' now' r Hsteps Hr.
      apply (settled_not_pending (ScheduleDb.id s) now' (Server.schedules st''));
        trivial.
      apply (settled_steps _ _ _ Hsteps). simpl.
      split; simpl.
      * apply Hb. exact Hin.
      * intros x Hx Hid. apply in_map_iff in Hx.
        destruct Hx as [x0 [<- Hx0]].
        destruct (ScheduleDb.id x0 =? ScheduleDb.id s) eqn:E; simpl.
        -- discriminate.
        -- simpl in Hid. apply Z.eqb_neq in E. contradiction.
  - unfold ScheduleDb.reschedule. simpl.
    rewrite returning_update_where; trivial.
  - unfold ScheduleDb.reschedule. simpl.
    rewrite returning_update_where; trivial.
  - unfold ScheduleDb.reschedule. simpl.
    rewrite returning_update_where; trivial.
  - unfold ScheduleDb.reschedule. simpl.
    rewrite returning_update_where; trivial.
Qed.

(** C5 at a daily entry due at 1000, fired at 2000. *)
Lemma C5_witness_daily :
  ScheduleDb.returning 1
    (Server.schedules
       (fst (Server.fire 2000 1 (Lifecycle.with_daily_entry, [])
               Lifecycle.daily_entry)))
  = Some (Lifecycle.moved Lifecycle.daily_entry 86400000).
Proof.
  apply (C5_repeat_bookkeeping 2000 1 Lifecycle.with_daily_entry []
           Lifecycle.daily_entry).
  - split; simpl.
    + repeat constructor. simpl. tauto.
    + intros r [<-|[]]. simpl. lia.
  - simpl. left. reflexivity.
Defined.

(** ** The conflict check as the multi-tenant server calls it *)

Section CallSiteFacts.

Import ScheduleDb Server.

Lemma intersect_sym (a b c d : Z) :
  Windows.intersect a b c d -> Windows.intersect c d a b.
Proof. intros [x [H1 H2]]. exists x. tauto. Qed.

(** A window shares no instant with a row when a longer window with the
    same start does not. *)
Lemma intersect_shorter (t d e s len : Z) :
  d <= e -> Windows.intersect t d s len -> Windows.intersect t e s len.
Proof. intros Hle [x [H1 H2]]. exists x. split; [lia|exact H2]. Qed.

(** What the database tests when it answers "no conflict": the window
    with its end displaced by [skew]. *)
Lemma sent_accepted_is_clear_displaced (skew t d : Z) (ex : option Z)
    (tbl : table) (r : schedule) :
  hasConflict_sent skew t d ex tbl = false ->
  In r (rows tbl) -> Windows.considered ex r ->
  ~ Windows.intersect t (d + skew) (scheduled_time r) (duration r).
Proof.
  rewrite hasConflict_sent_displaced, hasConflict_existsb.
  intros Hno Hin Hc Hint.
  assert (Hrow : conflict_row t (t + (d + skew)) ex r = true).
  { apply conflict_row_iff. split; trivial.
    apply intersect_clauses. exact Hint. }
  assert (Hex : existsb (conflict_row t (t + (d + skew)) ex) (rows tbl) = true)
    by (apply existsb_exists; exists r; auto).
  congruence.
Qed.

(** With an end that is not read earlier than it is, "no conflict"
    means that the candidate window itself is clear. *)
Lemma sent_accepted_is_clear (skew t d : Z) (ex : option Z) (tbl : table)
    (r : schedule) :
  0 <= skew ->
  hasConflict_sent skew t d ex tbl = false ->
  In r (rows tbl) -> Windows.considered ex r ->
  ~ Windows.intersect t d (scheduled_time r) (duration r).
Proof.
  intros Hs Hno Hin Hc Hint.
  apply (sent_accepted_is_clear_displaced skew t d ex tbl r Hno Hin Hc).
  apply (intersect_shorter t d (d + skew)); [lia|exact Hint].
Qed.

(** Creating what the check accepted, when the check is called the way
    [database.js] declares it and the end of the candidate is not read
    earlier than it is, keeps the pending windows apart. *)
Lemma sent_create_keeps_disjoint (skew : Z) (d : scheduleData) (tbl : table) :
  0 <= skew ->
  Lifecycle.wf tbl -> Windows.disjoint tbl ->
  hasConflict_sent skew (scheduledTime d) (Js.or_default (d_duration d) 60000)
    None tbl = false ->
  Windows.disjoint (snd (create d tbl)).
Proof.
  intros Hs [_ Hb] Hd Hno.
  assert (Hclear : forall r, In r (rows tbl) -> status r = pending ->
            ~ Windows.intersect (scheduledTime d)
                (Js.or_default (d_duration d) 60000)
                (scheduled_time r) (duration r)).
  { intros r Hin Hp.
    apply (sent_accepted_is_clear skew _ _ None tbl r Hs Hno Hin).
    split; [exact Hp|intros x; discriminate]. }
  unfold create.
  match goal with |- context [insertable ?r] => destruct (insertable r) end;
    [|match goal with |- context [typed ?r] => destruct (typed r) end];
    simpl; [|exact Hd|exact Hd].
  intros r1 r2 H1 H2 Hne Hp1 Hp2. simpl in H1, H2.
  apply in_app_iff in H1. apply in_app_iff in H2.
  destruct H1 as [H1|[<-|[]]]; destruct H2 as [H2|[<-|[]]]; simpl in *.
  - apply Hd; trivial.
  - intros Hint. apply intersect_sym in Hint.
    exact (Hclear r1 H1 Hp1 Hint).
  - exact (Hclear r2 H2 Hp2).
  - congruence.
Qed.

(** For any pending entry of positive duration whose id is not the
    caller's user id, re-submitting the entry's own window to the update
    check is refused. *)
Lemma put_check_refuses_own_window (u : Z) (tbl : table) (r : schedule) :
  In r (rows tbl) -> status r = pending -> id r <> u -> 0 < duration r ->
  put_conflict_check u (id r)
    (mkUpdateBody (Some (scheduled_time r)) (Some (duration r)) None) tbl
  = Some true.
Proof.
  intros Hin Hp Hne Hd. unfold put_conflict_check, hasConflict_call. simpl.
  f_equal. rewrite hasConflict_existsb. apply existsb_exists.
  exists r. split; trivial. apply conflict_row_iff. split.
  - split; trivial. intros x [= <-]. exact Hne.
  - left. lia.
Qed.

(** The check made on creation skips the pending entry whose id is the caller's
    user id: a request for that entry's window passes when no other row
    is pending. *)
Lemma post_check_skips_row_with_user_id (u t : Z) (b : scheduleBody)
    (tbl : table) :
  (forall r, In r (rows tbl) -> status r = pending -> id r = u) ->
  post_conflict_check t u b tbl = false.
Proof.
  intros H. unfold post_conflict_check. rewrite hasConflict_existsb.
  destruct (existsb _ (rows tbl)) eqn:E; trivial.
  apply existsb_exists in E. destruct E as [r [Hin Hrow]].
  apply conflict_row_iff in Hrow. destruct Hrow as [[Hp Hex] _].
  exfalso. apply (Hex u); trivial. apply H; trivial.
Qed.

End CallSiteFacts.

(** C1, evaluated where it fails. User 1 sends the same schedule request
    twice to an empty server. The check of POST /api/schedule hands the
    user id to [hasConflict] in the position of [excludeId], so the second
    check skips the row with id 1, which is the first entry: both
    requests pass the check and are answered with the created row, and
    the table then holds two pending entries of that user with the same
    window. *)
Theorem C1_checked_creates_overlap :
  exists r1 r2 st2,
    Server.schedule_post 1 (Dispatch.schedule_at 1000) Server.initial
    = (Server.SuccessSchedule r1, Scenario.one_entry)
    /\ Server.post_conflict_check 1000 1 (Dispatch.schedule_at 1000)
         (Server.schedules Scenario.one_entry) = false
    /\ Server.schedule_post 1 (Dispatch.schedule_at 1000) Scenario.one_entry
       = (Server.SuccessSchedule r2, st2)
    /\ ScheduleDb.rows (Server.schedules st2) = [r1; r2]
    /\ ScheduleDb.id r1 <> ScheduleDb.id r2
    /\ ScheduleDb.status r1 = ScheduleDb.pending
    /\ ScheduleDb.status r2 = ScheduleDb.pending
    /\ Windows.overlap (ScheduleDb.scheduled_time r1) (ScheduleDb.duration r1)
         (ScheduleDb.scheduled_time r2) (ScheduleDb.duration r2)
    /\ ScheduleDb.hasConflict 1000 60000 None
         (Server.schedules Scenario.one_entry) = true.
Proof.
  do 3 eexists.
  split; [reflexivity|].
  split; [reflexivity|].
  split; [reflexivity|].
  split; [reflexivity|].
  split; [simpl; lia|].
  split; [reflexivity|].
  split; [reflexivity|].
  split; [unfold Windows.overlap; simpl; lia|reflexivity].
Qed.

(** C2, evaluated where it fails. With two pending entries of user 1 (ids
    1 and 2, at 1000 and 100000), user 1 moves entry 2 by one second: the
    check of PUT /api/schedule/:id passes the user id where [excludeId] is
    expected and the schedule id in a fourth position the callee does not
    have, so entry 2 is tested against its own window and the request is
    refused with 409, although the check with entry 2 excluded finds no
    conflict. And the test is not limited to one owner: user 2's request
    for the instant of user 1's entry is refused with 409. *)
Theorem C2_check_excludes_user_id_not_entry :
  fst (fst (Server.schedule_put 0 1 2 (Scenario.move_to 101000)
              Scenario.two_entries))
  = Server.Error 409 "Schedule conflict detected"
  /\ Server.put_conflict_check 1 2 (Scenario.move_to 101000)
       (Server.schedules Scenario.two_entries)
     = Some (ScheduleDb.hasConflict 101000 60000 (Some 1)
               (Server.schedules Scenario.two_entries))
  /\ ScheduleDb.hasConflict 101000 60000 (Some 2)
       (Server.schedules Scenario.two_entries) = false
  /\ map ScheduleDb.id (ScheduleDb.rows (Server.schedules Scenario.two_entries))
     = [1; 2]
  /\ fst (Server.schedule_post 2 (Dispatch.schedule_at 1000) Scenario.one_entry)
     = Server.Error 409 "Schedule conflict detected".
Proof. repeat split; reflexivity. Qed.

(** ** The sweep *)

Section SweepFacts.

Import Server.

Lemma Set_add_In (acc : list Z) (x y : Z) :
  In y (Set_add acc x) <-> In y acc \/ y = x.
Proof.
  unfold Set_add. destruct (existsb (Z.eqb x) acc) eqn:E.
  - split; [tauto|]. intros [H| ->]; trivial.
    apply existsb_exists in E. destruct E as [z [Hz Hxz]].
    apply Z.eqb_eq in Hxz. subst z. exact Hz.
  - rewrite in_app_iff. simpl. intuition congruence.
Qed.

Lemma Set_add_NoDup (acc : list Z) (x : Z) :
  NoDup acc -> NoDup (Set_add acc x).
Proof.
  intros Hn. unfold Set_add. destruct (existsb (Z.eqb x) acc) eqn:E; trivial.
  apply NoDup_app; trivial.
  - repeat constructor. simpl. tauto.
  - intros y Hy [<-|[]].
    assert (existsb (Z.eqb x) acc = true)
      by (apply existsb_exists; exists x; split; [exact Hy|apply Z.eqb_refl]).
    congruence.
Qed.

Lemma fold_Set_add (l acc : list Z) :
  NoDup acc ->
  NoDup (fold_left Set_add l acc)
  /\ forall y, In y (fold_left Set_add l acc) <-> In y acc \/ In y l.
Proof.
  revert acc. induction l as [|x l IH]; intros acc Hn; simpl.
  - split; [exact Hn|tauto].
  - destruct (IH (Set_add acc x) (Set_add_NoDup acc x Hn)) as [H1 H2].
    split; [exact H1|]. intros y. rewrite H2, Set_add_In.
    intuition congruence.
Qed.

(** The sweep visits each owner present in the registry, once. *)
Lemma activeUserIds_exact (m : Registry.t) :
  NoDup (activeUserIds m)
  /\ forall u, In u (activeUserIds m)
               <-> exists serial info, In (serial, info) m
                                       /\ Registry.userId info = u.
Proof.
  unfold activeUserIds.
  destruct (fold_Set_add (map Registry.userId (Registry.values m)) [])
    as [H1 H2]; [constructor|].
  split; [exact H1|]. intros u. rewrite H2. unfold Registry.values.
  rewrite map_map, in_map_iff. simpl. split.
  - intros [[]|[[k v] [Hu Hin]]]. exists k, v. auto.
  - intros [k [v [Hin Hu]]]. right. exists (k, v). auto.
Qed.


End SweepFacts.

(** C4, evaluated where it fails. Device "A" of user 1 is connected and
    user 2, with no display connected, has one due pending entry. The
    sweep visits the owners present in the registry, here user 1 alone;
    its fetch for user 1 calls [getPending] with the user id, which
    [getPending] does not take, so the fetch returns user 2's entry; the
    entry is pushed to user 1's display, logged and marked completed. *)
Theorem C4_sweep_fetches_other_owners_entries :
  Server.activeUserIds (Server.connectedDisplays Scenario.user2_scheduled) = [1]
  /\ ScheduleDb.rows (Server.schedules Scenario.user2_scheduled)
     = [Scenario.user2_row]
  /\ Server.pendingSchedules_for 1 2000 (Server.schedules Scenario.user2_scheduled)
     = [Scenario.user2_row]
  /\ snd (Server.sweep 2000 Scenario.user2_scheduled)
     = [("socket-1"%string,
         Server.DisplayContent (Server.content_of_schedule 2000 Scenario.user2_row))]
  /\ ScheduleDb.rows (Server.schedules (fst (Server.sweep 2000 Scenario.user2_scheduled)))
     = [Lifecycle.with_status Scenario.user2_row ScheduleDb.completed].
Proof. repeat split; reflexivity. Qed.

(** ** The conflict check as the earlier server calls it *)

Section LegacyFacts.

Import ScheduleDb.

(** Called with no excluded id, the check keeps pending windows apart. *)
Lemma legacy_post_keeps_disjoint (skew : Z) (b : Server.scheduleBody)
    (tbl : table) :
  0 <= skew ->
  Lifecycle.wf tbl -> Windows.disjoint tbl ->
  Windows.disjoint (snd (LegacyServer.schedule_post skew b tbl)).
Proof.
  intros Hs Hwf Hd. unfold LegacyServer.schedule_post.
  destruct (Server.s_imageUrl b) as [imageUrl|]; [|exact Hd].
  destruct (Server.s_scheduledTime b) as [t|]; [|exact Hd].
  destruct (negb (Js.truthy_str (Some imageUrl))); [exact Hd|].
  destruct (hasConflict_sent skew t (Js.or_default (Server.s_duration b) 60000)
              None tbl)
    eqn:Hc; [exact Hd|].
  pose proof (sent_create_keeps_disjoint skew
                (Server.data_of_body imageUrl t b) tbl Hs Hwf Hd) as Hk.
  assert (Hsame : Js.or_default (Some (Js.or_default (Server.s_duration b) 60000))
                    60000
                  = Js.or_default (Server.s_duration b) 60000).
  { unfold Js.or_default. destruct (Server.s_duration b) as [v|]; simpl; trivial.
    destruct (v =? 0) eqn:E; simpl; trivial. rewrite E. trivial. }
  assert (Hcheck : hasConflict_sent skew
                    (scheduledTime (Server.data_of_body imageUrl t b))
                    (Js.or_default
                       (d_duration (Server.data_of_body imageUrl t b)) 60000)
                    None tbl = false).
  { unfold Server.data_of_body. cbn [scheduledTime d_duration].
    rewrite Hsame. exact Hc. }
  specialize (Hk Hcheck).
  destruct (create (Server.data_of_body imageUrl t b) tbl) as [[s|] tbl'];
    exact Hk.
Qed.

(** Called with the id of the entry being updated, the check leaves that
    entry's own window out of the test. *)
Lemma legacy_put_check_ignores_own_window :
  LegacyServer.put_conflict_check 0 2 (Scenario.move_to 101000)
    (Server.schedules Scenario.two_entries) = Some false.
Proof. reflexivity. Qed.

End LegacyFacts.

(** ** Registration of a display *)

Section RegistrationFacts.

Import Server.

(** A serial that is unknown, or known and not paired to a user, gets no
    registry entry and no message; nothing changes. *)
Lemma register_unknown_or_unpaired (now : Z) (socket : string)
    (d : registerData) (serial : string) (st : state) :
  r_serialNumber d = Some serial ->
  (getDeviceBySerial serial st = None
   \/ exists dev, getDeviceBySerial serial st = Some dev
                  /\ (is_paired dev = false \/ Js.truthy (user_id dev) = false)) ->
  register_display now socket d st = (st, []).
Proof.
  intros Hs H. unfold register_display. rewrite Hs.
  destruct (negb (Js.truthy_str (Some serial))); trivial.
  destruct H as [->|[dev [-> Hdev]]]; trivial.
  destruct (user_id dev) as [owner|]; trivial.
  destruct Hdev as [->| ->]; simpl; trivial.
  rewrite orb_true_r. reflexivity.
Qed.

Lemma activeLayout_set_registry (a u : Z) (m : Registry.t) (st : state) :
  activeLayout a u (set_registry m st) = activeLayout a u st.
Proof. reflexivity. Qed.

(** A paired device is entered in the registry under its serial, with
    the new session, and is sent at once its active layout if it has
    one, otherwise the head of the list the fetch returns, if any. *)
Lemma register_paired (now : Z) (socket : string) (d : registerData)
    (serial : string) (dev : device) (owner : Z) (st : state) :
  r_serialNumber d = Some serial -> serial <> EmptyString ->
  getDeviceBySerial serial st = Some dev ->
  is_paired dev = true -> user_id dev = Some owner -> owner <> 0 ->
  exists info,
    Registry.get serial
      (connectedDisplays (fst (register_display now socket d st))) = Some info
    /\ Registry.socketId info = socket
    /\ Registry.userId info = owner
    /\ Registry.deviceId info = dev_id dev
    /\ snd (register_display now socket d st)
       = match activeLayout (dev_id dev) owner st with
         | Some l =>
             [(socket,
               DisplayLayout
                 (mkLayoutPayload (layout_id l) (layout_name l) (template_id l)
                    (map (zone_with_media owner st) (zones l))))]
         | None =>
             match ScheduleDb.getPending now (schedules st) with
             | s :: _ => [(socket, DisplayContent (replay_content now s))]
             | [] => []
             end
         end.
Proof.
  intros Hs Hne Hdev Hp Hu Ho.
  unfold register_display. rewrite Hs.
  assert (Ht : Js.truthy_str (Some serial) = true)
    by (destruct serial; [congruence|reflexivity]).
  rewrite Ht, Hdev, Hu, Hp. simpl.
  apply Z.eqb_neq in Ho. rewrite Ho. simpl.
  destruct (r_timezone d) as [tz|];
    [destruct (Js.truthy_str (Some tz))|];
    (eexists;
     match goal with
     | |- context [activeLayout ?a ?o (set_registry ?m ?s1)] =>
         change (activeLayout a o (set_registry m s1))
           with (activeLayout a o st)
     end;
     destruct (activeLayout (dev_id dev) owner st) as [l|]; cbn [fst snd];
     [|unfold deviceSchedules_for;
       match goal with
       | |- context [ScheduleDb.getPending now (schedules ?s2)] =>
           change (schedules s2) with (schedules st)
       end;
       destruct (ScheduleDb.getPending now (schedules st))];
     cbn [fst snd connectedDisplays set_registry];
     rewrite get_set_same; repeat split; trivial).
Qed.

End RegistrationFacts.

(** C10, evaluated where it fails. User 2 has scheduled an image for
    device 20; device "A" (id 10) of user 1, which has no active layout,
    then registers. The handler fetches with
    [getPending(device.user_id, device.id)], but [getPending] takes no
    argument and returns every due pending row: the entry pushed to the
    new session of device "A" is user 2's entry for device 20. *)
Theorem C10_replay_pushes_another_owners_entry :
  Server.getDeviceBySerial "A" Scenario.user2_scheduled_first
  = Some (Server.mkDevice 10 "A" (Some 1) true (Some "Lobby"%string) None)
  /\ Server.schedule_post 2 Scenario.for_device_20 Dispatch.one_device
     = (Server.SuccessSchedule Scenario.user2_row, Scenario.user2_scheduled_first)
  /\ Server.deviceSchedules_for 1 10 2000
       (Server.schedules Scenario.user2_scheduled_first)
     = [Scenario.user2_row]
  /\ snd (Server.register_display 2000 "socket-1" (Dispatch.hello "A")
            Scenario.user2_scheduled_first)
     = [("socket-1"%string,
         Server.DisplayContent (Server.replay_content 2000 Scenario.user2_row))].
Proof. repeat split; reflexivity. Qed.

(* ===================================================================== *)
(** * Part IV: further properties of the code *)
(* ===================================================================== *)

(** ** The schedule repository, operation by operation *)

Section RepositoryOperations.

Import ScheduleDb RepositorySpec.

Lemma insert_by_time_ascending (r : schedule) (l : list schedule) :
  ascending l -> ascending (insert_by_time r l).
Proof.
  unfold ascending. induction l as [|x l IH]; simpl; intros Hs.
  - constructor; constructor.
  - destruct (scheduled_time r <=? scheduled_time x) eqn:E.
    + apply Z.leb_le in E. constructor; trivial.
      inversion Hs as [|? ? Hl Hx]; subst.
      constructor; trivial.
      rewrite Forall_forall in *. intros y Hy. specialize (Hx y Hy). lia.
    + apply Z.leb_gt in E. inversion Hs as [|? ? Hl Hx]; subst.
      constructor; [apply IH; exact Hl|].
      rewrite Forall_forall in *. intros y Hy.
      apply In_insert_by_time in Hy. destruct Hy as [->|Hy]; [lia|auto].
Qed.

Lemma order_by_time_ascending (l : list schedule) : ascending (order_by_time l).
Proof.
  induction l as [|x l IH]; simpl; [constructor|].
  apply insert_by_time_ascending. exact IH.
Qed.

Lemma insert_by_time_perm (r : schedule) (l : list schedule) :
  Permutation (insert_by_time r l) (r :: l).
Proof.
  induction l as [|x l IH]; simpl; [reflexivity|].
  destruct (scheduled_time r <=? scheduled_time x); [reflexivity|].
  rewrite IH. apply perm_swap.
Qed.

Lemma order_by_time_perm (l : list schedule) : Permutation (order_by_time l) l.
Proof.
  induction l as [|x l IH]; simpl; [reflexivity|].
  rewrite insert_by_time_perm. constructor. exact IH.
Qed.

End RepositoryOperations.

(** X1. [getPending] returns the pending rows whose instant is at or
    before the clock, each once and no other row, in ascending order of
    instant; [getAll] returns every row, in that order. *)
Theorem getPending_due_rows_in_order :
  forall (now : Z) (t : ScheduleDb.table),
    Permutation (ScheduleDb.getPending now t)
      (filter (RepositorySpec.due now) (ScheduleDb.rows t))
    /\ RepositorySpec.ascending (ScheduleDb.getPending now t)
    /\ (forall s, In s (ScheduleDb.getPending now t)
                  <-> In s (ScheduleDb.rows t)
                      /\ ScheduleDb.status s = ScheduleDb.pending
                      /\ ScheduleDb.scheduled_time s <= now)
    /\ Permutation (ScheduleDb.getAll t) (ScheduleDb.rows t)
    /\ RepositorySpec.ascending (ScheduleDb.getAll t).
Proof.
  intros now t.
  split; [apply order_by_time_perm|].
  split; [apply order_by_time_ascending|].
  split; [intros s; apply getPending_In|].
  split; [apply order_by_time_perm|apply order_by_time_ascending].
Qed.

Section RepositoryLookups.

Import ScheduleDb RepositorySpec.


Lemma returning_some_In (i : Z) (t : table) (r : schedule) :
  returning i t = Some r -> In r (rows t) /\ id r = i.
Proof.
  unfold returning. intros H. apply find_some in H.
  destruct H as [Hin Hid]. apply Z.eqb_eq in Hid. auto.
Qed.

(** With distinct ids, the row found by id is the row of that id. *)
Lemma returning_of_In (t : table) (r : schedule) :
  NoDup (map id (rows t)) -> In r (rows t) -> returning (id r) t = Some r.
Proof.
  unfold returning. induction (rows t) as [|x l IH]; simpl; [tauto|].
  intros Hn Hin. inversion Hn as [|? ? Hnotin Hn']; subst.
  destruct (id x =? id r) eqn:E.
  - apply Z.eqb_eq in E. destruct Hin as [->|Hin]; trivial.
    exfalso. apply Hnotin. rewrite E. apply in_map. exact Hin.
  - destruct Hin as [->|Hin]; [rewrite Z.eqb_refl in E; discriminate|auto].
Qed.

Lemma returning_app_old (i : Z) (l : list schedule) (r : schedule) (n m : Z) :
  id r <> i ->
  returning i (mkTable (l ++ [r]) n) = returning i (mkTable l m).
Proof.
  intros Hne. unfold returning. simpl. induction l as [|x l IH]; simpl.
  - destruct (id r =? i) eqn:E; trivial. apply Z.eqb_eq in E. contradiction.
  - destruct (id x =? i); trivial.
Qed.


Lemma map_keeps_all {A} (f : A -> A) (l : list A) :
  (forall x, In x l -> f x = x) -> map f l = l.
Proof.
  induction l as [|x l IH]; simpl; intros H; [reflexivity|].
  rewrite (H x) by (left; reflexivity). f_equal. apply IH.
  intros y Hy. apply H. right. exact Hy.
Qed.



(** An UPDATE by id leaves the rows of the other ids as they are. *)
Lemma update_where_others (i : Z) (f : schedule -> schedule) (t : table)
    (x : schedule) :
  (forall r, id (f r) = id r) -> id x <> i ->
  (In x (rows (update_where i f t)) <-> In x (rows t)).
Proof.
  intros Hf Hne. unfold update_where. simpl. rewrite in_map_iff. split.
  - intros [y [Hy Hin]]. destruct (id y =? i) eqn:E.
    + apply Z.eqb_eq in E. exfalso. apply Hne. rewrite <- Hy, Hf. exact E.
    + subst y. exact Hin.
  - intros Hin. exists x. split; trivial.
    destruct (id x =? i) eqn:E; trivial. apply Z.eqb_eq in E. contradiction.
Qed.

Lemma reschedule_others (i n : Z) (t : table) (x : schedule) :
  id x <> i -> (In x (rows (snd (reschedule i n t))) <-> In x (rows t)).
Proof.
  intros Hne. unfold reschedule. cbn [snd].
  apply update_where_others; trivial.
Qed.

Lemma updateStatus_others (i : Z) (s : lifecycle) (t : table) (x : schedule) :
  id x <> i -> (In x (rows (snd (updateStatus i s t))) <-> In x (rows t)).
Proof.
  intros Hne. unfold updateStatus. cbn [snd].
  apply update_where_others; trivial.
Qed.

End RepositoryLookups.





(** X5. [reschedule] sets the instant and forces the status to [pending]
    whatever the status was: in a table with distinct ids, a completed or
    cancelled row that is rescheduled is found again under its id as a
    pending row at the new instant and is on the list of due entries from
    that instant on, while [updateStatus(id, 'completed')] takes the row
    off every such list; the rows of other ids are listed as before. *)
Theorem reschedule_makes_row_pending_again :
  forall (newTime : Z) (t : ScheduleDb.table) (r : ScheduleDb.schedule),
    NoDup (map ScheduleDb.id (ScheduleDb.rows t)) ->
    In r (ScheduleDb.rows t) ->
    let t' := snd (ScheduleDb.reschedule (ScheduleDb.id r) newTime t) in
    ScheduleDb.returning (ScheduleDb.id r) t'
    = Some (RepositorySpec.retimed r newTime)
    /\ (forall now, In (RepositorySpec.retimed r newTime)
                       (ScheduleDb.getPending now t') <-> newTime <= now)
    /\ (forall now x, ScheduleDb.id x <> ScheduleDb.id r ->
                      (In x (ScheduleDb.getPending now t')
                       <-> In x (ScheduleDb.getPending now t)))
    /\ (forall now s,
           In s (ScheduleDb.getPending now
                   (snd (ScheduleDb.updateStatus (ScheduleDb.id r)
                           ScheduleDb.completed t))) ->
           ScheduleDb.id s <> ScheduleDb.id r).
Proof.
  intros newTime t r Hn Hin t'.
  assert (Hret : ScheduleDb.returning (ScheduleDb.id r) t'
                 = Some (RepositorySpec.retimed r newTime)).
  { unfold t', ScheduleDb.reschedule. simpl.
    rewrite returning_update_where; trivial. }
  split; [exact Hret|].
  split.
  { intros now. rewrite getPending_In.
    apply returning_some_In in Hret. destruct Hret as [Hin' _].
    simpl. split; [tauto|]. intros Hle. auto. }
  split.
  { intros now x Hne. rewrite !getPending_In.
    pose proof (reschedule_others (ScheduleDb.id r) newTime t x Hne) as Hiff.
    fold t' in Hiff. tauto. }
  intros now s Hs Hid. apply getPending_In in Hs.
  destruct Hs as (Hs & Hp & _).
  unfold ScheduleDb.updateStatus, ScheduleDb.update_where in Hs. simpl in Hs.
  apply in_map_iff in Hs. destruct Hs as [y [Hy Hiny]].
  destruct (ScheduleDb.id y =? ScheduleDb.id r) eqn:E.
  - subst s. simpl in Hp. discriminate.
  - subst s. apply Z.eqb_neq in E. contradiction.
Qed.

(** X5 at a completed row rescheduled from 1000 to 7000 and fetched at
    8000. *)
Lemma reschedule_makes_row_pending_again_witness :
  In (RepositorySpec.retimed RepositorySpec.finished_row 7000)
     (ScheduleDb.getPending 8000
        (snd (ScheduleDb.reschedule 1 7000 RepositorySpec.finished_table))).
Proof.
  assert (Hn : NoDup (map ScheduleDb.id
                        (ScheduleDb.rows RepositorySpec.finished_table)))
    by (simpl; repeat constructor; simpl; tauto).
  assert (Hin : In RepositorySpec.finished_row
                   (ScheduleDb.rows RepositorySpec.finished_table))
    by (simpl; left; reflexivity).
  pose proof (reschedule_makes_row_pending_again 7000
                RepositorySpec.finished_table RepositorySpec.finished_row Hn Hin)
    as H.
  cbv zeta in H. destruct H as (_ & H & _).
  apply (proj2 (H 8000)). lia.
Defined.

(** X6. [hasConflict] looks at pending rows only, and what it tests is
    the candidate window with its end displaced by [skew], the offset of
    the zone of the server process less the offset the request's
    date-time text designates.  When it answers "no conflict", no
    pending row it considers shares an instant with the displaced
    window, whatever the durations; so where the skew is not negative
    (a process in UTC, or east of the zone of the text) the check errs
    on the side of refusal: no such row shares an instant with the
    candidate window itself.  Five hours west of UTC it accepts a
    candidate [10:00:00, 10:00:31) that shares a second with a pending
    [10:00:30, 10:01:00).  In every zone a table without pending rows
    never conflicts, and naming an excluded id can only remove a
    conflict, never create one. *)
Theorem hasConflict_accepts_no_shared_instant_unless_read_early :
  forall (skew t d : Z) (ex : option Z) (tbl : ScheduleDb.table),
    (ScheduleDb.hasConflict_sent skew t d ex tbl = false ->
     forall r, In r (ScheduleDb.rows tbl) -> Windows.considered ex r ->
               ~ Windows.intersect t (d + skew) (ScheduleDb.scheduled_time r)
                   (ScheduleDb.duration r))
    /\ (0 <= skew ->
        ScheduleDb.hasConflict_sent skew t d ex tbl = false ->
        forall r, In r (ScheduleDb.rows tbl) -> Windows.considered ex r ->
                  ~ Windows.intersect t d (ScheduleDb.scheduled_time r)
                      (ScheduleDb.duration r))
    /\ (ScheduleDb.hasConflict_sent Windows.five_hours_west
          (Windows.clock 10 0 0) 31000 None
          (Windows.db_with (Windows.db_entry 1 (Windows.clock 10 0 30) 30000))
        = false
        /\ Windows.intersect (Windows.clock 10 0 0) 31000
             (Windows.clock 10 0 30) 30000)
    /\ ((forall r, In r (ScheduleDb.rows tbl) ->
                   ScheduleDb.status r <> ScheduleDb.pending) ->
        ScheduleDb.hasConflict_sent skew t d ex tbl = false)
    /\ (ScheduleDb.hasConflict_sent skew t d ex tbl = true ->
        ScheduleDb.hasConflict_sent skew t d None tbl = true).
Proof.
  intros skew t d ex tbl.
  split; [|split; [|split; [|split]]].
  - intros Hno r Hin Hc.
    exact (sent_accepted_is_clear_displaced skew t d ex tbl r Hno Hin Hc).
  - intros Hs Hno r Hin Hc.
    exact (sent_accepted_is_clear skew t d ex tbl r Hs Hno Hin Hc).
  - split; [reflexivity|].
    exists (Windows.clock 10 0 30). unfold Windows.clock. lia.
  - rewrite hasConflict_sent_displaced, hasConflict_existsb. intros Hnone.
    destruct (existsb _ (ScheduleDb.rows tbl)) eqn:E; trivial.
    apply existsb_exists in E. destruct E as [r [Hin Hrow]].
    apply conflict_row_iff in Hrow. destruct Hrow as [[Hp _] _].
    exfalso. exact (Hnone r Hin Hp).
  - rewrite !hasConflict_sent_displaced, !hasConflict_existsb.
    rewrite !existsb_exists. intros [r [Hin Hrow]]. exists r. split; trivial.
    apply conflict_row_iff in Hrow. apply conflict_row_iff.
    destruct Hrow as [[Hp _] Hcl]. split; trivial.
    split; trivial. intros x; discriminate.
Qed.

(** ** The registry, entry by entry *)

Section RegistryOperations.

Import Registry.

Lemma length_delete (k : string) (m : t) :
  (List.length (delete k m) + count k m = List.length m)%nat.
Proof.
  induction m as [|[k' v] m IH]; simpl; [reflexivity|].
  rewrite count_cons. destruct (String.eqb k' k); simpl; lia.
Qed.

Lemma get_delete_same (k : string) (m : t) : get k (delete k m) = None.
Proof.
  induction m as [|[k' v] m IH]; simpl; [reflexivity|].
  destruct (String.eqb k' k) eqn:E; simpl; [exact IH|].
  rewrite E. exact IH.
Qed.

Lemma delete_absent (k : string) (m : t) : get k m = None -> delete k m = m.
Proof.
  induction m as [|[k' v] m IH]; simpl; [reflexivity|].
  destruct (String.eqb k' k); [discriminate|].
  intros H. f_equal. exact (IH H).
Qed.

Lemma delete_set_fresh (k : string) (v : displayInfo) (m : t) :
  get k m = None -> delete k (set k v m) = m.
Proof.
  induction m as [|[k' w] m IH]; simpl.
  - rewrite String.eqb_refl. reflexivity.
  - destruct (String.eqb k' k) eqn:E; [discriminate|].
    intros H. simpl. rewrite E. f_equal. exact (IH H).
Qed.

Lemma findBySocket_set_fresh (k : string) (v : displayInfo) (m : t) :
  get k m = None ->
  (forall k' w, In (k', w) m -> socketId w <> socketId v) ->
  findBySocket (socketId v) (set k v m) = Some k.
Proof.
  induction m as [|[k' w] m IH]; simpl; intros Hg Hs.
  - rewrite String.eqb_refl. reflexivity.
  - destruct (String.eqb k' k) eqn:E; [discriminate|]. simpl.
    destruct (String.eqb (socketId w) (socketId v)) eqn:E2.
    + apply String.eqb_eq in E2. exfalso. apply (Hs k' w); auto.
    + apply IH; trivial. intros k2 w2 Hin. apply (Hs k2 w2). auto.
Qed.

End RegistryOperations.

(** X7. The [disconnect] scan removes the first entry, in registration
    order, held by the closing session, and stops: after any history of
    the registry it removes one entry at most (a session that registered
    two serials leaves the second one behind), the serial it found is
    gone and every other serial resolves as before; a session holding no
    entry changes nothing; and registering a new serial from a new
    session and then closing that session gives back the registry as it
    was. *)
Theorem disconnect_removes_one_entry :
  forall (ops : list Registry.op) (sid : string),
    let m := Registry.run ops in
    (List.length m <= S (List.length (Registry.disconnect sid m)))%nat
    /\ (forall k, Registry.findBySocket sid m = Some k ->
                  Registry.get k (Registry.disconnect sid m) = None
                  /\ S (List.length (Registry.disconnect sid m)) = List.length m
                  /\ forall k', k' <> k ->
                                Registry.get k' (Registry.disconnect sid m)
                                = Registry.get k' m)
    /\ ((forall k v, In (k, v) m -> Registry.socketId v <> sid) ->
        Registry.disconnect sid m = m)
    /\ (forall serial v,
           Registry.socketId v = sid ->
           Registry.get serial m = None ->
           (forall k w, In (k, w) m -> Registry.socketId w <> sid) ->
           Registry.disconnect sid (Registry.set serial v m) = m).
Proof.
  intros ops sid m.
  assert (Hc : forall s, (Registry.count s m <= 1)%nat)
    by (intro s; apply count_run_le).
  split.
  { unfold Registry.disconnect.
    destruct (Registry.findBySocket sid m) as [k|]; [|lia].
    pose proof (length_delete k m). specialize (Hc k). lia. }
  split.
  { intros k Hk. unfold Registry.disconnect. rewrite Hk.
    split; [apply get_delete_same|]. split.
    - pose proof (length_delete k m) as Hl. specialize (Hc k).
      apply findBySocket_In in Hk. destruct Hk as [v [Hin _]].
      pose proof (count_pos_of_In k v m Hin). lia.
    - intros k' Hne. apply get_delete_other. exact Hne. }
  split.
  { intros Hnone. unfold Registry.disconnect.
    rewrite findBySocket_none; trivial. }
  intros serial v Hs Hg Hnone. unfold Registry.disconnect. subst sid.
  rewrite findBySocket_set_fresh; trivial.
  apply delete_set_fresh. exact Hg.
Qed.

(** ** The immediate-display request, push by push *)

Section DisplayNowPushes.

Import Server Messages.



End DisplayNowPushes.


(** ** The ledger rows of an immediate display *)

Section DisplayNowLedger.

Import ScheduleDb Server Messages.

Lemma due_filter_app_ledger (now : Z) (l extra : list schedule) :
  Forall ledger_row extra ->
  filter (fun r => is_pending r && (scheduled_time r <=? now)) (l ++ extra)
  = filter (fun r => is_pending r && (scheduled_time r <=? now)) l.
Proof.
  intros Hx. rewrite filter_app.
  assert (Hnil : filter (fun r => is_pending r && (scheduled_time r <=? now)) extra
                 = []).
  { induction Hx as [|r extra [Hc _] _ IH]; simpl; [reflexivity|].
    unfold is_pending at 1. rewrite Hc. simpl. exact IH. }
  rewrite Hnil. apply app_nil_r.
Qed.

(** One ledger entry: the rows of the table, then at most one completed
    one-shot row. *)
Lemma record_one_appends (d : scheduleData) (t : table) :
  Lifecycle.wf t -> d_repeat d = Some once ->
  exists extra,
    rows (snd (record_one d t)) = rows t ++ extra
    /\ Forall ledger_row extra
    /\ (List.length extra <= 1)%nat
    /\ (fst (record_one d t) = true -> List.length extra = 1%nat).
Proof.
  intros [Hn Hb] Hrep. unfold record_one, create.
  match goal with |- context [insertable ?r] =>
    set (row := r); destruct (insertable row) end;
    [|destruct (typed row)]; cbn [fst snd].
  - exists [Lifecycle.with_status row completed].
    split; [|split; [|split; [simpl; lia|reflexivity]]].
    + unfold updateStatus, update_where. cbn [snd rows].
      rewrite map_app. f_equal.
      * apply map_keeps_all. intros x Hin.
        destruct (id x =? id row) eqn:E; trivial.
        apply Z.eqb_eq in E. specialize (Hb x Hin). simpl in E. lia.
      * simpl. rewrite Z.eqb_refl. reflexivity.
    + constructor; [|constructor]. split; [reflexivity|].
      simpl. rewrite Hrep. reflexivity.
  - exists []. rewrite app_nil_r.
    repeat split; simpl; try lia; try constructor; try discriminate.
  - exists []. rewrite app_nil_r.
    repeat split; simpl; try lia; try constructor; try discriminate.
Qed.

Lemma record_group_appends (d : scheduleData) (devs : list device) (t : table) :
  Lifecycle.wf t -> d_repeat d = Some once ->
  exists extra,
    rows (record_group d devs t) = rows t ++ extra
    /\ Forall ledger_row extra
    /\ (List.length extra <= List.length devs)%nat.
Proof.
  revert t. induction devs as [|x devs IH]; intros t Hwf Hrep; simpl.
  - exists []. rewrite app_nil_r.
    split; [reflexivity|]. split; [apply Forall_nil|simpl; lia].
  - destruct (record_one_appends d t Hwf Hrep) as (e1 & Hr1 & Hf1 & Hl1 & _).
    pose proof (wf_record_one d t Hwf) as Hwf1.
    destruct (record_one d t) as [ok t1]; cbn [fst snd] in *.
    destruct ok.
    + destruct (IH t1 Hwf1 Hrep) as (e2 & Hr2 & Hf2 & Hl2).
      exists (e1 ++ e2). rewrite Hr2, Hr1, app_assoc.
      repeat split; trivial.
      * apply Forall_app. auto.
      * rewrite length_app. lia.
    + exists e1. repeat split; trivial. lia.
Qed.

End DisplayNowLedger.

(** X9. A successful POST /api/display-now, on a table with distinct ids
    drawn from the sequence, logs one display-history row when the
    table accepts it (an image URL that fits VARCHAR(500), a duration
    and a rotation within INTEGER); when the table refuses the row the
    failure is swallowed, the history is as it was and the request is
    answered with success all the same.  To the schedules it appends
    only rows that are already [completed] one-shot entries (at most
    one; at most one per device of the group for a group request): the
    earlier rows are untouched and the list of due pending entries is,
    at every instant, what it was before the request. *)
Theorem display_now_leaves_nothing_pending :
  forall (serverNow u : Z) (b : Server.displayNowBody) (st : Server.state)
         (n : nat),
    Lifecycle.wf (Server.schedules st) ->
    fst (fst (Server.display_now serverNow u b st)) = Server.SuccessDisplaysSent n ->
    let st' := snd (fst (Server.display_now serverNow u b st)) in
    (Messages.history_accepts b = true ->
     List.length (DisplayDb.rows (Server.display_history st'))
     = S (List.length (DisplayDb.rows (Server.display_history st))))
    /\ (Messages.history_accepts b = false ->
        Server.display_history st' = Server.display_history st)
    /\ (exists extra,
           ScheduleDb.rows (Server.schedules st')
           = ScheduleDb.rows (Server.schedules st) ++ extra
           /\ Forall Messages.ledger_row extra)
    /\ (forall now, ScheduleDb.getPending now (Server.schedules st')
                    = ScheduleDb.getPending now (Server.schedules st))
    /\ (let thirty_days :=
          Server.display_now 1000 1 Messages.show_for_thirty_days
            Messages.two_owners in
        fst (fst thirty_days) = Server.SuccessDisplaysSent 1
        /\ List.length (snd thirty_days) = 1%nat
        /\ Server.display_history (snd (fst thirty_days))
           = Server.display_history Messages.two_owners
        /\ Server.schedules (snd (fst thirty_days))
           = Server.schedules Messages.two_owners).
Proof.
  intros serverNow u b st n Hwf.
  enough (Hgen :
    fst (fst (Server.display_now serverNow u b st)) = Server.SuccessDisplaysSent n ->
    let st' := snd (fst (Server.display_now serverNow u b st)) in
    (Messages.history_accepts b = true ->
     List.length (DisplayDb.rows (Server.display_history st'))
     = S (List.length (DisplayDb.rows (Server.display_history st))))
    /\ (Messages.history_accepts b = false ->
        Server.display_history st' = Server.display_history st)
    /\ (exists extra,
           ScheduleDb.rows (Server.schedules st')
           = ScheduleDb.rows (Server.schedules st) ++ extra
           /\ Forall Messages.ledger_row extra)
    /\ (forall now, ScheduleDb.getPending now (Server.schedules st')
                    = ScheduleDb.getPending now (Server.schedules st))).
  { intros Hok. destruct (Hgen Hok) as (H1 & H2 & H3 & H4).
    cbv zeta. repeat split; trivial. }
  unfold Server.display_now, Messages.history_accepts.
  destruct (Server.n_imageUrl b) as [imageUrl|]; [|discriminate].
  destruct (negb (Js.truthy_str (Some imageUrl))); [discriminate|].
  destruct (Server.resolve_targets u b _ st) as [[sent devs]|]; [|discriminate].
  destruct (Nat.eqb (List.length sent) 0); [discriminate|].
  cbn [fst snd]. intros _.
  set (d := ScheduleDb.mkData imageUrl _ _ _ _ _).
  assert (Hrep : ScheduleDb.d_repeat d = Some ScheduleDb.once) by reflexivity.
  assert (Hext : exists extra,
             ScheduleDb.rows
               (if Js.truthy (Server.n_groupId b) && Server.n_uploadedFromGroup b
                then Server.record_group d devs (Server.schedules st)
                else snd (Server.record_one d (Server.schedules st)))
             = ScheduleDb.rows (Server.schedules st) ++ extra
             /\ Forall Messages.ledger_row extra).
  { destruct (Js.truthy (Server.n_groupId b) && Server.n_uploadedFromGroup b).
    - destruct (record_group_appends d devs _ Hwf Hrep) as (e & He & Hf & _).
      exists e. auto.
    - destruct (record_one_appends d _ Hwf Hrep) as (e & He & Hf & _).
      exists e. auto. }
  assert (Hrot : Js.or_default (Some (Js.or_default (Server.n_rotation b) 0)) 0
                 = Js.or_default (Server.n_rotation b) 0).
  { unfold Js.or_default. destruct (Server.n_rotation b) as [v|]; simpl; trivial.
    destruct (v =? 0) eqn:E; simpl; trivial. rewrite E. reflexivity. }
  cbn [Server.display_history Server.set_schedules Server.set_history].
  unfold DisplayDb.create. rewrite Hrot.
  split; [|split].
  { destruct (Pg.varchar 500 imageUrl) as [url|]; [|discriminate].
    cbn [andb]. intros Hacc. rewrite Hacc. cbn [Js.truthy DisplayDb.referenced snd
      DisplayDb.rows].
    rewrite length_app. simpl. lia. }
  { destruct (Pg.varchar 500 imageUrl) as [url|]; [|reflexivity].
    cbn [andb]. intros Hacc. rewrite Hacc. reflexivity. }
  split; [exact Hext|].
  intros now. destruct Hext as (extra & Hrows & Hled).
  unfold ScheduleDb.getPending. cbn [Server.schedules Server.set_schedules].
  rewrite Hrows, due_filter_app_ledger; trivial.
Qed.

(** X9 at user 1 showing an image on the connected device "A". *)
Lemma display_now_leaves_nothing_pending_witness :
  ScheduleDb.getPending 99000
    (Server.schedules
       (snd (fst (Server.display_now 1000 1 Dispatch.show_everywhere
                    Messages.two_owners))))
  = ScheduleDb.getPending 99000 (Server.schedules Messages.two_owners).
Proof.
  assert (Hwf : Lifecycle.wf (Server.schedules Messages.two_owners))
    by (split; simpl; [constructor|tauto]).
  assert (Hok : fst (fst (Server.display_now 1000 1 Dispatch.show_everywhere
                            Messages.two_owners))
                = Server.SuccessDisplaysSent 1) by reflexivity.
  pose proof (display_now_leaves_nothing_pending 1000 1 Dispatch.show_everywhere
                Messages.two_owners 1 Hwf Hok) as H.
  cbv zeta in H. destruct H as (_ & _ & _ & H & _). exact (H 99000).
Defined.

(** ** The sweep, push by push *)

Section SweepPushes.

Import ScheduleDb Server Messages SweepSpec.

Lemma sweep_users_nothing_due (now : Z) (users : list Z) (st : state) :
  getPending now (schedules st) = [] ->
  fold_left (sweep_user now) users (st, []) = (st, []).
Proof.
  intros Hnone. induction users as [|u users IH]; simpl; [reflexivity|].
  unfold sweep_user at 2, pendingSchedules_for. cbn [fst].
  rewrite Hnone. simpl. exact IH.
Qed.




End SweepPushes.

(** X10. A sweep fires nothing while no display is connected, even when
    entries are due, and nothing when no entry is due: in both cases it
    pushes no message and leaves the schedules and the display history
    as they were (only the expiry of the legacy current content runs). *)
Theorem sweep_is_idle_without_displays_or_due_entries :
  forall (now : Z) (st : Server.state),
    Server.connectedDisplays st = [] \/
    ScheduleDb.getPending now (Server.schedules st) = [] ->
    Server.sweep now st = (Server.expire_current now st, [])
    /\ Server.schedules (fst (Server.sweep now st)) = Server.schedules st
    /\ Server.display_history (fst (Server.sweep now st))
       = Server.display_history st.
Proof.
  intros now st H.
  assert (Hidle : Server.sweep now st = (Server.expire_current now st, [])).
  { unfold Server.sweep. destruct H as [H|H].
    - rewrite H. reflexivity.
    - rewrite sweep_users_nothing_due; trivial. }
  rewrite Hidle. cbn [fst]. split; [reflexivity|].
  unfold Server.expire_current.
  destruct (Server.currentContent st) as [c|]; [|split; reflexivity].
  destruct (Server.clearAt c <=? now); split; reflexivity.
Qed.

(** X10 at a server with a due entry and no display connected. *)
Lemma sweep_is_idle_witness :
  Server.schedules (fst (Server.sweep 2000 Lifecycle.with_daily_entry))
  = Server.schedules Lifecycle.with_daily_entry.
Proof.
  assert (H : Server.connectedDisplays Lifecycle.with_daily_entry = [] \/
              ScheduleDb.getPending 2000
                (Server.schedules Lifecycle.with_daily_entry) = [])
    by (left; reflexivity).
  destruct (sweep_is_idle_without_displays_or_due_entries 2000
              Lifecycle.with_daily_entry H) as (_ & Hs & _).
  exact Hs.
Defined.


(** ** PUT /api/schedule/:id on an entry that is already due *)

(** X12. When PUT /api/schedule/:id answers with an entry that is pending
    and whose instant has passed, the handler pushes that entry to every
    session of the requesting user and marks it completed, whatever its
    repeat class: a repeating entry updated while due is not moved to
    its next occurrence and is never fetched as pending again. *)
Theorem put_on_a_due_entry_fires_and_completes_it :
  forall (now u i : Z) (b : Server.updateBody) (st : Server.state)
         (s : ScheduleDb.schedule),
    Lifecycle.wf (Server.schedules st) ->
    fst (fst (Server.schedule_put now u i b st)) = Server.SuccessSchedule s ->
    ScheduleDb.scheduled_time s <= now ->
    ScheduleDb.status s = ScheduleDb.pending ->
    ScheduleDb.id s = i
    /\ ScheduleDb.returning i
         (Server.schedules (snd (fst (Server.schedule_put now u i b st))))
       = Some (Lifecycle.with_status s ScheduleDb.completed)
    /\ snd (Server.schedule_put now u i b st)
       = Server.emit_where (Server.owned_by u)
           (Server.DisplayContent (Server.content_of_schedule now s))
           (Server.connectedDisplays st)
    /\ forall n r,
         In r (ScheduleDb.getPending n
                 (Server.schedules (snd (fst (Server.schedule_put now u i b st))))) ->
         ScheduleDb.id r <> i.
Proof.
  intros now u i b st s Hwf Hreply Hdue Hpend.
  unfold Server.schedule_put in *.
  destruct (if (match Server.p_scheduledTime b with Some _ => true | None => false end)
               || Js.truthy (Server.p_duration b)
            then Server.put_conflict_check u i b (Server.schedules st)
            else Some false) as [[|]|]; try discriminate Hreply.
  unfold Server.put_update, ScheduleDb.update in *.
  set (f := fun r : ScheduleDb.schedule => _) in *.
  assert (Hf : forall r, ScheduleDb.id (f r) = ScheduleDb.id r) by reflexivity.
  pose proof (wf_update_where i f _ Hf Hwf) as Hwf'.
  set (t' := ScheduleDb.update_where i f (Server.schedules st)) in *.
  destruct (ScheduleDb.returning i t') as [s0|] eqn:Hret;
    [|discriminate Hreply].
  assert (Hs0 : s0 = s).
  { destruct ((ScheduleDb.scheduled_time s0 <=? now) && ScheduleDb.is_pending s0);
      cbn [fst] in Hreply; congruence. }
  subst s0.
  apply returning_some_In in Hret. destruct Hret as [Hin Hid].
  assert (Hcond : (ScheduleDb.scheduled_time s <=? now) && ScheduleDb.is_pending s
                  = true).
  { apply andb_true_iff. split; [apply Z.leb_le; exact Hdue|].
    unfold ScheduleDb.is_pending. rewrite Hpend. reflexivity. }
  rewrite Hcond. cbn [fst snd Server.schedules Server.set_schedules].
  split; [exact Hid|]. subst i.
  unfold ScheduleDb.updateStatus. cbn [snd].
  set (g := fun r : ScheduleDb.schedule => _).
  assert (Hg : forall r, ScheduleDb.id (g r) = ScheduleDb.id r) by reflexivity.
  pose proof (returning_update_where g t' s Hg (proj1 Hwf') Hin) as Hdone.
  split; [exact Hdone|]. split; [reflexivity|].
  intros n r Hr Hidr. apply getPending_In in Hr. destruct Hr as (Hr & Hp & _).
  pose proof (wf_update_where (ScheduleDb.id s) g t' Hg Hwf') as Hwf''.
  pose proof (returning_of_In _ r (proj1 Hwf'') Hr) as Hfound.
  rewrite Hidr, Hdone in Hfound. inversion Hfound as [Heq].
  rewrite <- Heq in Hp. discriminate Hp.
Qed.

(** X12 at a daily entry due since 1000, updated at 2000 with no change. *)
Lemma put_on_a_due_entry_witness :
  ScheduleDb.returning 1
    (Server.schedules
       (snd (fst (Server.schedule_put 2000 1 1
                    (Server.mkUpdateBody None None None)
                    Lifecycle.with_daily_entry))))
  = Some (Lifecycle.with_status Lifecycle.daily_entry ScheduleDb.completed).
Proof.
  assert (Hwf : Lifecycle.wf (Server.schedules Lifecycle.with_daily_entry)).
  { split; simpl.
    - constructor; [simpl; tauto|constructor].
    - intros r [<-|[]]. simpl. lia. }
  assert (Hdue : ScheduleDb.scheduled_time Lifecycle.daily_entry <= 2000)
    by (simpl; lia).
  exact (proj1 (proj2
    (put_on_a_due_entry_fires_and_completes_it 2000 1 1
       (Server.mkUpdateBody None None None) Lifecycle.with_daily_entry
       Lifecycle.daily_entry Hwf eq_refl Hdue eq_refl))).
Defined.

(** ** POST /api/schedule, outcome by outcome *)

Section SchedulePostOutcomes.

Import ScheduleDb Server Requests.


Lemma or_default_zero_idem (x : option Z) :
  Js.or_default (Some (Js.or_default x 0)) 0 = Js.or_default x 0.
Proof.
  unfold Js.or_default. destruct x as [v|]; simpl; trivial.
  destruct (v =? 0) eqn:E; simpl; trivial. rewrite E. reflexivity.
Qed.



End SchedulePostOutcomes.




(** ** DELETE /api/schedule/:id *)

Section ScheduleDeleteFacts.

Import ScheduleDb Server.




End ScheduleDeleteFacts.


(** ** A sweep completes the one-shot entries that are due *)

Section SweepCompletes.

Import ScheduleDb Server Lifecycle SweepSpec.

Lemma same_id_same_row (t : table) (a b : schedule) :
  NoDup (map id (rows t)) -> In a (rows t) -> In b (rows t) ->
  id a = id b -> a = b.
Proof.
  intros Hn Ha Hb Hid.
  pose proof (returning_of_In t a Hn Ha) as H1.
  pose proof (returning_of_In t b Hn Hb) as H2.
  rewrite Hid in H1. congruence.
Qed.

(** The rows after the bookkeeping of [s]: the rows of its id are
    rewritten, keeping id and repeat class, and completed when [s] is a
    one-shot entry. *)
Lemma bookkeeping_rows (s : schedule) (t : table) (r : schedule) :
  In r (rows (repeat_bookkeeping s t)) ->
  (In r (rows t) /\ id r <> id s)
  \/ (exists r0, In r0 (rows t) /\ id r0 = id s /\ id r = id r0
                 /\ repeat_type r = repeat_type r0
                 /\ (repeat_type s = once -> status r = completed)).
Proof.
  unfold repeat_bookkeeping, nextTime.
  destruct (repeat_type s) eqn:E;
    unfold updateStatus, reschedule, update_where; cbn [snd rows];
    intros Hin; apply in_map_iff in Hin; destruct Hin as [r0 [Hr Hin]];
    (destruct (id r0 =? id s) eqn:Eid;
     [apply Z.eqb_eq in Eid; right; exists r0; subst r; simpl;
      repeat split; trivial; discriminate
     |apply Z.eqb_neq in Eid; left; subst r; auto]).
Qed.

Lemma fire_schedules (now u : Z) (acc : state * list emission) (s : schedule) :
  schedules (fst (fire now u acc s)) = repeat_bookkeeping s (schedules (fst acc)).
Proof. destruct acc as [st out]. reflexivity. Qed.

(** One pass over a fetched list: the one-shot entries still due are
    always among the entries left to fire. *)
Lemma fire_pass (now u : Z) (l : list schedule) (acc : state * list emission) :
  (forall r, In r (rows (schedules (fst acc))) -> repeat_type r = once ->
             status r = pending -> scheduled_time r <= now -> In r l) ->
  (forall s r0, In s l -> In r0 (rows (schedules (fst acc))) ->
                id r0 = id s -> repeat_type r0 = repeat_type s) ->
  no_once_due now (schedules (fst (fold_left (fire now u) l acc))).
Proof.
  revert acc. induction l as [|s l IH]; intros acc HP HQ.
  - simpl. intros r Hin Ho Hp Hd. exact (HP r Hin Ho Hp Hd).
  - cbn [fold_left]. apply IH.
    + intros r Hin Ho Hp Hd. rewrite fire_schedules in Hin.
      apply bookkeeping_rows in Hin.
      destruct Hin as [[Hin Hne]|(r0 & Hin0 & Hid0 & Hid & Hrep & Hdone)].
      * destruct (HP r Hin Ho Hp Hd) as [<-|Hl]; [contradiction|exact Hl].
      * exfalso.
        pose proof (HQ s r0 (or_introl eq_refl) Hin0 Hid0) as Hsame.
        assert (Hs : repeat_type s = once) by congruence.
        rewrite (Hdone Hs) in Hp. discriminate Hp.
    + intros s' r Hs' Hin Hid. rewrite fire_schedules in Hin.
      apply bookkeeping_rows in Hin.
      destruct Hin as [[Hin Hne]|(r0 & Hin0 & Hid0 & Hidr & Hrep & _)].
      * exact (HQ s' r (or_intror Hs') Hin Hid).
      * rewrite Hrep. apply (HQ s' r0 (or_intror Hs') Hin0). congruence.
Qed.

Lemma sweep_user_completes (now u : Z) (acc : state * list emission) :
  wf (schedules (fst acc)) ->
  no_once_due now (schedules (fst (sweep_user now acc u))).
Proof.
  intros [Hn _]. unfold sweep_user, pendingSchedules_for. apply fire_pass.
  - intros r Hin _ Hp Hd. apply getPending_In. auto.
  - intros s r0 Hs Hin Hid. apply getPending_In in Hs.
    destruct Hs as (Hs & _). f_equal.
    exact (same_id_same_row _ r0 s Hn Hin Hs Hid).
Qed.

Lemma sweep_users_complete (now : Z) (users : list Z)
    (acc : state * list emission) :
  wf (schedules (fst acc)) ->
  users <> [] \/ no_once_due now (schedules (fst acc)) ->
  no_once_due now (schedules (fst (fold_left (sweep_user now) users acc))).
Proof.
  revert acc. induction users as [|u users IH]; intros acc Hwf H.
  - simpl. destruct H as [H|H]; [contradiction|exact H].
  - cbn [fold_left]. apply IH.
    + unfold sweep_user. apply wf_fire_all. exact Hwf.
    + right. apply sweep_user_completes. exact Hwf.
Qed.

Lemma activeUserIds_nonempty (m : Registry.t) :
  m <> [] -> activeUserIds m <> [].
Proof.
  intros Hm. destruct m as [|[k v] m]; [contradiction|].
  intros Hnil.
  assert (Hin : In (Registry.userId v) (activeUserIds ((k, v) :: m))).
  { apply (proj2 (activeUserIds_exact ((k, v) :: m))).
    exists k, v. split; [left; reflexivity|reflexivity]. }
  rewrite Hnil in Hin. exact Hin.
Qed.

End SweepCompletes.

(** X16. With at least one display connected, a sweep leaves no one-shot
    entry both pending and due: whatever it fetches as pending at the
    same instant afterwards is a repeating entry. *)
Theorem sweep_completes_due_one_shot_entries :
  forall (now : Z) (st : Server.state),
    Lifecycle.wf (Server.schedules st) ->
    Server.connectedDisplays st <> [] ->
    Forall (fun r => ScheduleDb.repeat_type r <> ScheduleDb.once)
      (ScheduleDb.getPending now (Server.schedules (fst (Server.sweep now st)))).
Proof.
  intros now st Hwf Hm. apply Forall_forall. intros r Hr Ho.
  apply getPending_In in Hr. destruct Hr as (Hin & Hp & Hd).
  unfold Server.sweep in Hin.
  pose proof (sweep_users_complete now
                (Server.activeUserIds (Server.connectedDisplays st)) (st, [])
                Hwf (or_introl (activeUserIds_nonempty _ Hm))) as Hdone.
  destruct (fold_left (Server.sweep_user now) _ (st, [])) as [st' out].
  cbn [fst] in *. rewrite schedules_expire_current in Hin.
  exact (Hdone r Hin Ho Hp Hd).
Qed.

(** X16 where user 1's display is connected and a one-shot entry is due. *)
Lemma sweep_completes_witness :
  Forall (fun r => ScheduleDb.repeat_type r <> ScheduleDb.once)
    (ScheduleDb.getPending 2000
       (Server.schedules (fst (Server.sweep 2000 Scenario.user2_scheduled)))).
Proof.
  assert (Hwf : Lifecycle.wf (Server.schedules Scenario.user2_scheduled)).
  { split; simpl.
    - constructor; [simpl; tauto|constructor].
    - intros r [<-|[]]. simpl. lia. }
  assert (Hm : Server.connectedDisplays Scenario.user2_scheduled <> [])
    by (simpl; discriminate).
  exact (sweep_completes_due_one_shot_entries 2000 Scenario.user2_scheduled
           Hwf Hm).
Defined.

(** ** The earlier server keeps pending windows apart *)

Section LegacyRequests.

Import ScheduleDb Lifecycle.

(** An UPDATE by id keeps pending windows apart when the rewritten row
    stays clear of the pending rows of the other ids. *)
Lemma disjoint_update_where (i : Z) (f : schedule -> schedule) (tbl : table) :
  (forall r, id (f r) = id r) ->
  (forall r0 r2, In r0 (rows tbl) -> id r0 = i ->
                 In r2 (rows tbl) -> id r2 <> i ->
                 status (f r0) = pending -> status r2 = pending ->
                 ~ Windows.intersect (scheduled_time (f r0)) (duration (f r0))
                     (scheduled_time r2) (duration r2)) ->
  Windows.disjoint tbl -> Windows.disjoint (update_where i f tbl).
Proof.
  intros Hf Hnew Hd r1 r2 H1 H2 Hne Hp1 Hp2.
  unfold update_where in H1, H2. cbn [rows] in H1, H2.
  apply in_map_iff in H1. destruct H1 as [a [Ha Hina]].
  apply in_map_iff in H2. destruct H2 as [b [Hb Hinb]].
  destruct (Z.eqb_spec (id a) i) as [Ea|Ea];
    destruct (Z.eqb_spec (id b) i) as [Eb|Eb]; subst r1 r2.
  - exfalso. apply Hne. rewrite !Hf. congruence.
  - exact (Hnew a b Hina Ea Hinb Eb Hp1 Hp2).
  - intros Hx. apply intersect_sym in Hx.
    exact (Hnew b a Hinb Eb Hina Ea Hp2 Hp1 Hx).
  - exact (Hd a b Hina Hinb Hne Hp1 Hp2).
Qed.

Lemma hasConflict_false_clear (skew t d i : Z) (tbl : table) (r : schedule) :
  0 <= skew ->
  hasConflict_sent skew t d (Some i) tbl = false ->
  In r (rows tbl) -> id r <> i -> status r = pending ->
  ~ Windows.intersect t d (scheduled_time r) (duration r).
Proof.
  intros Hs Hc Hin Hid Hp.
  apply (sent_accepted_is_clear skew t d (Some i) tbl r Hs Hc Hin).
  split; [exact Hp|]. intros x [= <-]. exact Hid.
Qed.

Lemma legacy_put_keeps_disjoint (skew i : Z) (b : Server.updateBody)
    (tbl : table) :
  0 <= skew ->
  Windows.disjoint tbl ->
  Windows.disjoint (snd (LegacyServer.schedule_put skew i b tbl)).
Proof.
  intros Hs Hd. unfold LegacyServer.schedule_put, LegacyServer.put_conflict_check,
    hasConflict_call_sent, update_call, update.
  destruct (Server.p_scheduledTime b) as [t|]; destruct (Server.p_duration b) as [d|];
    cbn [orb Js.truthy].
  - destruct (hasConflict_sent skew t d (Some i) tbl) eqn:Hc; [exact Hd|].
    destruct (updatable _); [|exact Hd].
    match goal with |- context [update_where i ?f tbl] =>
      assert (Hk : Windows.disjoint (update_where i f tbl)) end.
    { apply disjoint_update_where; [reflexivity| |exact Hd].
      intros r0 r2 _ _ H2 Hne _ Hp2. cbn.
      exact (hasConflict_false_clear skew t d i tbl r2 Hs Hc H2 Hne Hp2). }
    match goal with |- context [returning i ?t'] =>
      destruct (returning i t') end; exact Hk.
  - exact Hd.
  - destruct (d =? 0) eqn:Ez; cbn [negb]; [|exact Hd].
    apply Z.eqb_eq in Ez. subst d.
    destruct (updatable _); [|exact Hd].
    match goal with |- context [update_where i ?f tbl] =>
      assert (Hk : Windows.disjoint (update_where i f tbl)) end.
    { apply disjoint_update_where; [reflexivity| |exact Hd].
      intros r0 r2 _ _ _ _ _ _ [x [Hx _]]. cbn in Hx. lia. }
    match goal with |- context [returning i ?t'] =>
      destruct (returning i t') end; exact Hk.
  - destruct (updatable _); [|exact Hd].
    match goal with |- context [update_where i ?f tbl] =>
      assert (Hk : Windows.disjoint (update_where i f tbl)) end.
    { apply disjoint_update_where; [reflexivity| |exact Hd].
      intros r0 r2 H0 Hid0 H2 Hne Hp0 Hp2. cbn in *.
      apply (Hd r0 r2 H0 H2); trivial. congruence. }
    match goal with |- context [returning i ?t'] =>
      destruct (returning i t') end; exact Hk.
Qed.

Lemma legacy_delete_keeps_disjoint (i : Z) (tbl : table) :
  Windows.disjoint tbl ->
  Windows.disjoint (snd (LegacyServer.schedule_delete i tbl)).
Proof.
  intros Hd. unfold LegacyServer.schedule_delete, delete.
  assert (Hk : Windows.disjoint
                 (mkTable (filter (fun r => negb (id r =? i)) (rows tbl))
                    (next_id tbl))).
  { intros r1 r2 H1 H2. cbn [rows] in H1, H2.
    apply filter_In in H1. apply filter_In in H2.
    apply Hd; tauto. }
  destruct (returning i tbl); exact Hk.
Qed.

Lemma wf_legacy_handle (tbl : table) (r : LegacySpec.request) :
  wf tbl -> wf (LegacySpec.handle tbl r).
Proof.
  intros Hwf. destruct r as [skew b|skew i b|i]; cbn [LegacySpec.handle].
  - unfold LegacyServer.schedule_post.
    destruct (Server.s_imageUrl b) as [imageUrl|]; [|exact Hwf].
    destruct (Server.s_scheduledTime b) as [t|]; [|exact Hwf].
    destruct (negb (Js.truthy_str (Some imageUrl))); [exact Hwf|].
    destruct (hasConflict_sent skew t _ None tbl); [exact Hwf|].
    pose proof (wf_create (Server.data_of_body imageUrl t b) tbl Hwf) as Hc.
    destruct (create (Server.data_of_body imageUrl t b) tbl) as [[s|] tbl'];
      exact Hc.
  - unfold LegacyServer.schedule_put.
    match goal with |- context [if ?c then ?x else ?y] =>
      destruct (if c then x else y) as [[|]|] end; try exact Hwf.
    unfold update_call, update.
    destruct (updatable _); [|exact Hwf].
    match goal with |- context [update_where i ?f tbl] =>
      pose proof (wf_update_where i f tbl (fun _ => eq_refl) Hwf) as Hk end.
    match goal with |- context [returning i ?t'] =>
      destruct (returning i t') end; exact Hk.
  - unfold LegacyServer.schedule_delete, delete.
    pose proof (wf_filter (fun r => negb (id r =? i)) tbl Hwf) as Hk.
    destruct (returning i tbl); exact Hk.
Qed.

End LegacyRequests.

(** X17. In the earlier database-backed server, whose calls match the
    repository's signatures, a sequence of POST, PUT and DELETE requests
    on /api/schedule keeps the pending entries from sharing an instant
    as long as no request has the end of its window read earlier than
    it is (a skew that is not negative: a process in UTC, or east of the
    zone the request's date-time text designates): the create check
    tests the candidate against every pending row, and the update check
    against every pending row but the one updated; a PUT the database
    refuses changes nothing.  With the end read early the property is
    lost: five hours west of UTC, two POSTs with texts ending in Z are
    both accepted and leave pending [10:00:30, 10:01:00) and
    [10:00:00, 10:00:31), which share a second. *)
Theorem legacy_requests_keep_windows_apart :
  forall (rs : list LegacySpec.request) (tbl : ScheduleDb.table),
    Forall LegacySpec.not_read_early rs ->
    Lifecycle.wf tbl -> Windows.disjoint tbl ->
    Lifecycle.wf (LegacySpec.serve rs tbl)
    /\ Windows.disjoint (LegacySpec.serve rs tbl)
    /\ (forall skew i b,
          ScheduleDb.updatable
            (ScheduleDb.mkUpdates (Server.p_scheduledTime b)
               (Server.p_duration b) (Server.p_repeat b)) = false ->
          snd (LegacyServer.schedule_put skew i b tbl) = tbl
          /\ (fst (LegacyServer.schedule_put skew i b tbl)
              = Server.Error 500 "Failed to update schedule"
              \/ fst (LegacyServer.schedule_put skew i b tbl)
                 = Server.Error 409 "Schedule conflict detected"))
    /\ map (fun r => (ScheduleDb.scheduled_time r, ScheduleDb.duration r,
                      ScheduleDb.status r))
         (ScheduleDb.rows (LegacySpec.serve LegacySpec.read_early
                             ScheduleDb.empty))
       = [(Windows.clock 10 0 30, 30000, ScheduleDb.pending);
          (Windows.clock 10 0 0, 31000, ScheduleDb.pending)]
    /\ ~ Windows.disjoint (LegacySpec.serve LegacySpec.read_early
                             ScheduleDb.empty).
Proof.
  intros rs tbl Hrs Hwf Hd.
  assert (Hmain : Lifecycle.wf (LegacySpec.serve rs tbl)
                  /\ Windows.disjoint (LegacySpec.serve rs tbl)).
  { revert tbl Hwf Hd. induction Hrs as [|r rs Hr Hrs IH]; intros tbl Hwf Hd;
      [split; assumption|].
    unfold LegacySpec.serve. cbn [fold_left]. apply IH.
    - apply wf_legacy_handle. exact Hwf.
    - destruct r as [skew b|skew i b|i];
        cbn [LegacySpec.handle LegacySpec.not_read_early] in *.
      + apply legacy_post_keeps_disjoint; assumption.
      + apply legacy_put_keeps_disjoint; assumption.
      + apply legacy_delete_keeps_disjoint; assumption. }
  destruct Hmain as [Hw Hdis].
  split; [exact Hw|]. split; [exact Hdis|].
  split; [|split].
  - intros skew i b Hno. unfold LegacyServer.schedule_put.
    unfold ScheduleDb.update_call. rewrite Hno.
    match goal with |- context [if ?c then ?x else ?y] =>
      destruct (if c then x else y) as [[|]|] end;
      cbn [fst snd]; split; auto.
  - reflexivity.
  - intros Hno.
    apply (Hno (ScheduleDb.mkSchedule 1 "https://cdn.example/a.png"
                  (Windows.clock 10 0 30) 30000 ScheduleDb.once 0 false
                  ScheduleDb.pending)
               (ScheduleDb.mkSchedule 2 "https://cdn.example/a.png"
                  (Windows.clock 10 0 0) 31000 ScheduleDb.once 0 false
                  ScheduleDb.pending)).
    + vm_compute. left. reflexivity.
    + vm_compute. right. left. reflexivity.
    + cbn. lia.
    + reflexivity.
    + reflexivity.
    + exists (Windows.clock 10 0 30). cbn. lia.
Qed.

(** X17 from the empty table, for five requests of which one is refused. *)
Lemma legacy_requests_witness :
  Lifecycle.wf (LegacySpec.serve LegacySpec.busy_morning ScheduleDb.empty)
  /\ Windows.disjoint (LegacySpec.serve LegacySpec.busy_morning ScheduleDb.empty).
Proof.
  assert (Hrs : Forall LegacySpec.not_read_early LegacySpec.busy_morning).
  { repeat constructor; cbn; lia. }
  assert (Hwf : Lifecycle.wf ScheduleDb.empty).
  { split; simpl; [constructor|tauto]. }
  assert (Hd : Windows.disjoint ScheduleDb.empty).
  { intros r1 r2 []. }
  destruct (legacy_requests_keep_windows_apart LegacySpec.busy_morning
              ScheduleDb.empty Hrs Hwf Hd) as [Hw [Hdis _]].
  split; assumption.
Defined.

(** ** The earlier server: what is on display survives a restart *)

(** X18. In the earlier server, an immediate display whose row the
    current_display table accepts (URL of at most 500 characters,
    duration and rotation in the INTEGER range) is broadcast to every
    display and saved; a restart before the content's clear time
    restores exactly the broadcast message, and a restart at or after
    that time restores nothing and deletes the saved row.  isExpired
    agrees with what a restart does. *)
Theorem legacy_display_survives_restart :
  forall (now : Z) (b : LegacyServer.displayNowBody) (st : LegacyServer.state)
         (imageUrl : string),
    LegacyServer.n_imageUrl b = Some imageUrl ->
    imageUrl <> EmptyString ->
    (String.length imageUrl <= 500)%nat ->
    CurrentDisplayDb.int4 (Js.or_default (LegacyServer.n_duration b) 60000)
    = true ->
    CurrentDisplayDb.int4 (Js.or_default (LegacyServer.n_rotation b) 0) = true ->
    let c := CurrentSpec.shown_now now b imageUrl in
    let st' := snd (fst (LegacyServer.display_now now b st)) in
    snd (LegacyServer.display_now now b st)
    = [(LegacyServer.Everyone, Server.DisplayContent c)]
    /\ LegacyServer.currentContent st' = Some c
    /\ forall t,
         (t < Server.clearAt c ->
          LegacyServer.currentContent (LegacyServer.restart t st') = Some c
          /\ LegacyServer.current_display (LegacyServer.restart t st')
             = LegacyServer.current_display st'
          /\ CurrentDisplayDb.isExpired t (LegacyServer.current_display st')
             = false)
         /\ (Server.clearAt c <= t ->
             LegacyServer.currentContent (LegacyServer.restart t st') = None
             /\ LegacyServer.current_display (LegacyServer.restart t st') = None
             /\ CurrentDisplayDb.isExpired t (LegacyServer.current_display st')
                = true).
Proof.
  intros now b st imageUrl Hurl Hne Hlen Hdur Hrot c st'.
  subst c st'. unfold LegacyServer.display_now. rewrite Hurl.
  assert (Htruthy : negb (Js.truthy_str (Some imageUrl)) = false).
  { destruct imageUrl; [contradiction|reflexivity]. }
  rewrite Htruthy. cbv zeta. cbn [fst snd LegacyServer.currentContent].
  unfold CurrentDisplayDb.set.
  cbn [CurrentDisplayDb.imageUrl CurrentDisplayDb.displayedAt
       CurrentDisplayDb.d_duration CurrentDisplayDb.clearAt
       CurrentDisplayDb.d_rotation CurrentDisplayDb.d_mirror].
  rewrite (varchar_short 500 imageUrl Hlen). cbv zeta.
  cbn [CurrentDisplayDb.image_url CurrentDisplayDb.duration
       CurrentDisplayDb.rotation].
  rewrite or_default_zero_idem, Hdur, Hrot. cbn [andb snd].
  split; [reflexivity|]. split; [reflexivity|].
  intros t. unfold LegacyServer.restart, CurrentDisplayDb.get,
    CurrentDisplayDb.isExpired.
  cbn [LegacyServer.current_display CurrentDisplayDb.clear_at
       LegacyServer.currentContent].
  unfold CurrentSpec.shown_now, LegacyServer.content_of.
  cbn [Server.clearAt]. split; intros Ht.
  - apply Z.ltb_lt in Ht. rewrite Ht.
    cbn [LegacyServer.currentContent LegacyServer.current_display
         CurrentDisplayDb.image_url CurrentDisplayDb.rotation
         CurrentDisplayDb.mirror CurrentDisplayDb.duration
         CurrentDisplayDb.displayed_at CurrentDisplayDb.clear_at].
    split; [reflexivity|]. split; [reflexivity|].
    apply Z.ltb_lt in Ht. apply Z.leb_gt. exact Ht.
  - assert (Hnot : (t <? now + Js.or_default (LegacyServer.n_duration b) 60000)
                   = false) by (apply Z.ltb_ge; exact Ht).
    rewrite Hnot. cbn [LegacyServer.currentContent LegacyServer.current_display
                       CurrentDisplayDb.clear snd].
    split; [reflexivity|]. split; [reflexivity|]. apply Z.leb_le. exact Ht.
Qed.

(** X18 for one image displayed at 1000 on a fresh server and a restart
    at 2000. *)
Lemma legacy_display_survives_restart_witness :
  LegacyServer.currentContent
    (LegacyServer.restart 2000
       (snd (fst (LegacyServer.display_now 1000 CurrentSpec.plain
                    CurrentSpec.fresh))))
  = Some (CurrentSpec.shown_now 1000 CurrentSpec.plain
            "https://cdn.example/a.png").
Proof.
  assert (Hne : "https://cdn.example/a.png"%string <> EmptyString)
    by discriminate.
  assert (Hlen : (String.length "https://cdn.example/a.png" <= 500)%nat)
    by (apply Nat.leb_le; reflexivity).
  assert (Hbefore : 2000 < Server.clearAt
                      (CurrentSpec.shown_now 1000 CurrentSpec.plain
                         "https://cdn.example/a.png"))
    by (simpl; lia).
  exact (proj1 (proj1 (proj2 (proj2
    (legacy_display_survives_restart 1000 CurrentSpec.plain CurrentSpec.fresh
       "https://cdn.example/a.png" eq_refl Hne Hlen eq_refl eq_refl)) 2000)
    Hbefore)).
Defined.

(** ** The earlier server: the schedule checker *)

Section LegacySweep.

Import ScheduleDb LegacyServer.

Lemma or_default_rotation (x : Z) : Js.or_default (Some x) 0 = x.
Proof.
  unfold Js.or_default. destruct (x =? 0) eqn:E; trivial.
  apply Z.eqb_eq in E. auto.
Qed.

Lemma legacy_fire_out (now : Z) (l : list schedule)
    (acc : state * list emission) :
  snd (fold_left (fire now) l acc) = snd acc ++ map (CurrentSpec.shown_due now) l.
Proof.
  revert acc. induction l as [|s l IH]; intros acc; simpl.
  - rewrite app_nil_r. reflexivity.
  - rewrite IH. destruct acc as [st out]. unfold fire. cbn [snd].
    rewrite <- app_assoc. unfold CurrentSpec.shown_due.
    rewrite or_default_rotation. reflexivity.
Qed.

Lemma legacy_fire_last (now : Z) (front : list schedule) (s : schedule)
    (acc : state * list emission) :
  currentContent (fst (fold_left (fire now) (front ++ [s]) acc))
  = Some (content_of (image_url s) (rotation s) (mirror s) (duration s) now).
Proof.
  rewrite fold_left_app. cbn [fold_left].
  destruct (fold_left (fire now) front acc) as [st out].
  unfold fire. cbn [fst currentContent]. rewrite or_default_rotation.
  reflexivity.
Qed.

End LegacySweep.

(** X19. One run of the earlier server's schedule checker broadcasts
    every due pending entry, in ascending order of instant, each with
    clearAt = displayedAt + duration, followed by at most one
    clear-content.  The entry with the latest instant is the one that
    stays current when its duration is positive, and whatever content
    is current after the run has not reached its clear time. *)
Theorem legacy_sweep_shows_every_due_entry_latest_last :
  forall (now : Z) (st : LegacyServer.state),
    let due := ScheduleDb.getPending now (LegacyServer.schedules st) in
    let shown := map (CurrentSpec.shown_due now) due in
    RepositorySpec.ascending due
    /\ (snd (LegacyServer.sweep now st) = shown
        \/ snd (LegacyServer.sweep now st)
           = shown ++ [(LegacyServer.Everyone, Server.ClearContent)])
    /\ Forall (fun e => Messages.well_timed (snd e)) shown
    /\ (forall front s,
          due = front ++ [s] -> 0 < ScheduleDb.duration s ->
          snd (LegacyServer.sweep now st) = shown
          /\ LegacyServer.currentContent (fst (LegacyServer.sweep now st))
             = Some (LegacyServer.content_of (ScheduleDb.image_url s)
                       (ScheduleDb.rotation s) (ScheduleDb.mirror s)
                       (ScheduleDb.duration s) now))
    /\ (forall c,
          LegacyServer.currentContent (fst (LegacyServer.sweep now st)) = Some c ->
          now < Server.clearAt c).
Proof.
  intros now st due shown. subst due shown.
  split; [unfold ScheduleDb.getPending; apply order_by_time_ascending|].
  pose proof (legacy_fire_out now
                (ScheduleDb.getPending now (LegacyServer.schedules st)) (st, []))
    as Hout.
  cbn [snd app] in Hout.
  split; [|split; [|split]].
  - unfold LegacyServer.sweep, LegacyServer.expire.
    destruct (fold_left (LegacyServer.fire now) _ (st, [])) as [st1 out].
    cbn [snd] in Hout. subst out.
    destruct (LegacyServer.currentContent st1) as [c|]; [|left; reflexivity].
    destruct (Server.clearAt c <=? now); [right|left]; reflexivity.
  - apply Forall_forall. intros e He. apply in_map_iff in He.
    destruct He as [s [<- _]]. reflexivity.
  - intros front s Hdue Hpos.
    pose proof (legacy_fire_last now front s (st, [])) as Hlast.
    unfold LegacyServer.sweep, LegacyServer.expire. rewrite Hdue in *.
    destruct (fold_left (LegacyServer.fire now) (front ++ [s]) (st, []))
      as [st1 out].
    cbn [fst snd] in *. subst out. rewrite Hlast.
    assert (Hlive : (Server.clearAt
                       (LegacyServer.content_of (ScheduleDb.image_url s)
                          (ScheduleDb.rotation s) (ScheduleDb.mirror s)
                          (ScheduleDb.duration s) now) <=? now) = false)
      by (apply Z.leb_gt; cbn; lia).
    rewrite Hlive. cbn [fst snd]. split; [reflexivity|exact Hlast].
  - intros c. unfold LegacyServer.sweep, LegacyServer.expire.
    destruct (fold_left (LegacyServer.fire now) _ (st, [])) as [st1 out].
    destruct (LegacyServer.currentContent st1) as [c1|] eqn:Hc1; cbn [fst].
    + destruct (Server.clearAt c1 <=? now) eqn:He; cbn [fst].
      * cbn [LegacyServer.currentContent]. discriminate.
      * rewrite Hc1. intros [= <-]. apply Z.leb_gt. exact He.
    + rewrite Hc1. discriminate.
Qed.

(** ** The tracking table of the earlier server *)

Section TrackingFacts.

Import DisplayTrackingDb.

Lemma sockets_map_seen (socket : string) (now : Z) (s : presence) (t : table) :
  map socket_id
    (map (fun r => if String.eqb (socket_id r) socket then seen now s r else r) t)
  = map socket_id t.
Proof.
  rewrite map_map. apply map_ext. intros r.
  destruct (String.eqb (socket_id r) socket); reflexivity.
Qed.

Lemma register_sockets (now : Z) (socket : string) (name : option string)
    (t : table) :
  NoDup (map socket_id t) ->
  NoDup (map socket_id (snd (register now socket name t))).
Proof.
  intros Hn. unfold register.
  destruct (Pg.varchar 100 socket) as [stored|]; [|exact Hn].
  destruct (stored_name name) as [n|]; [|exact Hn].
  destruct (find (fun r => String.eqb (socket_id r) stored) t) as [old|] eqn:Hf;
    cbn [snd].
  - rewrite sockets_map_seen. exact Hn.
  - rewrite map_app. cbn [map socket_id].
    apply NoDup_app; [exact Hn|repeat constructor; simpl; tauto|].
    intros x Hx [<-|[]]. apply in_map_iff in Hx. destruct Hx as [r [Hr Hin]].
    pose proof (find_none _ _ Hf r Hin) as Hno. cbn in Hno.
    apply String.eqb_neq in Hno. contradiction.
Qed.

End TrackingFacts.

(** X20. Whatever the sequence of registrations and disconnections, the
    tracking table of the earlier server keeps one row per socket: a
    socket that registers again updates its row instead of adding one. *)
Theorem tracking_keeps_one_row_per_socket :
  forall (evs : list TrackingSpec.event) (st : LegacyServer.state),
    NoDup (TrackingSpec.sockets st) ->
    NoDup (TrackingSpec.sockets (TrackingSpec.run evs st)).
Proof.
  induction evs as [|e evs IH]; intros st Hn; [exact Hn|].
  unfold TrackingSpec.run. cbn [fold_left]. apply IH.
  unfold TrackingSpec.sockets in *. destruct e as [now socket name|now socket];
    cbn [TrackingSpec.apply].
  - unfold LegacyServer.register_display.
    pose proof (register_sockets now socket
                  (Some (Server.or_str name "Display"))
                  (LegacyServer.displays st) Hn) as Hk.
    destruct (DisplayTrackingDb.register now socket _ (LegacyServer.displays st))
      as [[d|] t']; exact Hk.
  - unfold LegacyServer.disconnect, DisplayTrackingDb.updateStatus.
    cbn [LegacyServer.displays snd]. rewrite sockets_map_seen. exact Hn.
Qed.

(** X20 for a display that drops and comes back: two rows at the end. *)
Lemma tracking_keeps_one_row_per_socket_witness :
  NoDup (TrackingSpec.sockets
           (TrackingSpec.run TrackingSpec.flaky CurrentSpec.fresh)).
Proof.
  assert (Hn : NoDup (TrackingSpec.sockets CurrentSpec.fresh)) by constructor.
  exact (tracking_keeps_one_row_per_socket TrackingSpec.flaky
           CurrentSpec.fresh Hn).
Defined.

(** X21. A registration goes through the two VARCHAR(100) columns.  An
    accepted registration leaves the socket's row online and seen now,
    under the socket id as the column stores it and the name stored at
    the socket's first registration; the row counts as active strictly
    less than five minutes after the registration.  A refused
    registration changes nothing, and its socket id or its name has
    more than 100 characters.  A value of at most 100 characters is
    stored as it is; a name of 100 letters and three spaces is stored
    without the spaces, a name of 101 letters is refused.  After its
    status is set to offline a socket is not active at any time. *)
Theorem tracking_registration_and_activity :
  forall (now : Z) (socket : string) (name : option string)
         (t : DisplayTrackingDb.table),
    (forall d t',
        DisplayTrackingDb.register now socket name t = (Some d, t') ->
        Pg.varchar 100 socket = Some (DisplayTrackingDb.socket_id d)
        /\ DisplayTrackingDb.status d = DisplayTrackingDb.online
        /\ DisplayTrackingDb.last_seen d = now
        /\ Some (DisplayTrackingDb.display_name d)
           = match find (fun r => String.eqb (DisplayTrackingDb.socket_id r)
                                    (DisplayTrackingDb.socket_id d))
                     t with
             | Some old => Some (DisplayTrackingDb.display_name old)
             | None => DisplayTrackingDb.stored_name name
             end
        /\ forall at_,
             In d (DisplayTrackingDb.getActive at_ t')
             <-> at_ - 5 * 60 * 1000 < now)
    /\ (forall t',
          DisplayTrackingDb.register now socket name t = (None, t') ->
          t' = t
          /\ ((100 < String.length socket)%nat
              \/ exists n, name = Some n /\ (100 < String.length n)%nat))
    /\ ((String.length socket <= 100)%nat ->
        (forall n, name = Some n -> (String.length n <= 100)%nat) ->
        exists d t',
          DisplayTrackingDb.register now socket name t = (Some d, t')
          /\ DisplayTrackingDb.socket_id d = socket
          /\ (find (fun r => String.eqb (DisplayTrackingDb.socket_id r) socket) t
              = None ->
              DisplayTrackingDb.display_name d = name))
    /\ option_map DisplayTrackingDb.display_name
         (fst (DisplayTrackingDb.register now "socket-1"
                 (Some TrackingSpec.padded_name) []))
       = Some (Some (TrackingSpec.copies 100 "a"))
    /\ DisplayTrackingDb.register now "socket-1"
         (Some TrackingSpec.long_name) t
       = (None, t)
    /\ (forall later at_ r,
          In r (DisplayTrackingDb.getActive at_
                  (snd (DisplayTrackingDb.updateStatus later socket
                          DisplayTrackingDb.offline t))) ->
          DisplayTrackingDb.socket_id r <> socket).
Proof.
  intros now socket name t. split; [|split; [|split; [|split; [|split]]]].
  - intros d t'. unfold DisplayTrackingDb.register.
    destruct (Pg.varchar 100 socket) as [stored|] eqn:Hsock; [|discriminate].
    destruct (DisplayTrackingDb.stored_name name) as [nm|] eqn:Hname;
      [|discriminate].
    destruct (find (fun r => String.eqb (DisplayTrackingDb.socket_id r) stored) t)
      as [old|] eqn:Hf; intros H; inversion H; subst d t'; clear H.
    + pose proof (find_some _ _ Hf) as [Hin Heq].
      pose proof Heq as Hs. apply String.eqb_eq in Hs.
      cbn [DisplayTrackingDb.seen DisplayTrackingDb.socket_id
           DisplayTrackingDb.status DisplayTrackingDb.last_seen
           DisplayTrackingDb.display_name].
      rewrite Hs, Hf. repeat split; trivial.
      * intros Ha. unfold DisplayTrackingDb.getActive in Ha.
        apply filter_In in Ha. destruct Ha as [_ Hc]. cbn in Hc.
        apply Z.ltb_lt in Hc. exact Hc.
      * intros Hlt. unfold DisplayTrackingDb.getActive. apply filter_In. split.
        -- apply in_map_iff. exists old. rewrite Heq. auto.
        -- cbn. apply Z.ltb_lt. exact Hlt.
    + cbn [DisplayTrackingDb.socket_id DisplayTrackingDb.status
           DisplayTrackingDb.last_seen DisplayTrackingDb.display_name].
      rewrite Hf. repeat split; trivial.
      * intros Ha. unfold DisplayTrackingDb.getActive in Ha.
        apply filter_In in Ha. destruct Ha as [_ Hc]. cbn in Hc.
        apply Z.ltb_lt in Hc. exact Hc.
      * intros Hlt. unfold DisplayTrackingDb.getActive. apply filter_In. split.
        -- apply in_app_iff. right. left. reflexivity.
        -- cbn. apply Z.ltb_lt. exact Hlt.
  - intros t'. unfold DisplayTrackingDb.register.
    destruct (Pg.varchar 100 socket) as [stored|] eqn:Hsock.
    + destruct (DisplayTrackingDb.stored_name name) as [nm|] eqn:Hname.
      * destruct (find _ t); discriminate.
      * intros [= <-]. split; [reflexivity|]. right.
        unfold DisplayTrackingDb.stored_name in Hname.
        destruct name as [n|]; [|discriminate]. exists n. split; [reflexivity|].
        destruct (Nat.leb_spec (String.length n) 100) as [Hle|Hgt]; [|lia].
        rewrite (varchar_short 100 n Hle) in Hname. discriminate.
    + intros [= <-]. split; [reflexivity|]. left.
      destruct (Nat.leb_spec (String.length socket) 100) as [Hle|Hgt]; [|lia].
      rewrite (varchar_short 100 socket Hle) in Hsock. discriminate.
  - intros Hsock Hname. unfold DisplayTrackingDb.register.
    rewrite (varchar_short 100 socket Hsock).
    assert (Hstored : DisplayTrackingDb.stored_name name = Some name).
    { unfold DisplayTrackingDb.stored_name. destruct name as [n|]; [|reflexivity].
      rewrite (varchar_short 100 n (Hname n eq_refl)). reflexivity. }
    rewrite Hstored.
    destruct (find (fun r => String.eqb (DisplayTrackingDb.socket_id r) socket) t)
      as [old|] eqn:Hf.
    + pose proof (find_some _ _ Hf) as [_ Heq]. apply String.eqb_eq in Heq.
      eexists; eexists. split; [reflexivity|]. split; [exact Heq|discriminate].
    + eexists; eexists. split; [reflexivity|]. split; reflexivity.
  - vm_compute. reflexivity.
  - reflexivity.
  - intros later at_ r Hr Hsock.
    unfold DisplayTrackingDb.getActive, DisplayTrackingDb.updateStatus in Hr.
    cbn [snd] in Hr. apply filter_In in Hr. destruct Hr as [Hin Hc].
    apply in_map_iff in Hin. destruct Hin as [r0 [Hr0 _]].
    destruct (String.eqb (DisplayTrackingDb.socket_id r0) socket) eqn:E.
    + subst r. cbn in Hc. discriminate Hc.
    + subst r. apply String.eqb_neq in E. contradiction.
Qed.

(** ** Reading the display history *)

Section HistoryFacts.

Import DisplayDb DisplayHistory HistorySpec.

Lemma insert_by_recency_perm (r : display) (l : list display) :
  Permutation (insert_by_recency r l) (r :: l).
Proof.
  induction l as [|x l IH]; simpl; [apply Permutation_refl|].
  destruct (displayed_at x <=? displayed_at r); [apply Permutation_refl|].
  apply perm_trans with (x :: r :: l); [apply perm_skip; exact IH|apply perm_swap].
Qed.

Lemma order_by_recency_perm (l : list display) :
  Permutation (order_by_recency l) l.
Proof.
  induction l as [|x l IH]; simpl; [apply perm_nil|].
  apply perm_trans with (x :: order_by_recency l);
    [apply insert_by_recency_perm|apply perm_skip; exact IH].
Qed.

Lemma insert_by_recency_sorted (r : display) (l : list display) :
  newest_first l -> newest_first (insert_by_recency r l).
Proof.
  unfold newest_first. induction l as [|x l IH]; intros Hs; simpl.
  - constructor; constructor.
  - inversion Hs as [|? ? Hs' Hall]; subst.
    destruct (displayed_at x <=? displayed_at r) eqn:E.
    + apply Z.leb_le in E. constructor; [exact Hs|].
      constructor; [exact E|].
      apply Forall_forall. intros y Hy.
      pose proof (proj1 (Forall_forall _ _) Hall y Hy) as Hxy. simpl in Hxy. lia.
    + apply Z.leb_gt in E. constructor; [apply IH; exact Hs'|].
      apply Forall_forall. intros y Hy.
      apply (Permutation_in _ (insert_by_recency_perm r l)) in Hy.
      destruct Hy as [<-|Hy]; [lia|].
      exact (proj1 (Forall_forall _ _) Hall y Hy).
Qed.

Lemma order_by_recency_sorted (l : list display) :
  newest_first (order_by_recency l).
Proof.
  induction l as [|x l IH]; simpl; [constructor|].
  apply insert_by_recency_sorted. exact IH.
Qed.

Lemma sorted_app_left {A} (R : A -> A -> Prop) (l1 l2 : list A) :
  StronglySorted R (l1 ++ l2) -> StronglySorted R l1.
Proof.
  induction l1 as [|x l1 IH]; simpl; intros H; [constructor|].
  inversion H as [|? ? Hs Hall]; subst. constructor; [apply IH; exact Hs|].
  apply Forall_forall. intros y Hy.
  apply (proj1 (Forall_forall _ _) Hall). apply in_app_iff. left. exact Hy.
Qed.

Lemma sorted_app_across {A} (R : A -> A -> Prop) (l1 l2 : list A) (a b : A) :
  StronglySorted R (l1 ++ l2) -> In a l1 -> In b l2 -> R a b.
Proof.
  induction l1 as [|x l1 IH]; simpl; intros H Ha Hb; [contradiction|].
  inversion H as [|? ? Hs Hall]; subst. destruct Ha as [<-|Ha].
  - apply (proj1 (Forall_forall _ _) Hall). apply in_app_iff. right. exact Hb.
  - exact (IH Hs Ha Hb).
Qed.

End HistoryFacts.

(** X22. displayDb.getRecent rejects a negative limit; otherwise it
    returns min(limit, number of rows) rows of the table (100 when no
    limit is given), newest first, and no row it leaves out is newer
    than a row it returns. *)
Theorem getRecent_returns_the_newest_rows :
  forall (limit : option Z) (t : DisplayDb.table),
    (HistorySpec.asked limit < 0 -> DisplayHistory.getRecent limit t = None)
    /\ (forall l,
          DisplayHistory.getRecent limit t = Some l ->
          List.length l
          = Nat.min (Z.to_nat (HistorySpec.asked limit))
                    (List.length (DisplayDb.rows t))
          /\ HistorySpec.newest_first l
          /\ exists rest,
               Permutation (l ++ rest) (DisplayDb.rows t)
               /\ forall a b, In a l -> In b rest ->
                              DisplayDb.displayed_at b <= DisplayDb.displayed_at a).
Proof.
  intros limit t. unfold DisplayHistory.getRecent, HistorySpec.asked.
  set (n := match limit with Some v => v | None => 100 end).
  split.
  - intros Hneg. apply Z.ltb_lt in Hneg. rewrite Hneg. reflexivity.
  - intros l. destruct (n <? 0); [discriminate|]. intros [= <-].
    set (sorted := DisplayHistory.order_by_recency (DisplayDb.rows t)).
    pose proof (order_by_recency_sorted (DisplayDb.rows t)) as Hs.
    pose proof (order_by_recency_perm (DisplayDb.rows t)) as Hp.
    fold sorted in Hs, Hp.
    pose proof (firstn_skipn (Z.to_nat n) sorted) as Hsplit.
    split; [|split].
    + rewrite length_firstn. rewrite (Permutation_length Hp). reflexivity.
    + unfold HistorySpec.newest_first in *. rewrite <- Hsplit in Hs.
      exact (sorted_app_left _ _ _ Hs).
    + exists (skipn (Z.to_nat n) sorted). split.
      * rewrite Hsplit. exact Hp.
      * intros a b Ha Hb. unfold HistorySpec.newest_first in Hs.
        rewrite <- Hsplit in Hs.
        exact (sorted_app_across _ _ _ a b Hs Ha Hb).
Qed.

(** ** The in-memory server keeps pending windows apart *)

Section InMemoryRequests.

Import InMemoryServer MemorySpec.








End InMemoryRequests.



(** ** register-display: who enters the registry *)

(** X24. The register-display handler never touches the schedules or
    the display history and sends at most one message, always to the
    registering socket and never a clear-content.  An entry that is in
    the registry afterwards either was there before, or is the entry of
    the serial sent, bound to the registering socket, for a device that
    is paired and owned by the user the entry names: an unknown or
    unpaired serial never enters the registry. *)
Theorem register_display_admits_only_paired_devices :
  forall (now : Z) (socket : string) (d : Server.registerData)
         (st : Server.state),
    Server.schedules (fst (Server.register_display now socket d st))
    = Server.schedules st
    /\ Server.display_history (fst (Server.register_display now socket d st))
       = Server.display_history st
    /\ (List.length (snd (Server.register_display now socket d st)) <= 1)%nat
    /\ (forall e,
          In e (snd (Server.register_display now socket d st)) ->
          fst e = socket /\ snd e <> Server.ClearContent
          /\ Messages.well_timed (snd e))
    /\ (forall serial info,
          In (serial, info)
             (Server.connectedDisplays
                (fst (Server.register_display now socket d st))) ->
          In (serial, info) (Server.connectedDisplays st)
          \/ (Server.r_serialNumber d = Some serial
              /\ Registry.socketId info = socket
              /\ exists dev,
                   Server.getDeviceBySerial serial st = Some dev
                   /\ Server.is_paired dev = true
                   /\ Server.user_id dev = Some (Registry.userId info)
                   /\ Registry.deviceId info = Server.dev_id dev)).
Proof.
  intros now socket d st. unfold Server.register_display.
  destruct (Server.r_serialNumber d) as [serial|] eqn:Hs;
    [|cbn; repeat split; auto; try lia; intros e []].
  destruct (negb (Js.truthy_str (Some serial)));
    [cbn; repeat split; auto; try lia; intros e []|].
  destruct (Server.getDeviceBySerial serial st) as [dev|] eqn:Hdev;
    [|cbn; repeat split; auto; try lia; intros e []].
  destruct (Server.user_id dev) as [owner|] eqn:Howner;
    [|cbn; repeat split; auto; try lia; intros e []].
  destruct (Server.is_paired dev) eqn:Hp; cbn [negb orb];
    [|cbn; repeat split; auto; try lia; intros e []].
  destruct (negb (Js.truthy (Some owner)));
    [cbn; repeat split; auto; try lia; intros e []|].
  set (st1 := match Server.r_timezone d with
              | Some tz => if Js.truthy_str (Server.r_timezone d)
                           then Server.updateDeviceTimezone (Server.dev_id dev) tz st
                           else st
              | None => st
              end).
  assert (H1 : Server.schedules st1 = Server.schedules st
               /\ Server.display_history st1 = Server.display_history st
               /\ Server.connectedDisplays st1 = Server.connectedDisplays st).
  { subst st1. destruct (Server.r_timezone d) as [tz|]; [|auto].
    destruct (Js.truthy_str (Some tz)); auto. }
  destruct H1 as (Hsch & Hhist & Hreg).
  assert (Hadmit : forall k info,
             In (k, info)
                (Registry.set serial
                   (Registry.mkInfo socket owner (Server.dev_id dev)
                      (Server.or_str (Server.device_name dev)
                         (Server.or_str (Server.r_name d) "Display"))
                      (Server.or_str (Server.r_timezone d)
                         (Server.or_str (Server.device_timezone dev) "UTC"))
                      now)
                   (Server.connectedDisplays st1)) ->
             In (k, info) (Server.connectedDisplays st)
             \/ (Some serial = Some k
                 /\ Registry.socketId info = socket
                 /\ exists dev0,
                      Server.getDeviceBySerial k st = Some dev0
                      /\ Server.is_paired dev0 = true
                      /\ Server.user_id dev0 = Some (Registry.userId info)
                      /\ Registry.deviceId info = Server.dev_id dev0)).
  { intros k info Hin. apply In_set in Hin.
    destruct Hin as [[-> ->]|Hin]; [right|left; rewrite <- Hreg; exact Hin].
    split; [reflexivity|]. split; [reflexivity|]. exists dev. cbn. auto. }
  match goal with |- context [Server.activeLayout ?a ?b ?c] =>
    destruct (Server.activeLayout a b c) as [l|] end.
  - cbn [fst snd Server.schedules Server.display_history Server.set_registry
         Server.connectedDisplays List.length].
    split; [exact Hsch|]. split; [exact Hhist|]. split; [lia|].
    split; [|exact Hadmit].
    intros e [<-|[]]. cbn. split; [reflexivity|]. split; [discriminate|trivial].
  - match goal with |- context [Server.deviceSchedules_for ?a ?b ?c ?e] =>
      destruct (Server.deviceSchedules_for a b c e) as [|s rest] end;
      cbn [fst snd Server.schedules Server.display_history Server.set_registry
           Server.connectedDisplays List.length];
      (split; [exact Hsch|]; split; [exact Hhist|]; split; [lia|];
       split; [|exact Hadmit]).
    + intros e [].
    + intros e [<-|[]]. cbn. split; [reflexivity|].
      split; [discriminate|reflexivity].
Qed.

(** ** The two clocks of the daypart check *)

Section CronFacts.

Import Daypart CronSpec.

Lemma all_aligned_true : all_aligned = true.
Proof. vm_compute. reflexivity. Qed.

Lemma aligned_in_range (hours minutes : nat) :
  (hours < 24)%nat -> (minutes < 60)%nat -> aligned hours minutes = true.
Proof.
  intros Hh Hm.
  pose proof all_aligned_true as H. unfold all_aligned in H.
  rewrite forallb_forall in H.
  specialize (H hours). rewrite in_seq in H.
  assert (Hrow : forallb (aligned hours) (seq 0 60) = true) by (apply H; lia).
  rewrite forallb_forall in Hrow. apply Hrow. rewrite in_seq. lia.
Qed.

End CronFacts.

(** X25. The daypart getCurrentDaypart returns differs from the one of
    the minute before exactly at the readings where the transition
    clock of initializeDaypartScheduling fires (06:00, 11:00, 16:00 and
    22:00); at each of them the ten-minute clock fires as well, so the
    daypart check is started twice at every transition. *)
Theorem daypart_changes_exactly_at_the_transition_clock :
  forall hours minutes : nat,
    (hours < 24)%nat -> (minutes < 60)%nat ->
    (Daypart.type (Daypart.getCurrentDaypart hours minutes)
     <> Daypart.type (CronSpec.a_minute_earlier hours minutes)
     <-> CronSpec.transition_cron hours minutes = true)
    /\ (CronSpec.transition_cron hours minutes = true ->
        CronSpec.periodic_cron hours minutes = true).
Proof.
  intros hours minutes Hh Hm.
  pose proof (aligned_in_range hours minutes Hh Hm) as Hok.
  unfold CronSpec.aligned in Hok. apply andb_true_iff in Hok.
  destruct Hok as [Heq Himp]. apply Bool.eqb_prop in Heq.
  split.
  - rewrite <- Heq, negb_true_iff. split.
    + intros Hne. apply String.eqb_neq. exact Hne.
    + intros Hne. apply String.eqb_neq. exact Hne.
  - intros Ht. rewrite Ht in Himp. exact Himp.
Qed.

(** X25 at 11:00. *)
Lemma daypart_transition_witness :
  (Daypart.type (Daypart.getCurrentDaypart 11 0)
   <> Daypart.type (CronSpec.a_minute_earlier 11 0)
   <-> CronSpec.transition_cron 11 0 = true)
  /\ (CronSpec.transition_cron 11 0 = true ->
      CronSpec.periodic_cron 11 0 = true).
Proof.
  apply (daypart_changes_exactly_at_the_transition_clock 11 0); lia.
Defined.

(** ** Viewer counts of a live session *)

Section ViewerFacts.

Import LiveViewerDb ViewerSpec.

Lemma count_open_app (sessionId : Z) (l : list LiveSessionDb.viewer)
    (v : LiveSessionDb.viewer) :
  LiveSessionDb.is_open sessionId v = true ->
  Z.of_nat (List.length (filter (LiveSessionDb.is_open sessionId) (l ++ [v])))
  = Z.of_nat (List.length (filter (LiveSessionDb.is_open sessionId) l)) + 1.
Proof.
  intros Hv. rewrite filter_app, length_app. simpl. rewrite Hv. simpl. lia.
Qed.

Lemma is_open_leave (now sessionId : Z) (v : LiveSessionDb.viewer) :
  LiveSessionDb.is_open sessionId (LiveSessionDb.leave now v) = false.
Proof. unfold LiveSessionDb.is_open, LiveSessionDb.leave. simpl. apply andb_false_r. Qed.

(** Closing the rows of one display takes exactly those rows off the
    count of open rows. *)
Lemma count_open_close (now sessionId displayId : Z)
    (l : list LiveSessionDb.viewer) :
  Z.of_nat (List.length
              (filter (LiveSessionDb.is_open sessionId)
                 (map (fun v => if watching sessionId displayId v
                                then LiveSessionDb.leave now v else v) l)))
  + Z.of_nat (List.length (filter (watching sessionId displayId) l))
  = Z.of_nat (List.length (filter (LiveSessionDb.is_open sessionId) l)).
Proof.
  induction l as [|v l IH]; [reflexivity|]. cbn [map filter].
  destruct (watching sessionId displayId v) eqn:Hw.
  - assert (Ho : LiveSessionDb.is_open sessionId v = true).
    { unfold watching in Hw. apply andb_true_iff in Hw. tauto. }
    rewrite is_open_leave, Ho. cbn [List.length]. lia.
  - destruct (LiveSessionDb.is_open sessionId v); cbn [List.length]; lia.
Qed.

Lemma none_watching_after_close (now sessionId displayId : Z)
    (l : list LiveSessionDb.viewer) (v : LiveSessionDb.viewer) :
  In v (map (fun v => if watching sessionId displayId v
                      then LiveSessionDb.leave now v else v) l) ->
  watching sessionId displayId v = false.
Proof.
  intros Hin. apply in_map_iff in Hin. destruct Hin as [v0 [<- _]].
  destruct (watching sessionId displayId v0) eqn:E; [|exact E].
  unfold watching. rewrite is_open_leave. reflexivity.
Qed.

Lemma others_after_update (sessionId : Z) (g : session -> session)
    (l : list session) (s : session) :
  (forall x, s_id (g x) = s_id x) -> s_id s <> sessionId ->
  (In s (map (fun x => if s_id x =? sessionId then g x else x) l) <-> In s l).
Proof.
  intros Hid Hne. rewrite in_map_iff. split.
  - intros [x [Hx Hin]]. destruct (s_id x =? sessionId) eqn:E.
    + apply Z.eqb_eq in E. exfalso. apply Hne. rewrite <- Hx, Hid. exact E.
    + subst x. exact Hin.
  - intros Hin. exists s. split; trivial.
    destruct (s_id s =? sessionId) eqn:E; trivial.
    apply Z.eqb_eq in E. contradiction.
Qed.

End ViewerFacts.

(** X26. addViewer is all-or-nothing.  When it resolves, one open viewer
    row for the display has been appended, the count it returns is the
    number of open rows of the session including the new one (one more
    than before), every row of the session carries that count and a
    peak that is at least the count, the rows of other sessions are
    untouched and one viewer_joined event with that count is logged.
    When it rejects, the store is as before. *)
Theorem addViewer_counts_the_new_viewer :
  forall (now sessionId displayId : Z) (f : LiveViewerDb.faults)
         (db : LiveViewerDb.store),
    match LiveViewerDb.addViewer now sessionId displayId f db with
    | (LiveSessionDb.Resolved (v, n), db') =>
        v = LiveSessionDb.mkViewer sessionId displayId now None
        /\ LiveViewerDb.live_session_viewers db'
           = LiveViewerDb.live_session_viewers db ++ [v]
        /\ n = LiveViewerDb.count_open sessionId db + 1
        /\ LiveViewerDb.count_open sessionId db' = n
        /\ ViewerSpec.counted sessionId n db'
        /\ (forall s, In s (LiveViewerDb.live_sessions db') ->
                      LiveViewerDb.s_id s = sessionId ->
                      n <= LiveViewerDb.peak_viewer_count s)
        /\ ViewerSpec.others_kept sessionId db db'
        /\ LiveViewerDb.live_session_events db'
           = LiveViewerDb.live_session_events db
             ++ [LiveViewerDb.mkEvent sessionId "viewer_joined" displayId n]
    | (LiveSessionDb.Rejected _, db') => db' = db
    end.
Proof.
  intros now sessionId displayId f db.
  unfold LiveViewerDb.addViewer, LiveViewerDb.transaction, LiveViewerDb.bind,
    LiveViewerDb.query, LiveViewerDb.ret.
  destruct (LiveViewerDb.begin_fails f); [reflexivity|].
  destruct (LiveViewerDb.viewer_statement_fails f); [reflexivity|].
  cbn [LiveViewerDb.insert_viewer].
  destruct (LiveViewerDb.count_fails f); [reflexivity|].
  destruct (LiveViewerDb.update_session_fails f); [reflexivity|].
  cbn [LiveViewerDb.set_count_and_peak].
  destruct (LiveViewerDb.insert_event_fails f); [reflexivity|].
  cbn [LiveViewerDb.log_event].
  destruct (LiveViewerDb.commit_fails f); [reflexivity|].
  assert (Hcount : LiveViewerDb.count_open sessionId
                     (LiveViewerDb.mkStore (LiveViewerDb.live_sessions db)
                        (LiveViewerDb.live_session_viewers db
                         ++ [LiveSessionDb.mkViewer sessionId displayId now None])
                        (LiveViewerDb.live_session_events db))
                   = LiveViewerDb.count_open sessionId db + 1).
  { unfold LiveViewerDb.count_open. cbn [LiveViewerDb.live_session_viewers].
    apply count_open_app. unfold LiveSessionDb.is_open. simpl.
    rewrite Z.eqb_refl. reflexivity. }
  cbn [LiveViewerDb.live_session_viewers LiveViewerDb.live_sessions
       LiveViewerDb.live_session_events].
  split; [reflexivity|]. split; [reflexivity|]. split; [exact Hcount|].
  split; [reflexivity|]. split; [|split; [|split]].
  - intros s Hin Hs. cbn [LiveViewerDb.live_sessions] in Hin.
    apply in_map_iff in Hin. destruct Hin as [x [<- _]].
    destruct (LiveViewerDb.s_id x =? sessionId) eqn:E; [reflexivity|].
    apply Z.eqb_neq in E. contradiction.
  - intros s Hin Hs. apply in_map_iff in Hin. destruct Hin as [x [<- _]].
    destruct (LiveViewerDb.s_id x =? sessionId) eqn:E.
    + cbn. lia.
    + apply Z.eqb_neq in E. contradiction.
  - intros s Hne. cbn [LiveViewerDb.live_sessions].
    apply others_after_update; [intros x; reflexivity|exact Hne].
  - reflexivity.
Qed.

(** X27. removeViewer is all-or-nothing.  When it resolves, no row of
    the display is open in the session any more, but the count it
    returns, stores in every row of the session and logs is the number
    of rows that were open before the call: the count is read through
    the pool, outside the transaction that closes the rows, so the
    stored viewer count exceeds the number of open rows by the number
    of rows just closed. *)
Theorem removeViewer_counts_the_viewer_that_left :
  forall (now sessionId displayId : Z) (f : LiveViewerDb.faults)
         (db : LiveViewerDb.store),
    match LiveViewerDb.removeViewer now sessionId displayId f db with
    | (LiveSessionDb.Resolved n, db') =>
        n = LiveViewerDb.count_open sessionId db
        /\ LiveViewerDb.count_open sessionId db'
           + ViewerSpec.watching_rows sessionId displayId db = n
        /\ (forall v, In v (LiveViewerDb.live_session_viewers db') ->
                      LiveViewerDb.watching sessionId displayId v = false)
        /\ ViewerSpec.counted sessionId n db'
        /\ ViewerSpec.others_kept sessionId db db'
        /\ LiveViewerDb.live_session_events db'
           = LiveViewerDb.live_session_events db
             ++ [LiveViewerDb.mkEvent sessionId "viewer_left" displayId n]
    | (LiveSessionDb.Rejected _, db') => db' = db
    end.
Proof.
  intros now sessionId displayId f db.
  unfold LiveViewerDb.removeViewer, LiveViewerDb.transaction, LiveViewerDb.bind,
    LiveViewerDb.query, LiveViewerDb.ret.
  destruct (LiveViewerDb.begin_fails f); [reflexivity|].
  destruct (LiveViewerDb.viewer_statement_fails f); [reflexivity|].
  cbn [LiveViewerDb.close_viewer].
  destruct (LiveViewerDb.count_fails f); [reflexivity|].
  destruct (LiveViewerDb.update_session_fails f); [reflexivity|].
  cbn [LiveViewerDb.set_count].
  destruct (LiveViewerDb.insert_event_fails f); [reflexivity|].
  cbn [LiveViewerDb.log_event].
  destruct (LiveViewerDb.commit_fails f); [reflexivity|].
  cbn [LiveViewerDb.live_session_viewers LiveViewerDb.live_sessions
       LiveViewerDb.live_session_events].
  split; [reflexivity|]. split; [|split; [|split; [|split]]].
  - unfold LiveViewerDb.count_open, ViewerSpec.watching_rows.
    cbn [LiveViewerDb.live_session_viewers]. apply count_open_close.
  - intros v Hin. cbn [LiveViewerDb.live_session_viewers] in Hin.
    exact (none_watching_after_close now sessionId displayId _ v Hin).
  - intros s Hin Hs. cbn [LiveViewerDb.live_sessions] in Hin.
    apply in_map_iff in Hin. destruct Hin as [x [<- _]].
    destruct (LiveViewerDb.s_id x =? sessionId) eqn:E; [reflexivity|].
    apply Z.eqb_neq in E. contradiction.
  - intros s Hne. cbn [LiveViewerDb.live_sessions].
    apply others_after_update; [intros x; reflexivity|exact Hne].
  - reflexivity.
Qed.

(** ** The checker of the in-memory server *)

Section InMemorySweep.

Import InMemoryServer MemorySweepSpec.

(** The loop, element by element. *)
Lemma visit_all (now : Z) (l visited : list entry) (current : option content)
    (out : list content) :
  exists current',
    fold_left (visit now) l (visited, current, out)
    = (visited ++ map (fun s => if is_due now s then after_display s else s) l,
       current',
       out ++ map (content_of now) (filter (is_due now) l)).
Proof.
  revert visited current out.
  induction l as [|s l IH]; intros visited current out; cbn [fold_left].
  - exists current. cbn [map filter]. rewrite !app_nil_r. reflexivity.
  - cbn [visit map filter]. destruct (is_due now s).
    + destruct (IH (visited ++ [after_display s]) (Some (content_of now s))
                  (out ++ [content_of now s])) as [c Hc].
      exists c. rewrite Hc, <- !app_assoc. reflexivity.
    + destruct (IH (visited ++ [s]) current out) as [c Hc].
      exists c. rewrite Hc, <- !app_assoc. reflexivity.
Qed.

Lemma sweep_all (now : Z) (l : list entry) (current : option content) :
  fst (fst (sweep now l current))
  = map (fun s => if is_due now s then after_display s else s) l
  /\ snd (sweep now l current) = map (content_of now) (filter (is_due now) l).
Proof.
  unfold sweep. destruct (visit_all now l [] current []) as [c Hc].
  rewrite Hc. split; reflexivity.
Qed.

Lemma after_display_repeat (s : entry) : repeat (after_display s) = repeat s.
Proof.
  unfold after_display.
  destruct (String.eqb (repeat s) "once"); [reflexivity|].
  destruct (String.eqb (repeat s) "daily"); [reflexivity|].
  destruct (String.eqb (repeat s) "weekly"); [reflexivity|].
  destruct (String.eqb (repeat s) "monthly"); [reflexivity|].
  destruct (String.eqb (repeat s) "yearly"); reflexivity.
Qed.

Lemma after_display_unknown (s : entry) :
  known_word (repeat s) = false -> after_display s = s.
Proof.
  unfold known_word, after_display. cbn [existsb].
  intros H. repeat (apply orb_false_iff in H; destruct H as [?E H]).
  rewrite E, E0, E1, E2, E3. reflexivity.
Qed.

Lemma is_due_iff (now : Z) (s : entry) :
  is_due now s = true <-> status s = ScheduleDb.pending /\ scheduledTime s <= now.
Proof.
  unfold is_due. rewrite andb_true_iff, lifecycle_eqb_eq, Z.leb_le. tauto.
Qed.

End InMemorySweep.

(** X28. One run of the in-memory server's checker broadcasts exactly
    the entries that are pending and due, in array order (not in order
    of instant), keeps the array's length, and leaves no one-shot entry
    both pending and due. *)
Theorem in_memory_sweep_completes_one_shot_entries :
  forall (now : Z) (l : list InMemoryServer.entry)
         (current : option InMemoryServer.content),
    snd (InMemoryServer.sweep now l current)
    = map (InMemoryServer.content_of now) (filter (InMemoryServer.is_due now) l)
    /\ List.length (fst (fst (InMemoryServer.sweep now l current)))
       = List.length l
    /\ forall x,
         In x (fst (fst (InMemoryServer.sweep now l current))) ->
         InMemoryServer.repeat x = "once"%string ->
         InMemoryServer.status x = ScheduleDb.pending ->
         now < InMemoryServer.scheduledTime x.
Proof.
  intros now l current.
  destruct (sweep_all now l current) as [Hl Hout].
  split; [exact Hout|]. rewrite Hl. split; [apply length_map|].
  intros x Hin Honce Hp. apply in_map_iff in Hin. destruct Hin as [s [Hx Hs]].
  destruct (InMemoryServer.is_due now s) eqn:Hdue.
  - exfalso. subst x. rewrite after_display_repeat in Honce.
    unfold InMemoryServer.after_display in Hp. rewrite Honce in Hp.
    cbn in Hp. discriminate Hp.
  - subst x. destruct (Z.ltb_spec now (InMemoryServer.scheduledTime s)) as [Hlt|Hge];
      [exact Hlt|].
    exfalso. assert (Hyes : InMemoryServer.is_due now s = true)
      by (apply is_due_iff; auto).
    congruence.
Qed.

(** X29. Nothing validates the repeat word of the in-memory server: a
    pending entry whose word is none of once, daily, weekly, monthly,
    yearly is left as it is by the checker, so every run at or after
    its instant broadcasts it again, and it is still in the array,
    unchanged, after any number of runs. *)
Theorem in_memory_unknown_repeat_word_fires_at_every_run :
  forall (nows : list Z) (l : list InMemoryServer.entry)
         (current : option InMemoryServer.content) (e : InMemoryServer.entry),
    In e l ->
    InMemoryServer.status e = ScheduleDb.pending ->
    MemorySweepSpec.known_word (InMemoryServer.repeat e) = false ->
    Forall (fun now => InMemoryServer.scheduledTime e <= now) nows ->
    In e (fst (MemorySweepSpec.runs nows l current))
    /\ Forall2 (fun now out => In (InMemoryServer.content_of now e) out)
         nows (snd (MemorySweepSpec.runs nows l current)).
Proof.
  induction nows as [|now nows IH]; intros l current e Hin Hp Hw Hall.
  - cbn. split; [exact Hin|constructor].
  - inversion Hall as [|? ? Hnow Hrest]; subst.
    cbn [MemorySweepSpec.runs].
    destruct (sweep_all now l current) as [Hl Hout].
    destruct (InMemoryServer.sweep now l current) as [[l' current'] out].
    cbn [fst snd] in Hl, Hout.
    assert (Hdue : InMemoryServer.is_due now e = true)
      by (apply is_due_iff; auto).
    assert (Hin' : In e l').
    { rewrite Hl. apply in_map_iff. exists e. rewrite Hdue.
      split; [apply after_display_unknown; exact Hw|exact Hin]. }
    destruct (IH l' current' e Hin' Hp Hw Hrest) as [Hfinal Hruns].
    destruct (MemorySweepSpec.runs nows l' current') as [final outs].
    cbn [fst snd] in *. split; [exact Hfinal|].
    constructor; [|exact Hruns].
    rewrite Hout. apply in_map. apply filter_In. auto.
Qed.

(** X29 for an entry asked to repeat "hourly", over three runs. *)
Lemma in_memory_unknown_repeat_word_witness :
  In MemorySweepSpec.hourly
    (fst (MemorySweepSpec.runs [1000; 11000; 21000] [MemorySweepSpec.hourly] None))
  /\ Forall2 (fun now out => In (InMemoryServer.content_of now MemorySweepSpec.hourly) out)
       [1000; 11000; 21000]
       (snd (MemorySweepSpec.runs [1000; 11000; 21000] [MemorySweepSpec.hourly] None)).
Proof.
  assert (Hin : In MemorySweepSpec.hourly [MemorySweepSpec.hourly])
    by (left; reflexivity).
  assert (Hall : Forall (fun now => InMemoryServer.scheduledTime MemorySweepSpec.hourly <= now)
                   [1000; 11000; 21000]).
  { repeat constructor; simpl; lia. }
  exact (in_memory_unknown_repeat_word_fires_at_every_run [1000; 11000; 21000]
           [MemorySweepSpec.hourly] None MemorySweepSpec.hourly Hin eq_refl
           eq_refl Hall).
Defined.
